(** * Inversionson: iteration records, control groups and Salvus-Flow jobs

    A shallow embedding of

      - [inversionson/components/project.py]  (class [ProjectComponent]:
        [arrange_params], [create_iteration_toml], [change_attribute],
        [update_control_group_toml], [update_iteration_toml],
        [get_iteration_attributes], [get_old_iteration_info]) and
      - [inversionson/components/flow_comp.py] (class [SalvusFlowComponent]:
        [_get_job_name], [get_job], [retrieve_outputs],
        [get_adjoint_source_object], [construct_adjoint_simulation],
        [submit_job], [get_job_status], [get_job_file_paths],
        [delete_stored_wavefields], [submit_smoothing_job]),

    followed by the properties of the iteration job-state engine that the
    specification states about them.

    Python objects are modelled as follows.  A dict whose key order is
    irrelevant is a [gmap string _]; the ["events"] table of an iteration
    record, whose key order decides the order of the deletion loop, is an
    insertion-ordered association list.  Methods run in a state-and-exception
    monad over the project object, its files and the log of calls made to
    Salvus-Flow; a raised exception keeps the mutations done before it.

    A file holds the dict that was dumped into it ([toml.dump] followed by
    [toml.load] is taken to be the identity), the files of the iteration
    directory are keyed by their file name, and an iteration name is a
    plain file-name component.  Misfits are rationals, job records have
    their four mandatory keys, [warnings.warn] appends to a list of
    warnings and [print] is left out.

    [change_attribute] builds the text of an assignment statement and
    hands it to [exec]; the event, the parameter and a string value are
    pasted into that text between double quotes.  A pasted string made of
    printable characters other than the double quote and the backslash
    stands for itself.  What Python makes of any other pasted string is a
    collaborator, [py_literal]: the exception with which the statement
    fails before anything is looked up or assigned, or the string that is
    read instead.  Strings that turn the statement into something other
    than this one assignment are outside the model.  In mono-batch mode
    the smoothing attribute is a job record, or the empty dict that a
    failed load leaves behind. *)

From Stdlib Require Import ZArith QArith Ascii.
From stdpp Require Import gmap strings list fin_maps.
Close Scope Q_scope.

(** ** Python helpers *)

(** [sub in s] on strings. *)
Fixpoint contains (sub s : string) : bool :=
  String.prefix sub s ||
  match s with
  | EmptyString => false
  | String _ s' => contains sub s'
  end.

(** [x in l] for a list of strings. *)
Definition str_in (x : string) (l : list string) : bool :=
  existsb (String.eqb x) l.

(** A printable character other than the double quote and the backslash:
    between double quotes it stands for itself in a Python string
    literal. *)
Definition plain_char (c : ascii) : bool :=
  let n := nat_of_ascii c in
  (32 <=? n)%nat && (n <=? 126)%nat
  && negb (n =? 34)%nat && negb (n =? 92)%nat.

Fixpoint plain (s : string) : bool :=
  match s with
  | EmptyString => true
  | String c s' => plain_char c && plain s'
  end.

(** [os.path.dirname] (posixpath): the head up to and including the last
    slash, with trailing slashes removed unless the head is only slashes. *)
Fixpoint head_upto_last_slash (p : string) : string :=
  match p with
  | EmptyString => EmptyString
  | String c p' =>
      if contains "/" p' then String c (head_upto_last_slash p')
      else if Ascii.eqb c "/"%char then String c EmptyString
      else EmptyString
  end.

Fixpoint rstrip_slash (s : string) : string :=
  match s with
  | EmptyString => EmptyString
  | String c s' =>
      let r := rstrip_slash s' in
      if String.eqb r EmptyString && Ascii.eqb c "/"%char then EmptyString
      else String c r
  end.

Definition dirname (p : string) : string :=
  let head := head_upto_last_slash p in
  match rstrip_slash head with
  | EmptyString => head
  | stripped => stripped
  end.

(** Insertion-ordered dict with string keys (Python 3.7+ [dict]). *)
Section PyDict.
Context {V : Type}.

Definition pydict := list (string * V).

Fixpoint pd_get (d : pydict) (k : string) : option V :=
  match d with
  | [] => None
  | (k', v) :: d' => if String.eqb k' k then Some v else pd_get d' k
  end.

(** [d[k] = v]: replaces in place, or appends a new key at the end. *)
Fixpoint pd_set (d : pydict) (k : string) (v : V) : pydict :=
  match d with
  | [] => [(k, v)]
  | (k', v') :: d' =>
      if String.eqb k' k then (k', v) :: d' else (k', v') :: pd_set d' k v
  end.

Definition pd_keys (d : pydict) : list string := d.*1.
End PyDict.
Arguments pydict : clear implicits.

(** ** Exceptions and results *)

Inductive exn :=
| KeyError (key : string)
| ValueError (msg : string)
| InversionsonError (msg : string)
| FileNotFoundError (path : string)
| UnboundLocalError (var : string)
| TypeError (msg : string)
| SyntaxError (msg : string)
| ExternalError (msg : string). (* raised inside a collaborator *)

Inductive result (A : Type) :=
| Ok (a : A)
| Raise (e : exn).
Arguments Ok {A} a.
Arguments Raise {A} e.

(** ** Data model *)

(** One job sub-record, the dict
    [{"name", "submitted", "retrieved", "reposts"}] with the two optional
    keys ["interpolated"] and ["windows_selected"]. *)
Record JobRecord := {
  name : string;
  submitted : bool;
  retrieved : bool;
  reposts : Z;
  interpolated : option bool;
  windows_selected : option bool;
}.

Definition job_keys (r : JobRecord) : list string :=
  ["name"; "submitted"; "retrieved"; "reposts"]
  ++ match interpolated r with Some _ => ["interpolated"] | None => [] end
  ++ match windows_selected r with
     | Some _ => ["windows_selected"]
     | None => []
     end.

Definition set_name (r : JobRecord) (v : string) : JobRecord :=
  {| name := v; submitted := submitted r; retrieved := retrieved r;
     reposts := reposts r; interpolated := interpolated r;
     windows_selected := windows_selected r |}.

Definition set_submitted (r : JobRecord) (v : bool) : JobRecord :=
  {| name := name r; submitted := v; retrieved := retrieved r;
     reposts := reposts r; interpolated := interpolated r;
     windows_selected := windows_selected r |}.

(** [it_dict["events"][event]] *)
Record EventEntry := {
  job_info : gmap string JobRecord;
  misfit : option Q;
  usage_updated : option bool;
}.

(** The iteration record [it_dict] that is dumped to / loaded from
    [<iteration>.toml]. *)
Record ItDict := {
  it_name : string;
  it_events : pydict EventEntry;
  it_last_control_group : option (list string);
  it_new_control_group : option (list string);
  it_smoothing : option JobRecord;
}.

(** [control_groups.toml]: iteration name -> dict with keys "old", "new". *)
Abbreviation CgDict := (gmap string (gmap string (list string))).

Inductive InversionMode := MiniBatch | MonoBatch.
Inductive Meshes := MonoMesh | MultiMesh.

(** [self.smoothing_job] is a dict of job records per event in mini-batch
    mode and one job record in mono-batch mode. *)
Inductive SmoothingJob :=
| SmoothPerEvent (jobs : gmap string JobRecord)
| SmoothSingle (job : JobRecord).

(** The opaque simulation description handed to Salvus-Flow. *)
Inductive simulation := Simulation (description : string).

(** Modelled from the spec: the status values of a Salvus-Flow job.  The
    source only passes on what [update_status] returns. *)
Inductive Status := PENDING | RUNNING | COMPLETE | FAILED | UNKNOWN.

(** A job (or job array) object returned by [sapi.get_job] /
    [sapi.get_job_array]. *)
Record JobHandle := {
  h_site : string;
  h_name : string;
  h_array : bool;
}.

(** Calls issued to Salvus-Flow, in the order they are made. *)
Inductive Call :=
| RunAsync (site : string) (input_file : simulation) (ranks wall_time : Z)
| GetJob (site job_name : string)
| GetJobArray (site job_array_name : string)
| UpdateStatus (h : JobHandle) (force_update : bool)
| CopyOutput (h : JobHandle) (destination : string)
             (allow_existing_destination_folder : bool)
| DeleteJob (h : JobHandle)
| GetOutputFiles (h : JobHandle).

(** The collaborators that are not part of these two files.  Every answer
    of Salvus-Flow may depend on the calls made so far. *)
Record Collaborators := {
  (* self.comm.lasif *)
  list_events : string -> result (list string);
  find_seismograms : string -> string -> result string;
  find_gradient : string -> string -> result string;
  (* self.comm.salvus_opt *)
  get_previous_iteration_name : result string;
  get_newest_iteration_name : result string;
  (* salvus.flow.api *)
  bk_run_async : list Call -> string -> simulation -> Z -> Z -> result string;
  bk_get_job : list Call -> string -> string -> result unit;
  bk_get_job_array : list Call -> string -> string -> result unit;
  bk_update_status : list Call -> JobHandle -> bool -> result Status;
  bk_copy_output : list Call -> JobHandle -> string -> bool -> result unit;
  bk_delete : list Call -> JobHandle -> result unit;
  bk_get_output_files :
    list Call -> JobHandle -> result (list (string * string));
  (* exec: the reading of a pasted string that is not plain *)
  py_literal : string -> result string;
}.

(** Static attributes read by [get_inversion_attributes]. *)
Record Config := {
  inversion_id : string;
  inversion_mode : InversionMode;
  meshes : Meshes;
  site_name : string;
  wall_time : Z;
  smoothing_site_name : string;
  smoothing_ranks : Z;
  smoothing_wall_time : Z;
}.

(** Attributes of the iteration held in memory
    ([get_iteration_attributes]). *)
Record Attrs := {
  current_iteration : string;
  events_in_iteration : list string;
  old_control_group : list string;
  new_control_group : list string;
  forward_job : gmap string JobRecord;
  adjoint_job : gmap string JobRecord;
  smoothing_job : SmoothingJob;
  misfits : gmap string Q;
  updated : gmap string bool;
}.

(** Files: the directory [paths["iteration_tomls"]] (file name -> record)
    and [paths["control_group_toml"]]. *)
Record Disk := {
  iteration_tomls : gmap string ItDict;
  control_group_toml : option CgDict;
}.

Record Project := {
  config : Config;
  attrs : Attrs;
  disk : Disk;
  warnings : list string;
  calls : list Call;
}.

Definition with_attrs (p : Project) (a : Attrs) : Project :=
  {| config := config p; attrs := a; disk := disk p;
     warnings := warnings p; calls := calls p |}.

Definition with_disk (p : Project) (d : Disk) : Project :=
  {| config := config p; attrs := attrs p; disk := d;
     warnings := warnings p; calls := calls p |}.

Definition with_warnings (p : Project) (w : list string) : Project :=
  {| config := config p; attrs := attrs p; disk := disk p;
     warnings := w; calls := calls p |}.

Definition with_calls (p : Project) (c : list Call) : Project :=
  {| config := config p; attrs := attrs p; disk := disk p;
     warnings := warnings p; calls := c |}.

Definition with_forward_job (a : Attrs) (m : gmap string JobRecord) : Attrs :=
  {| current_iteration := current_iteration a;
     events_in_iteration := events_in_iteration a;
     old_control_group := old_control_group a;
     new_control_group := new_control_group a;
     forward_job := m; adjoint_job := adjoint_job a;
     smoothing_job := smoothing_job a;
     misfits := misfits a; updated := updated a |}.

Definition with_adjoint_job (a : Attrs) (m : gmap string JobRecord) : Attrs :=
  {| current_iteration := current_iteration a;
     events_in_iteration := events_in_iteration a;
     old_control_group := old_control_group a;
     new_control_group := new_control_group a;
     forward_job := forward_job a; adjoint_job := m;
     smoothing_job := smoothing_job a;
     misfits := misfits a; updated := updated a |}.

Definition with_smoothing_job (a : Attrs) (s : SmoothingJob) : Attrs :=
  {| current_iteration := current_iteration a;
     events_in_iteration := events_in_iteration a;
     old_control_group := old_control_group a;
     new_control_group := new_control_group a;
     forward_job := forward_job a; adjoint_job := adjoint_job a;
     smoothing_job := s;
     misfits := misfits a; updated := updated a |}.

Definition with_misfits (a : Attrs) (m : gmap string Q) : Attrs :=
  {| current_iteration := current_iteration a;
     events_in_iteration := events_in_iteration a;
     old_control_group := old_control_group a;
     new_control_group := new_control_group a;
     forward_job := forward_job a; adjoint_job := adjoint_job a;
     smoothing_job := smoothing_job a;
     misfits := m; updated := updated a |}.

Definition with_updated (a : Attrs) (m : gmap string bool) : Attrs :=
  {| current_iteration := current_iteration a;
     events_in_iteration := events_in_iteration a;
     old_control_group := old_control_group a;
     new_control_group := new_control_group a;
     forward_job := forward_job a; adjoint_job := adjoint_job a;
     smoothing_job := smoothing_job a;
     misfits := misfits a; updated := m |}.

Definition with_iteration (a : Attrs) (it : string) (evs : list string)
    : Attrs :=
  {| current_iteration := it; events_in_iteration := evs;
     old_control_group := old_control_group a;
     new_control_group := new_control_group a;
     forward_job := forward_job a; adjoint_job := adjoint_job a;
     smoothing_job := smoothing_job a;
     misfits := misfits a; updated := updated a |}.

Definition with_old_control_group (a : Attrs) (g : list string) : Attrs :=
  {| current_iteration := current_iteration a;
     events_in_iteration := events_in_iteration a;
     old_control_group := g;
     new_control_group := new_control_group a;
     forward_job := forward_job a; adjoint_job := adjoint_job a;
     smoothing_job := smoothing_job a;
     misfits := misfits a; updated := updated a |}.

Definition with_new_control_group (a : Attrs) (g : list string) : Attrs :=
  {| current_iteration := current_iteration a;
     events_in_iteration := events_in_iteration a;
     old_control_group := old_control_group a;
     new_control_group := g;
     forward_job := forward_job a; adjoint_job := adjoint_job a;
     smoothing_job := smoothing_job a;
     misfits := misfits a; updated := updated a |}.

(** ** The monad of methods *)

Definition M (A : Type) : Type := Project -> result A * Project.

Definition ret {A} (a : A) : M A := fun p => (Ok a, p).
Definition raise {A} (e : exn) : M A := fun p => (Raise e, p).

Definition bind {A B} (m : M A) (f : A -> M B) : M B :=
  fun p =>
    match m p with
    | (Ok a, p') => f a p'
    | (Raise e, p') => (Raise e, p')
    end.

Notation "x <- m ;; k" := (bind m (fun x => k))
  (at level 100, m at next level, right associativity).
Notation "m ;;; k" := (bind m (fun _ => k))
  (at level 100, right associativity).

Definition get : M Project := fun p => (Ok p, p).
Definition put (p : Project) : M unit := fun _ => (Ok tt, p).
Definition lift {A} (r : result A) : M A := fun p => (r, p).

Definition modify_attrs (f : Attrs -> Attrs) : M unit :=
  fun p => (Ok tt, with_attrs p (f (attrs p))).

(** A call to Salvus-Flow: it is logged, and answered from the calls made
    before it. *)
Definition backend_call {A} (c : Call) (reply : list Call -> result A) : M A :=
  fun p => (reply (calls p), with_calls p (calls p ++ [c])).

(** [k in d.keys()] *)
Definition has_key {V} (d : gmap string V) (k : string) : bool :=
  match d !! k with Some _ => true | None => false end.

(** [d[k]] on a dict, raising [KeyError]. *)
Definition getitem {V} (d : gmap string V) (k : string) : M V :=
  match d !! k with
  | Some v => ret v
  | None => raise (KeyError k)
  end.

Definition pd_getitem {V} (d : pydict V) (k : string) : M V :=
  match pd_get d k with
  | Some v => ret v
  | None => raise (KeyError k)
  end.

Definition getkey {V} (o : option V) (k : string) : M V :=
  match o with
  | Some v => ret v
  | None => raise (KeyError k)
  end.

(** [for x in l: body x] *)
Fixpoint for_each {A} (l : list A) (body : A -> M unit) : M unit :=
  match l with
  | [] => ret tt
  | x :: l' => body x ;;; for_each l' body
  end.

(** [acc = f(acc, x)] for [x in l], with exceptions. *)
Fixpoint fold_m {A S} (l : list A) (body : S -> A -> M S) (acc : S) : M S :=
  match l with
  | [] => ret acc
  | x :: l' => acc' <- body acc x ;; fold_m l' body acc'
  end.

(** ** Files *)

Definition iteration_toml_path (iteration : string) : string :=
  iteration +:+ ".toml".

Definition backup_path (iteration : string) : string :=
  "backup_" +:+ iteration +:+ ".toml".

Definition path_exists (f : string) : M bool :=
  p <- get ;; ret (has_key (iteration_tomls (disk p)) f).

Definition warn (msg : string) : M unit :=
  p <- get ;; put (with_warnings p (warnings p ++ [msg])).

Definition read_iteration_toml (f : string) : M ItDict :=
  p <- get ;;
  match iteration_tomls (disk p) !! f with
  | Some d => ret d
  | None => raise (FileNotFoundError f)
  end.

Definition write_iteration_toml (f : string) (d : ItDict) : M unit :=
  p <- get ;;
  put (with_disk p {| iteration_tomls := <[f := d]> (iteration_tomls (disk p));
                      control_group_toml := control_group_toml (disk p) |}).

(** [shutil.copyfile(src, dst)] inside the iteration directory. *)
Definition copyfile (src dst : string) : M unit :=
  d <- read_iteration_toml src ;; write_iteration_toml dst d.

Definition control_group_exists : M bool :=
  p <- get ;;
  ret (match control_group_toml (disk p) with Some _ => true | None => false end).

Definition load_control_group_toml : M CgDict :=
  p <- get ;;
  match control_group_toml (disk p) with
  | Some cg => ret cg
  | None => raise (FileNotFoundError "control_groups.toml")
  end.

Definition dump_control_group_toml (cg : CgDict) : M unit :=
  p <- get ;;
  put (with_disk p {| iteration_tomls := iteration_tomls (disk p);
                      control_group_toml := Some cg |}).

(** ** project.py *)

Section Methods.
Variable env : Collaborators.

Definition is_mono_batch (p : Project) : bool :=
  match inversion_mode (config p) with MonoBatch => true | MiniBatch => false end.

Definition is_multi_mesh (p : Project) : bool :=
  match meshes (config p) with MultiMesh => true | MonoMesh => false end.

(** The [jobs] dict built in the event loop of [create_iteration_toml]. *)
Definition created_jobs (validation : bool) (mode : InversionMode)
    (f_job_dict a_job_dict s_job_dict : JobRecord) : gmap string JobRecord :=
  match mode with
  | MiniBatch =>
      if negb validation then
        {[ "forward" := f_job_dict; "adjoint" := a_job_dict;
           "smoothing" := s_job_dict ]}
      else {[ "forward" := f_job_dict ]}
  | MonoBatch =>
      if negb validation then
        {[ "forward" := f_job_dict; "adjoint" := a_job_dict ]}
      else {[ "forward" := f_job_dict ]}
  end.

(** [create_iteration_toml], lines 576-584: an existing record is copied
    to [backup_<iteration>.toml] after the warning. *)
Definition backup_existing (iteration : string) : M unit :=
  let iteration_toml := iteration_toml_path iteration in
  exists_ <- path_exists iteration_toml ;;
  if exists_ then
    warn ("Iteration toml for iteration: " +:+ iteration
          +:+ " already exists. backed it up") ;;;
    copyfile iteration_toml (backup_path iteration)
  else ret tt.

(** [create_iteration_toml], lines 590-596: the control group chained from
    the previous iteration. *)
Definition chained_control_group (iteration : string) (validation : bool)
    : M (list string) :=
  if negb (String.eqb iteration "it0000_model") && negb validation then
    ctrl_grps <- load_control_group_toml ;;
    prev_iter <- lift (get_previous_iteration_name env) ;;
    grp <- getitem ctrl_grps prev_iter ;;
    getitem grp "new"
  else ret [].

(** [create_iteration_toml], lines 586-655: the record [it_dict]. *)
Definition fresh_it_dict (p : Project) (iteration : string)
    (validation : bool) (last_control_group events : list string) : ItDict :=
  let f_job_dict :=
    {| name := EmptyString; submitted := false; retrieved := false;
       reposts := 0;
       interpolated := if is_multi_mesh p then Some false else None;
       windows_selected := if validation then Some false else None |} in
  let a_job_dict :=
    {| name := EmptyString; submitted := false; retrieved := false;
       reposts := 0;
       interpolated := if is_multi_mesh p then Some false else None;
       windows_selected := None |} in
  let s_job_dict :=
    {| name := EmptyString; submitted := false; retrieved := false;
       reposts := 0; interpolated := None; windows_selected := None |} in
  let entry :=
    {| job_info := created_jobs validation (inversion_mode (config p))
                     f_job_dict a_job_dict s_job_dict;
       misfit := if negb validation then Some 0%Q else None;
       usage_updated := if negb validation then Some false else None |} in
  {| it_name := iteration;
     it_events := fold_left (fun d event => pd_set d event entry) events [];
     it_last_control_group :=
       if negb validation then Some last_control_group else None;
     it_new_control_group := if negb validation then Some [] else None;
     it_smoothing :=
       if is_mono_batch p && negb validation then Some s_job_dict
       else None |}.

Definition create_iteration_toml (iteration : string) : M unit :=
  let iteration_toml := iteration_toml_path iteration in
  let validation := contains "validation" iteration in
  backup_existing iteration ;;;
  last_control_group <- chained_control_group iteration validation ;;
  p <- get ;;
  events <- lift (list_events env iteration) ;;
  write_iteration_toml iteration_toml
    (fresh_it_dict p iteration validation last_control_group events).

(** The attribute strings that [flow_comp.py] passes to
    [change_attribute], and the values assigned through them. *)
Inductive Attribute :=
| AttrForwardJob (event : string)   (* forward_job["<event>"]["<key>"] *)
| AttrAdjointJob (event : string)   (* adjoint_job["<event>"]["<key>"] *)
| AttrSmoothingJob (event par : string).
                                    (* smoothing_job["<event>"]["<par>"]["<key>"] *)

Inductive NewValue :=
| NameIs (v : string)               (* ["name"] = "<v>" *)
| SubmittedIs (v : bool).           (* ["submitted"] = <v> *)

Definition assign (r : JobRecord) (v : NewValue) : JobRecord :=
  match v with
  | NameIs s => set_name r s
  | SubmittedIs b => set_submitted r b
  end.

(** What Python reads from a string pasted between double quotes into the
    text of a statement. *)
Definition python_literal (s : string) : result string :=
  if plain s then Ok s else py_literal env s.

(** The assignment that the statement stands for once it is compiled.  A
    job record has no sub-dict under any key, so the three-level
    smoothing path always raises. *)
Definition assign_attribute (attribute : Attribute) (new_value : NewValue)
    : M unit :=
  p <- get ;;
  match attribute with
  | AttrForwardJob event =>
      r <- getitem (forward_job (attrs p)) event ;;
      put (with_attrs p (with_forward_job (attrs p)
             (<[event := assign r new_value]> (forward_job (attrs p)))))
  | AttrAdjointJob event =>
      r <- getitem (adjoint_job (attrs p)) event ;;
      put (with_attrs p (with_adjoint_job (attrs p)
             (<[event := assign r new_value]> (adjoint_job (attrs p)))))
  | AttrSmoothingJob event par =>
      match smoothing_job (attrs p) with
      | SmoothPerEvent m =>
          r <- getitem m event ;;
          if str_in par (job_keys r)
          then raise (TypeError "object is not subscriptable")
          else raise (KeyError par)
      | SmoothSingle r =>
          if str_in event (job_keys r)
          then raise (TypeError "object is not subscriptable")
          else raise (KeyError event)
      end
  end.

(** [exec] of [self.<attribute> = "<new_value>"] (a string) or of
    [self.<attribute> = <new_value>] (a bool): the statement is compiled,
    which reads the pasted strings from left to right, and then run. *)
Definition change_attribute (attribute : Attribute) (new_value : NewValue)
    : M unit :=
  attribute <-
    (match attribute with
     | AttrForwardJob event =>
         event <- lift (python_literal event) ;; ret (AttrForwardJob event)
     | AttrAdjointJob event =>
         event <- lift (python_literal event) ;; ret (AttrAdjointJob event)
     | AttrSmoothingJob event par =>
         event <- lift (python_literal event) ;;
         par <- lift (python_literal par) ;;
         ret (AttrSmoothingJob event par)
     end) ;;
  new_value <-
    (match new_value with
     | NameIs v => v <- lift (python_literal v) ;; ret (NameIs v)
     | SubmittedIs b => ret (SubmittedIs b)
     end) ;;
  assign_attribute attribute new_value.

(** [new not in cg_dict[iteration].keys()]: [new] is the bool parameter,
    the keys are strings, so the bool is never among them. *)
Definition bool_in_keys {V} (b : bool) (d : gmap string V) : bool := false.

Definition update_control_group_toml (new first : bool) : M unit :=
  p <- get ;;
  let iteration := current_iteration (attrs p) in
  if first then
    dump_control_group_toml
      {[ iteration := {[ "old" := []; "new" := [] ]} ]}
  else
    cg_dict <- load_control_group_toml ;;
    cg_dict <-
      (if negb new then
         prev_iter <- lift (get_previous_iteration_name env) ;;
         let cg_dict := <[iteration := ∅]> cg_dict in
         prev <- getitem cg_dict prev_iter ;;
         prev_new <- getitem prev "new" ;;
         let entry := <["old" := prev_new]> ∅ in
         let entry :=
           if negb (bool_in_keys new entry) then <["new" := []]> entry
           else entry in
         ret (<[iteration := entry]> cg_dict)
       else ret cg_dict) ;;
    cg_dict <-
      (if new then
         let cg_dict :=
           if negb (has_key cg_dict iteration)
           then <[iteration := ∅]> cg_dict else cg_dict in
         entry <- getitem cg_dict iteration ;;
         ret (<[iteration :=
                  <["new" := new_control_group (attrs p)]> entry]> cg_dict)
       else ret cg_dict) ;;
    dump_control_group_toml cg_dict.

(** [self.smoothing_job[event]] in mini-batch mode.  The attribute has the
    shape of the inversion mode ([get_iteration_attributes] stores it so);
    on the other shape the lookup finds no job record. *)
Definition smoothing_job_of_event (p : Project) (event : string)
    : M JobRecord :=
  match smoothing_job (attrs p) with
  | SmoothPerEvent m => getitem m event
  | SmoothSingle r =>
      if str_in event (job_keys r)
      then raise (TypeError "not a job record")
      else raise (KeyError event)
  end.

(** [self.smoothing_job] in mono-batch mode, of which the caller reads
    the keys [keys] in this order.  On a per-event dict the first of them
    that is not the name of an event raises [KeyError]. *)
Definition smoothing_job_single (p : Project) (keys : list string)
    : M JobRecord :=
  match smoothing_job (attrs p) with
  | SmoothSingle r => ret r
  | SmoothPerEvent m =>
      match List.find (fun k => negb (has_key m k)) keys with
      | Some k => raise (KeyError k)
      | None => raise (TypeError "a job record is not a field")
      end
  end.

(** The body of the event loop of [update_iteration_toml]: the entry of
    [event] is added to [it_dict["events"]]. *)
Definition saved_event_entry (p : Project) (validation : bool)
    (d : pydict EventEntry) (event : string) : M (pydict EventEntry) :=
  f <- getitem (forward_job (attrs p)) event ;;
  let jobs : gmap string JobRecord := {[ "forward" := f ]} in
  jobs <-
    (if negb validation then
       a <- getitem (adjoint_job (attrs p)) event ;;
       ret (<["adjoint" := a]> jobs)
     else ret jobs) ;;
  jobs <-
    (match inversion_mode (config p) with
     | MiniBatch =>
         if negb validation then
           s <- smoothing_job_of_event p event ;;
           ret (<["smoothing" := s]> jobs)
         else ret jobs
     | MonoBatch => ret jobs
     end) ;;
  entry <-
    (if negb validation then
       m <- getitem (misfits (attrs p)) event ;;
       u <- getitem (updated (attrs p)) event ;;
       ret {| job_info := jobs; misfit := Some m; usage_updated := Some u |}
     else ret {| job_info := jobs; misfit := None; usage_updated := None |}) ;;
  ret (pd_set d event entry).

(** The iteration name and validation flag that [update_iteration_toml]
    works with (lines 728-733). *)
Definition resolved_validation (p : Project) (iteration : string)
    (validation : bool) : bool :=
  let iteration :=
    if String.eqb iteration "current" then current_iteration (attrs p)
    else iteration in
  if contains "validation" iteration then true else validation.

Definition resolved_iteration (p : Project) (iteration : string)
    (validation : bool) : string :=
  let validation := resolved_validation p iteration validation in
  let iteration :=
    if String.eqb iteration "current" then current_iteration (attrs p)
    else iteration in
  if validation && negb (contains "validation" iteration)
  then "validation_" +:+ iteration else iteration.

Definition update_iteration_toml (iteration : string) (validation : bool)
    : M unit :=
  p <- get ;;
  let it_arg := iteration in
  let iteration := resolved_iteration p it_arg validation in
  let validation := resolved_validation p it_arg validation in
  let iteration_toml := iteration_toml_path iteration in
  exists_ <- path_exists iteration_toml ;;
  if negb exists_ then
    raise (InversionsonError ("Iteration toml for iteration: " +:+ iteration
                              +:+ " does not exists"))
  else
    cg_exists <- control_group_exists ;;
    control_group_dict <-
      (if cg_exists && negb validation then
         cg <- load_control_group_toml ;; getitem cg iteration
       else ret {[ "old" := []; "new" := [] ]}) ;;
    groups <-
      (if negb validation then
         old <- getitem control_group_dict "old" ;;
         new <- getitem control_group_dict "new" ;;
         ret (Some old, Some new)
       else ret (None, None)) ;;
    events <- lift (list_events env iteration) ;;
    it_events <- fold_m events (saved_event_entry p validation) [] ;;
    let it_dict :=
      {| it_name := iteration; it_events := it_events;
         it_last_control_group := groups.1;
         it_new_control_group := groups.2;
         it_smoothing := None |} in
    (if is_mono_batch p && negb validation then
       (* it_dict["smoothing"] == self.smoothing_job : a comparison, whose
          left operand reads a key that was never set *)
       _ <- getkey (it_smoothing it_dict) "smoothing" ;; ret tt
     else ret tt) ;;;
    write_iteration_toml iteration_toml it_dict.

Definition get_old_iteration_info (iteration : string) : M ItDict :=
  let iteration_toml := iteration_toml_path iteration in
  exists_ <- path_exists iteration_toml ;;
  if negb exists_ then
    raise (InversionsonError
             ("No toml file exists for iteration: " +:+ iteration))
  else read_iteration_toml iteration_toml.
(** [self.smoothing_job[event] = r] on the dict that the attribute was reset
    to at the start of [get_iteration_attributes]. *)
Definition smoothing_insert (s : SmoothingJob) (event : string)
    (r : JobRecord) : SmoothingJob :=
  match s with
  | SmoothPerEvent m => SmoothPerEvent (<[event := r]> m)
  | SmoothSingle r' => SmoothSingle r'
  end.

Definition get_iteration_attributes (validation : bool) : M unit :=
  iteration <- lift (get_newest_iteration_name env) ;;
  let iteration :=
    if validation then "validation_" +:+ iteration else iteration in
  let iteration_toml := iteration_toml_path iteration in
  exists_ <- path_exists iteration_toml ;;
  if negb exists_ then
    raise (InversionsonError
             ("No toml file exists for iteration: " +:+ iteration))
  else
    it_dict <- read_iteration_toml iteration_toml ;;
    modify_attrs (fun a =>
      with_iteration a (it_name it_dict) (pd_keys (it_events it_dict))) ;;;
    (if negb validation then
       old <- getkey (it_last_control_group it_dict) "last_control_group" ;;
       modify_attrs (fun a => with_old_control_group a old) ;;;
       new <- getkey (it_new_control_group it_dict) "new_control_group" ;;
       modify_attrs (fun a =>
         with_updated
           (with_misfits
              (with_smoothing_job
                 (with_adjoint_job (with_new_control_group a new) ∅)
                 (SmoothPerEvent ∅))
              ∅)
           ∅)
     else ret tt) ;;;
    modify_attrs (fun a => with_forward_job a ∅) ;;;
    for_each (pd_keys (it_events it_dict))
      (fun event =>
         e <- pd_getitem (it_events it_dict) event ;;
         (if negb validation then
            u <- getkey (usage_updated e) "usage_updated" ;;
            modify_attrs (fun a => with_updated a (<[event := u]> (updated a))) ;;;
            m <- getkey (misfit e) "misfit" ;;
            modify_attrs (fun a => with_misfits a (<[event := m]> (misfits a))) ;;;
            aj <- getitem (job_info e) "adjoint" ;;
            modify_attrs (fun a =>
              with_adjoint_job a (<[event := aj]> (adjoint_job a))) ;;;
            p <- get ;;
            match inversion_mode (config p) with
            | MiniBatch =>
                sj <- getitem (job_info e) "smoothing" ;;
                modify_attrs (fun a =>
                  with_smoothing_job a
                    (smoothing_insert (smoothing_job a) event sj))
            | MonoBatch => ret tt
            end
          else ret tt) ;;;
         fj <- getitem (job_info e) "forward" ;;
         modify_attrs (fun a =>
           with_forward_job a (<[event := fj]> (forward_job a)))) ;;;
    p <- get ;;
    if is_mono_batch p && negb validation then
      s <- getkey (it_smoothing it_dict) "smoothing" ;;
      modify_attrs (fun a => with_smoothing_job a (SmoothSingle s))
    else ret tt.

(** ** flow_comp.py *)

Definition sapi_get_job (site job_name : string) : M JobHandle :=
  backend_call (GetJob site job_name)
    (fun log => bk_get_job env log site job_name) ;;;
  ret {| h_site := site; h_name := job_name; h_array := false |}.

Definition sapi_get_job_array (site job_array_name : string) : M JobHandle :=
  backend_call (GetJobArray site job_array_name)
    (fun log => bk_get_job_array env log site job_array_name) ;;;
  ret {| h_site := site; h_name := job_array_name; h_array := true |}.

Definition sapi_run_async (site : string) (input_file : simulation)
    (ranks wall_time_in_seconds : Z) : M string :=
  backend_call (RunAsync site input_file ranks wall_time_in_seconds)
    (fun log => bk_run_async env log site input_file ranks
                  wall_time_in_seconds).

(** [unique_id] stands for the eight random hexadecimal digits drawn when
    [new] is true. *)
Definition _get_job_name (event sim_type : string) (new : bool)
    (iteration : string) (unique_id : string) : M string :=
  p <- get ;;
  let inversion_id := inversion_id (config p) in
  let old_iter := negb (String.eqb iteration "current") in
  let iteration :=
    if String.eqb iteration "current" then current_iteration (attrs p)
    else iteration in
  if negb (str_in sim_type ["forward"; "adjoint"; "smoothing"]) then
    raise (ValueError ("Simulation type " +:+ sim_type +:+ " not supported. "
             +:+ "Only supported ones are forward and adjoint"))
  else
    job <-
      (if new then
         let job := iteration +:+ "_" +:+ inversion_id +:+ "_" +:+ sim_type
                    +:+ "_" +:+ unique_id in
         (if String.eqb sim_type "forward" then
            change_attribute (AttrForwardJob event) (NameIs job)
          else if String.eqb sim_type "adjoint" then
            change_attribute (AttrAdjointJob event) (NameIs job)
          else raise (InversionsonError "This isn't even used anyway")) ;;;
         ret job
       else if old_iter then
         iteration_info <- get_old_iteration_info iteration ;;
         e <- pd_getitem (it_events iteration_info) event ;;
         r <- getitem (job_info e) sim_type ;;
         ret (name r)
       else if String.eqb sim_type "forward" then
         r <- getitem (forward_job (attrs p)) event ;; ret (name r)
       else if String.eqb sim_type "adjoint" then
         r <- getitem (adjoint_job (attrs p)) event ;; ret (name r)
       else if is_mono_batch p then
         r <- smoothing_job_single p ["name"] ;; ret (name r)
       else
         r <- smoothing_job_of_event p event ;; ret (name r)) ;;
    update_iteration_toml "current" false ;;;
    ret job.

Definition get_job_name (event sim_type iteration : string) : M string :=
  _get_job_name event sim_type false iteration EmptyString.

Definition get_job (event sim_type iteration : string) : M JobHandle :=
  p <- get ;;
  job_name <-
    (if String.eqb iteration "current"
        || String.eqb iteration (current_iteration (attrs p)) then
       if String.eqb sim_type "forward" then
         r <- getitem (forward_job (attrs p)) event ;;
         if submitted r then ret (Some (name r))
         else raise (InversionsonError ("Forward job for event: " +:+ event
                       +:+ " has not been submitted"))
       else if String.eqb sim_type "adjoint" then
         r <- getitem (adjoint_job (attrs p)) event ;;
         if submitted r then ret (Some (name r))
         else raise (InversionsonError ("Adjoint job for event: " +:+ event
                       +:+ " has not been submitted"))
       else if String.eqb sim_type "smoothing" then
         smoothing_job <-
           (if is_mono_batch p
            then smoothing_job_single p ["submitted"; "name"]
            else smoothing_job_of_event p event) ;;
         if submitted smoothing_job then ret (Some (name smoothing_job))
         else raise (InversionsonError ("Smoothing job for event: " +:+ event
                       +:+ " has not been submitted"))
       else ret None
     else
       it_dict <- get_old_iteration_info iteration ;;
       if String.eqb sim_type "smoothing" && is_mono_batch p then
         r <- getkey (it_smoothing it_dict) "smoothing" ;;
         ret (Some (name r))
       else
         e <- pd_getitem (it_events it_dict) event ;;
         r <- getitem (job_info e) sim_type ;;
         ret (Some (name r))) ;;
  match job_name with
  | None => raise (UnboundLocalError "job_name")
  | Some job_name =>
      if String.eqb sim_type "smoothing" then
        sapi_get_job_array (smoothing_site_name (config p)) job_name
      else sapi_get_job (site_name (config p)) job_name
  end.

Definition retrieve_outputs (event_name sim_type : string) : M unit :=
  job_name <- _get_job_name event_name sim_type false "current" EmptyString ;;
  p <- get ;;
  salvus_job <- sapi_get_job (site_name (config p)) job_name ;;
  destination <-
    (if String.eqb sim_type "forward" then
       lift (find_seismograms env event_name (current_iteration (attrs p)))
     else if String.eqb sim_type "adjoint" then
       lift (find_gradient env (current_iteration (attrs p)) event_name)
     else raise (InversionsonError ("Simulation type " +:+ sim_type
                   +:+ " not supported in this function"))) ;;
  backend_call (CopyOutput salvus_job (dirname destination) true)
    (fun log => bk_copy_output env log salvus_job (dirname destination) true).

Definition submit_job (event : string) (simulation : simulation)
    (sim_type : string) (site : string) (wall_time_arg ranks : Z) : M unit :=
  p <- get ;;
  let wall_time :=
    if String.eqb sim_type "adjoint" then (wall_time (config p) * 2)%Z
    else wall_time (config p) in
  job_name <- sapi_run_async site simulation ranks wall_time ;;
  (if String.eqb sim_type "forward" then
     change_attribute (AttrForwardJob event) (NameIs job_name) ;;;
     change_attribute (AttrForwardJob event) (SubmittedIs true)
   else if String.eqb sim_type "adjoint" then
     change_attribute (AttrAdjointJob event) (NameIs job_name) ;;;
     change_attribute (AttrAdjointJob event) (SubmittedIs true)
   else ret tt) ;;;
  update_iteration_toml "current" false.

Definition get_job_status (event sim_type iteration : string) : M Status :=
  job <- get_job event sim_type iteration ;;
  backend_call (UpdateStatus job true)
    (fun log => bk_update_status env log job true).

Definition get_job_file_paths (event sim_type : string)
    : M (list (string * string)) :=
  p <- get ;;
  job_name <-
    (if String.eqb sim_type "forward" then
       r <- getitem (forward_job (attrs p)) event ;; ret (name r)
     else if String.eqb sim_type "adjoint" then
       r <- getitem (adjoint_job (attrs p)) event ;; ret (name r)
     else raise (InversionsonError ("Don't recognise sim_type " +:+ sim_type))) ;;
  job <- sapi_get_job (site_name (config p)) job_name ;;
  backend_call (GetOutputFiles job)
    (fun log => bk_get_output_files env log job).

(** The body of the loop of [delete_stored_wavefields]. *)
Definition delete_one (iter_info : ItDict) (sim_type event : string)
    : M unit :=
  e <- pd_getitem (it_events iter_info) event ;;
  r <- getitem (job_info e) sim_type ;;
  p <- get ;;
  job <- sapi_get_job (site_name (config p)) (name r) ;;
  backend_call (DeleteJob job) (fun log => bk_delete env log job).

Definition delete_stored_wavefields (iteration sim_type : string) : M unit :=
  iter_info <- get_old_iteration_info iteration ;;
  let events_in_iteration := pd_keys (it_events iter_info) in
  for_each events_in_iteration (delete_one iter_info sim_type).

Definition submit_smoothing_job (event : string) (simulation : simulation)
    (par : string) : M unit :=
  p <- get ;;
  job_name <- sapi_run_async (smoothing_site_name (config p)) simulation
                (smoothing_ranks (config p)) (smoothing_wall_time (config p)) ;;
  change_attribute (AttrSmoothingJob event par) (NameIs job_name) ;;;
  change_attribute (AttrSmoothingJob event par) (SubmittedIs true).
End Methods.

(** ** project.py: arrange_params *)

Definition case_tti_inv : gset string :=
  list_to_set ["VSV"; "VSH"; "VPV"; "VPH"; "RHO"].
Definition case_tti_mod : gset string :=
  list_to_set ["VSV"; "VSH"; "VPV"; "VPH"; "RHO"; "QKAPPA"; "QMU"; "ETA"].
Definition case_iso_mod : gset string :=
  list_to_set ["QKAPPA"; "QMU"; "VP"; "VS"; "RHO"].
Definition case_iso_inv : gset string := list_to_set ["VP"; "VS"].
Definition case_iso_inv_dens : gset string := list_to_set ["VP"; "VS"; "RHO"].

(** The list of parameters is compared as a set with the five cases, in
    the order of the source.  (The message of the error leaves the list
    out.) *)
Definition arrange_params (parameters : list string) : result (list string) :=
  let given : gset string := list_to_set parameters in
  if bool_decide (given = case_tti_inv) then
    Ok ["VPV"; "VPH"; "VSV"; "VSH"; "RHO"]
  else if bool_decide (given = case_tti_mod) then
    Ok ["VPV"; "VPH"; "VSV"; "VSH"; "RHO"; "QKAPPA"; "QMU"; "ETA"]
  else if bool_decide (given = case_iso_inv) then
    Ok ["VP"; "VS"]
  else if bool_decide (given = case_iso_inv_dens) then
    Ok ["RHO"; "VP"; "VS"]
  else if bool_decide (given = case_iso_mod) then
    Ok ["QKAPPA"; "QMU"; "RHO"; "VP"; "VS"]
  else
    Raise (InversionsonError
             "Parameter list not a recognized set of parameters").

(** ** flow_comp.py: adjoint sources and the adjoint simulation *)

(** A receiver as LASIF describes it (keys ["network-code"],
    ["station-code"], ["latitude"], ["longitude"]). *)
Record Receiver := {
  network_code : string;
  station_code : string;
  rec_latitude : Q;
  rec_longitude : Q;
}.

(** [stf.Custom(filename=..., dataset_name=...)] *)
Record StfCustom := {
  stf_filename : string;
  stf_dataset_name : string;
}.

(** [source.seismology.SideSetVectorPoint3DZNE(...)] *)
Record SideSetVectorPoint3DZNE := {
  src_latitude : Q;
  src_longitude : Q;
  fz : Q;
  fn : Q;
  fe : Q;
  src_side_set_name : string;
  source_time_function : StfCustom;
}.

(** The adjoint [simulation.Waveform] as [construct_adjoint_simulation]
    fills it in. *)
Record AdjointWaveform := {
  aw_mesh : string;
  forward_meta_json_filename : string;
  parameterization : string;
  output_filename : string;
  point_source : list SideSetVectorPoint3DZNE;
}.

(** The collaborators of the two methods: LASIF, the keys of an HDF5 file,
    the output path of a Salvus-Flow job and the validation of a
    simulation object. *)
Record SimulationCollaborators := {
  get_receivers : string -> result (list Receiver);
  get_adjoint_source_file : string -> string -> result string;
  h5_keys : string -> result (list string);
  get_simulation_mesh : string -> result string;
  job_output_path : JobHandle -> result string;
  validate : AdjointWaveform -> result unit;
}.

(** [rec["network-code"] + "_" + rec["station-code"]] *)
Definition station_key (rec : Receiver) : string :=
  network_code rec +:+ "_" +:+ station_code rec.

Definition get_adjoint_source_object (senv : SimulationCollaborators)
    (event_name : string) : M (list SideSetVectorPoint3DZNE) :=
  p <- get ;;
  let iteration := current_iteration (attrs p) in
  receivers <- lift (get_receivers senv event_name) ;;
  adjoint_filename <-
    lift (get_adjoint_source_file senv event_name iteration) ;;
  adjoint_recs <- lift (h5_keys senv adjoint_filename) ;;
  let adjoint_sources :=
    List.filter (fun rec => str_in (station_key rec) adjoint_recs) receivers in
  let adj_src :=
    map (fun rec =>
           {| src_latitude := rec_latitude rec;
              src_longitude := rec_longitude rec;
              fz := 1%Q; fn := 1%Q; fe := 1%Q;
              src_side_set_name := "r1";
              source_time_function :=
                {| stf_filename := adjoint_filename;
                   stf_dataset_name := "/" +:+ station_key rec |} |})
        adjoint_sources in
  ret adj_src.

(** [os.path.join(a, b)] for a relative [b]. *)
Definition path_join (a b : string) : string :=
  if String.eqb a EmptyString then b
  else if contains "/" (String.substring (String.length a - 1) 1 a)
  then a +:+ b
  else a +:+ "/" +:+ b.

(** [inversion_params] stands for [self.comm.project.inversion_params],
    which [get_inversion_attributes] sets to
    [arrange_params(info["inversion_parameters"])]. *)
Definition construct_adjoint_simulation (env : Collaborators)
    (senv : SimulationCollaborators) (inversion_params : list string)
    (event : string) (adj_src : list SideSetVectorPoint3DZNE)
    : M AdjointWaveform :=
  p <- get ;;
  mesh <- lift (get_simulation_mesh senv event) ;;
  r <- getitem (forward_job (attrs p)) event ;;
  let forward_job_name := name r in
  job <- sapi_get_job env (site_name (config p)) forward_job_name ;;
  forward_job_path <- lift (job_output_path senv job) ;;
  let meta := path_join forward_job_path "meta.json" in
  let gradient := "gradient.h5" in
  parameterization <-
    (if str_in "VPV" inversion_params then ret "tti"
     else if str_in "VP" inversion_params then ret "rho-vp-vs"
     else raise (UnboundLocalError "parameterization")) ;;
  let w :=
    {| aw_mesh := mesh;
       forward_meta_json_filename := "REMOTE:" +:+ meta;
       parameterization := parameterization;
       output_filename := gradient;
       point_source := adj_src |} in
  lift (validate senv w) ;;;
  ret w.

(** * Vocabulary of the properties *)

(** [preserves R m]: whatever [m] returns or raises, the project it leaves
    is related by [R] to the one it started from. *)
Definition preserves (R : relation Project) {A} (m : M A) : Prop :=
  forall p, R p (m p).2.

(** Relations used as frames. *)
Definition same_on {X} (f : Project -> X) : relation Project :=
  fun p p' => f p' = f p.

(** Nothing at all was changed. *)
Definition read_only : relation Project := fun p p' => p' = p.

(** The text of the warning issued when a record is backed up. *)
Definition backup_warning (iteration : string) : string :=
  "Iteration toml for iteration: " +:+ iteration
  +:+ " already exists. backed it up".

(** The project after the backup step. *)
Definition backed_up (iteration : string) (p : Project) : Project :=
  match iteration_tomls (disk p) !! iteration_toml_path iteration with
  | Some d =>
      with_disk (with_warnings p (warnings p ++ [backup_warning iteration]))
        {| iteration_tomls :=
             <[backup_path iteration := d]> (iteration_tomls (disk p));
           control_group_toml := control_group_toml (disk p) |}
  | None => p
  end.

(** The project a method leaves, and what it returned. *)
Definition state_after {A} (m : M A) (p : Project) : Project := (m p).2.
Definition outcome {A} (m : M A) (p : Project) : result A := (m p).1.

(** The job record of a job that was never submitted. *)
Definition empty_job (interp : option bool) : JobRecord :=
  {| name := EmptyString; submitted := false; retrieved := false;
     reposts := 0; interpolated := interp; windows_selected := None |}.

(** [iteration] names the iteration held in memory. *)
Definition is_current (p : Project) (iteration : string) : bool :=
  String.eqb iteration "current"
  || String.eqb iteration (current_iteration (attrs p)).

(** The job record that is stored for an event and a simulation type: in
    memory for the current iteration (where it has to be submitted), in the
    iteration file otherwise. *)
Inductive stored_job (p : Project) (event sim_type iteration : string)
    : JobRecord -> Prop :=
| stored_current_forward r :
    is_current p iteration = true -> sim_type = "forward" ->
    forward_job (attrs p) !! event = Some r -> submitted r = true ->
    stored_job p event sim_type iteration r
| stored_current_adjoint r :
    is_current p iteration = true -> sim_type = "adjoint" ->
    adjoint_job (attrs p) !! event = Some r -> submitted r = true ->
    stored_job p event sim_type iteration r
| stored_current_smoothing_mono r :
    is_current p iteration = true -> sim_type = "smoothing" ->
    inversion_mode (config p) = MonoBatch ->
    smoothing_job (attrs p) = SmoothSingle r -> submitted r = true ->
    stored_job p event sim_type iteration r
| stored_current_smoothing_mini m r :
    is_current p iteration = true -> sim_type = "smoothing" ->
    inversion_mode (config p) = MiniBatch ->
    smoothing_job (attrs p) = SmoothPerEvent m -> m !! event = Some r ->
    submitted r = true ->
    stored_job p event sim_type iteration r
| stored_old_smoothing_mono d r :
    is_current p iteration = false -> sim_type = "smoothing" ->
    inversion_mode (config p) = MonoBatch ->
    iteration_tomls (disk p) !! iteration_toml_path iteration = Some d ->
    it_smoothing d = Some r ->
    stored_job p event sim_type iteration r
| stored_old_event d e r :
    is_current p iteration = false ->
    sim_type <> "smoothing" \/ inversion_mode (config p) = MiniBatch ->
    iteration_tomls (disk p) !! iteration_toml_path iteration = Some d ->
    pd_get (it_events d) event = Some e ->
    job_info e !! sim_type = Some r ->
    stored_job p event sim_type iteration r.

(** The handle under which Salvus-Flow knows a stored job, and the call
    that fetches it. *)
Definition handle_of (p : Project) (sim_type : string) (r : JobRecord)
    : JobHandle :=
  if String.eqb sim_type "smoothing" then
    {| h_site := smoothing_site_name (config p); h_name := name r;
       h_array := true |}
  else
    {| h_site := site_name (config p); h_name := name r; h_array := false |}.

Definition lookup_call (h : JobHandle) : Call :=
  if h_array h then GetJobArray (h_site h) (h_name h)
  else GetJob (h_site h) (h_name h).

(** Only the files may differ. *)
Definition only_files : relation Project := fun p p' =>
  config p' = config p /\ attrs p' = attrs p /\ calls p' = calls p /\
  warnings p' = warnings p.

(** Calls were added, none of them a status query. *)
Definition is_status_query (c : Call) : bool :=
  match c with UpdateStatus _ _ => true | _ => false end.

Definition no_status_query : relation Project := fun p p' =>
  exists issued,
    calls p' = calls p ++ issued /\
    forallb (fun c => negb (is_status_query c)) issued = true.

(** The job dict of a simulation type. *)
Definition jobs_of (sim_type : string) (p : Project) : gmap string JobRecord :=
  if String.eqb sim_type "adjoint" then adjoint_job (attrs p)
  else forward_job (attrs p).

(** The same collaborators, with another answer to status queries. *)
Definition with_status (env : Collaborators)
    (answer : list Call -> JobHandle -> bool -> result Status)
    : Collaborators :=
  {| list_events := list_events env;
     find_seismograms := find_seismograms env;
     find_gradient := find_gradient env;
     get_previous_iteration_name := get_previous_iteration_name env;
     get_newest_iteration_name := get_newest_iteration_name env;
     bk_run_async := bk_run_async env;
     bk_get_job := bk_get_job env;
     bk_get_job_array := bk_get_job_array env;
     bk_update_status := answer;
     bk_copy_output := bk_copy_output env;
     bk_delete := bk_delete env;
     bk_get_output_files := bk_get_output_files env;
     py_literal := py_literal env |}.

(** Where the outputs of a simulation are copied to. *)
Definition destination_of (env : Collaborators) (p : Project)
    (event sim_type : string) : result string :=
  if String.eqb sim_type "forward" then
    find_seismograms env event (current_iteration (attrs p))
  else find_gradient env (current_iteration (attrs p)) event.

(** The wall time that [submit_job] asks for. *)
Definition submit_wall_time (p : Project) (sim_type : string) : Z :=
  if String.eqb sim_type "adjoint" then (wall_time (config p) * 2)%Z
  else wall_time (config p).

(** The record after [name] and [submitted] have been assigned. *)
Definition recorded (r : JobRecord) (job_name : string) : JobRecord :=
  set_submitted (set_name r job_name) true.

(** The value and the attribute that Python reads from the text of the
    statement that [change_attribute] builds. *)
Definition read_value (env : Collaborators) (v : NewValue)
    : result NewValue :=
  match v with
  | NameIs s =>
      match python_literal env s with
      | Ok s' => Ok (NameIs s')
      | Raise e => Raise e
      end
  | SubmittedIs b => Ok (SubmittedIs b)
  end.

Definition read_attribute (env : Collaborators) (a : Attribute)
    : result Attribute :=
  match a with
  | AttrForwardJob event =>
      match python_literal env event with
      | Ok key => Ok (AttrForwardJob key)
      | Raise e => Raise e
      end
  | AttrAdjointJob event =>
      match python_literal env event with
      | Ok key => Ok (AttrAdjointJob key)
      | Raise e => Raise e
      end
  | AttrSmoothingJob event par =>
      match python_literal env event with
      | Ok key =>
          match python_literal env par with
          | Ok par' => Ok (AttrSmoothingJob key par')
          | Raise e => Raise e
          end
      | Raise e => Raise e
      end
  end.

(** The job dict after the record of [key], if there is one, was given
    the name [v] and marked submitted. *)
Definition submitted_as (jobs : gmap string JobRecord) (key v : string)
    : gmap string JobRecord :=
  match jobs !! key with
  | Some r => <[key := recorded r v]> jobs
  | None => jobs
  end.

(** A record keeps what it had: once submitted it stays submitted, once
    named it stays named. *)
Definition kept (r r' : JobRecord) : Prop :=
  (submitted r = true -> submitted r' = true) /\
  (name r <> EmptyString -> name r' <> EmptyString).

Definition jobs_kept (m m' : gmap string JobRecord) : Prop :=
  forall event r, m !! event = Some r ->
    exists r', m' !! event = Some r' /\ kept r r'.

Definition records_kept : relation Project := fun p p' =>
  jobs_kept (forward_job (attrs p)) (forward_job (attrs p')) /\
  jobs_kept (adjoint_job (attrs p)) (adjoint_job (attrs p')).






(** A record has a name exactly when it is marked submitted. *)
Definition consistent (r : JobRecord) : Prop :=
  name r <> EmptyString <-> submitted r = true.

Definition jobs_consistent (m : gmap string JobRecord) : Prop :=
  forall event r, m !! event = Some r -> consistent r.

Definition all_consistent (p : Project) : Prop :=
  jobs_consistent (forward_job (attrs p)) /\
  jobs_consistent (adjoint_job (attrs p)) /\
  match smoothing_job (attrs p) with
  | SmoothPerEvent m => jobs_consistent m
  | SmoothSingle r => consistent r
  end.

Definition consistency_kept : relation Project := fun p p' =>
  all_consistent p -> all_consistent p'.


(** The two assignments of [submit_job]. *)
Definition record_submission (env : Collaborators)
    (event sim_type job_name : string) : M unit :=
  if String.eqb sim_type "forward" then
    change_attribute env (AttrForwardJob event) (NameIs job_name) ;;;
    change_attribute env (AttrForwardJob event) (SubmittedIs true)
  else if String.eqb sim_type "adjoint" then
    change_attribute env (AttrAdjointJob event) (NameIs job_name) ;;;
    change_attribute env (AttrAdjointJob event) (SubmittedIs true)
  else ret tt.

(** The project with another job dict for a simulation type. *)
Definition with_jobs (sim_type : string) (p : Project)
    (m : gmap string JobRecord) : Project :=
  with_attrs p
    (if String.eqb sim_type "adjoint" then with_adjoint_job (attrs p) m
     else with_forward_job (attrs p) m).




(** The calls that one round of the deletion loop makes for an event when
    nothing fails. *)
Definition delete_calls (site : string) (iter_info : ItDict)
    (sim_type event : string) : list Call :=
  match pd_get (it_events iter_info) event with
  | Some e =>
      match job_info e !! sim_type with
      | Some r =>
          [GetJob site (name r);
           DeleteJob {| h_site := site; h_name := name r; h_array := false |}]
      | None => []
      end
  | None => []
  end.

(** One round of the deletion loop as the answers of Salvus-Flow decide
    it, from the log [log]: [None] when the job of [event] is fetched and
    deleted, or else the exception that ends the round and the calls made
    up to it. *)
Definition delete_round (env : Collaborators) (site : string)
    (iter_info : ItDict) (sim_type : string) (log : list Call)
    (event : string) : option (exn * list Call) :=
  match pd_get (it_events iter_info) event with
  | None => Some (KeyError event, [])
  | Some e =>
      match job_info e !! sim_type with
      | None => Some (KeyError sim_type, [])
      | Some r =>
          let h := {| h_site := site; h_name := name r; h_array := false |} in
          match bk_get_job env log site (name r) with
          | Raise err => Some (err, [GetJob site (name r)])
          | Ok _ =>
              match bk_delete env (log ++ [GetJob site (name r)]) h with
              | Raise err => Some (err, [GetJob site (name r); DeleteJob h])
              | Ok _ => None
              end
          end
      end
  end.

(** [atomic m]: when [m] raises, the project is as it was. *)
Definition atomic {A} (m : M A) : Prop :=
  forall p e p', m p = (Raise e, p') -> p' = p.

(** The same collaborators, with another previous iteration. *)
Definition with_previous (env : Collaborators) (previous : result string)
    : Collaborators :=
  {| list_events := list_events env;
     find_seismograms := find_seismograms env;
     find_gradient := find_gradient env;
     get_previous_iteration_name := previous;
     get_newest_iteration_name := get_newest_iteration_name env;
     bk_run_async := bk_run_async env;
     bk_get_job := bk_get_job env;
     bk_get_job_array := bk_get_job_array env;
     bk_update_status := bk_update_status env;
     bk_copy_output := bk_copy_output env;
     bk_delete := bk_delete env;
     bk_get_output_files := bk_get_output_files env;
     py_literal := py_literal env |}.

(** The ledger entry from which a save takes the control groups: the
    entry of the iteration, or empty groups when there is no ledger file. *)
Definition ledger_entry (p : Project) (iteration : string)
    : option (gmap string (list string)) :=
  match control_group_toml (disk p) with
  | Some cg => cg !! iteration
  | None => Some {[ "old" := []; "new" := [] ]}
  end.

(** The entry that a save writes for an event. *)
Definition saved_as (p : Project) (validation : bool) (event : string)
    (entry : EventEntry) : Prop :=
  exists f,
    forward_job (attrs p) !! event = Some f /\
    if validation then
      entry = {| job_info := {[ "forward" := f ]}; misfit := None;
                 usage_updated := None |}
    else
      exists a m u,
        adjoint_job (attrs p) !! event = Some a /\
        misfits (attrs p) !! event = Some m /\
        updated (attrs p) !! event = Some u /\
        match inversion_mode (config p) with
        | MiniBatch =>
            exists per_event s,
              smoothing_job (attrs p) = SmoothPerEvent per_event /\
              per_event !! event = Some s /\
              entry = {| job_info := {[ "forward" := f; "adjoint" := a;
                                        "smoothing" := s ]};
                         misfit := Some m; usage_updated := Some u |}
        | MonoBatch =>
            entry = {| job_info := {[ "forward" := f; "adjoint" := a ]};
                       misfit := Some m; usage_updated := Some u |}
        end.

(** The body of the event loop of [get_iteration_attributes] for a
    non-validation iteration. *)
Definition load_event (it_dict : ItDict) (event : string) : M unit :=
  e <- pd_getitem (it_events it_dict) event ;;
  (u <- getkey (usage_updated e) "usage_updated" ;;
   modify_attrs (fun a => with_updated a (<[event := u]> (updated a))) ;;;
   m <- getkey (misfit e) "misfit" ;;
   modify_attrs (fun a => with_misfits a (<[event := m]> (misfits a))) ;;;
   aj <- getitem (job_info e) "adjoint" ;;
   modify_attrs (fun a =>
     with_adjoint_job a (<[event := aj]> (adjoint_job a))) ;;;
   p <- get ;;
   match inversion_mode (config p) with
   | MiniBatch =>
       sj <- getitem (job_info e) "smoothing" ;;
       modify_attrs (fun a =>
         with_smoothing_job a (smoothing_insert (smoothing_job a) event sj))
   | MonoBatch => ret tt
   end) ;;;
  fj <- getitem (job_info e) "forward" ;;
  modify_attrs (fun a =>
    with_forward_job a (<[event := fj]> (forward_job a))).

(** An event entry that has every key the load reads. *)
Definition complete_entry (mode : InversionMode) (x : EventEntry) : Prop :=
  is_Some (usage_updated x) /\ is_Some (misfit x) /\
  is_Some (job_info x !! "adjoint") /\ is_Some (job_info x !! "forward") /\
  (mode = MiniBatch -> is_Some (job_info x !! "smoothing")).

(** The job dicts, misfits and flags of [a'] are those of [a] with the
    entries of the events [ks] replaced by what the record holds. *)
Definition loaded_from (d : ItDict) (mode : InversionMode) (ks : list string)
    (a a' : Attrs) : Prop :=
  current_iteration a' = current_iteration a /\
  events_in_iteration a' = events_in_iteration a /\
  old_control_group a' = old_control_group a /\
  new_control_group a' = new_control_group a /\
  (forall e, forward_job a' !! e =
     if decide (e ∈ ks)
     then pd_get (it_events d) e ≫= (fun x => job_info x !! "forward")
     else forward_job a !! e) /\
  (forall e, adjoint_job a' !! e =
     if decide (e ∈ ks)
     then pd_get (it_events d) e ≫= (fun x => job_info x !! "adjoint")
     else adjoint_job a !! e) /\
  (forall e, misfits a' !! e =
     if decide (e ∈ ks) then pd_get (it_events d) e ≫= misfit
     else misfits a !! e) /\
  (forall e, updated a' !! e =
     if decide (e ∈ ks) then pd_get (it_events d) e ≫= usage_updated
     else updated a !! e) /\
  match mode with
  | MiniBatch =>
      forall m, smoothing_job a = SmoothPerEvent m ->
        exists m',
          smoothing_job a' = SmoothPerEvent m' /\
          forall e, m' !! e =
            if decide (e ∈ ks)
            then pd_get (it_events d) e ≫= (fun x => job_info x !! "smoothing")
            else m !! e
  | MonoBatch => smoothing_job a' = smoothing_job a
  end.

(** The job record that memory holds for an event and a simulation type of
    the current iteration. *)
Definition current_record (p : Project) (event sim_type : string)
    : option JobRecord :=
  if String.eqb sim_type "forward" then forward_job (attrs p) !! event
  else if String.eqb sim_type "adjoint" then adjoint_job (attrs p) !! event
  else if String.eqb sim_type "smoothing" then
    match inversion_mode (config p), smoothing_job (attrs p) with
    | MonoBatch, SmoothSingle r => Some r
    | MiniBatch, SmoothPerEvent m => m !! event
    | _, _ => None
    end
  else None.

(** Everything but the log of the calls to Salvus-Flow. *)
Definition local_state (p : Project)
    : Config * Attrs * Disk * list string :=
  (config p, attrs p, disk p, warnings p).

(** What decides whether a save of the current iteration can go through. *)
Definition save_key (p : Project) : InversionMode * string :=
  (inversion_mode (config p), current_iteration (attrs p)).

(** The body of the event loop of [get_iteration_attributes] for a
    validation iteration. *)
Definition load_forward (it_dict : ItDict) (event : string) : M unit :=
  e <- pd_getitem (it_events it_dict) event ;;
  ret tt ;;;
  fj <- getitem (job_info e) "forward" ;;
  modify_attrs (fun a =>
    with_forward_job a (<[event := fj]> (forward_job a))).

(** * Example projects *)

(** Two events, a backend that accepts every call, names its first job
    [job-abc] and the later ones [job-def], and reports every job as still
    running; the ledger holds the control group [E1] committed by
    [it0000_model]. *)
Definition demo_env : Collaborators :=
  {| list_events := fun _ => Ok ["E1"; "E2"];
     find_seismograms := fun event iteration =>
       Ok ("/lasif/SYNTHETICS/" +:+ iteration +:+ "/" +:+ event
           +:+ "/receivers.h5");
     find_gradient := fun iteration event =>
       Ok ("/lasif/GRADIENTS/" +:+ iteration +:+ "/" +:+ event
           +:+ "/gradient.h5");
     get_previous_iteration_name := Ok "it0000_model";
     get_newest_iteration_name := Ok "it0001_model";
     bk_run_async := fun log _ _ _ _ =>
       Ok (match log with [] => "job-abc" | _ => "job-def" end);
     bk_get_job := fun _ _ _ => Ok tt;
     bk_get_job_array := fun _ _ _ => Ok tt;
     bk_update_status := fun _ _ _ => Ok RUNNING;
     bk_copy_output := fun _ _ _ _ => Ok tt;
     bk_delete := fun _ _ => Ok tt;
     bk_get_output_files := fun _ _ => Ok [];
     py_literal := fun _ => Raise (SyntaxError "invalid syntax") |}.

Definition demo_config (mode : InversionMode) (mesh : Meshes) : Config :=
  {| inversion_id := "INV"; inversion_mode := mode; meshes := mesh;
     site_name := "daint"; wall_time := 3600;
     smoothing_site_name := "daint_smooth"; smoothing_ranks := 12;
     smoothing_wall_time := 600 |}.

Definition demo_attrs : Attrs :=
  {| current_iteration := "it0001_model"; events_in_iteration := [];
     old_control_group := []; new_control_group := [];
     forward_job := ∅; adjoint_job := ∅; smoothing_job := SmoothPerEvent ∅;
     misfits := ∅; updated := ∅ |}.

Definition demo_ledger : CgDict :=
  {[ "it0000_model" := {[ "old" := []; "new" := ["E1"] ]} ]}.

Definition demo_project (mode : InversionMode) (mesh : Meshes) : Project :=
  {| config := demo_config mode mesh; attrs := demo_attrs;
     disk := {| iteration_tomls := ∅; control_group_toml := Some demo_ledger |};
     warnings := []; calls := [] |}.

(** A ledger in which [it0001_model] had already committed a ["new"] group. *)
Definition committed_project : Project :=
  with_disk (demo_project MiniBatch MonoMesh)
    {| iteration_tomls := ∅;
       control_group_toml :=
         Some (<["it0001_model" := {[ "old" := ["E1"]; "new" := ["E2"] ]}]>
                 demo_ledger) |}.

(** The record of [it0001_model] exists already, with a control group that
    only this copy knows. *)
Definition old_record : ItDict :=
  {| it_name := "it0001_model"; it_events := [];
     it_last_control_group := Some ["E2"];
     it_new_control_group := Some ["E1"; "E2"];
     it_smoothing := None |}.

(** The project in which that record is on file. *)
Definition recreated_project : Project :=
  with_disk (demo_project MiniBatch MonoMesh)
    {| iteration_tomls := {[ "it0001_model.toml" := old_record ]};
       control_group_toml := Some demo_ledger |}.

(** A mono-batch project whose smoothing job has been submitted since the
    record of [it0001_model] was created. *)
Definition mono_project : Project :=
  let p := demo_project MonoBatch MonoMesh in
  let p := state_after (create_iteration_toml demo_env "it0001_model") p in
  let p := state_after (update_control_group_toml demo_env false false) p in
  let p := state_after (get_iteration_attributes demo_env false) p in
  with_attrs p
    (with_smoothing_job (attrs p)
       (SmoothSingle (set_submitted (set_name (empty_job None) "smooth-1")
                        true))).

(** The record of [it0001_model] created, the ledger started and the
    attributes loaded. *)
Definition loaded_project : Project :=
  let p := demo_project MiniBatch MonoMesh in
  let p := state_after (create_iteration_toml demo_env "it0001_model") p in
  let p := state_after (update_control_group_toml demo_env false false) p in
  state_after (get_iteration_attributes demo_env false) p.

(** Then the forward job of [E1] submitted, and the simulation of a second
    submission of it. *)
Definition submitted_project : Project :=
  state_after
    (submit_job demo_env "E1" (Simulation "forward E1") "forward" "daint"
       3600 1024)
    loaded_project.

Definition second_simulation : simulation := Simulation "forward E1, again".


(** The record of a past iteration whose forward jobs [job-1] and [job-2]
    are stored at the site. *)
Definition past_record : ItDict :=
  {| it_name := "it0000_model";
     it_events :=
       [("E1", {| job_info :=
                    {[ "forward" := recorded (empty_job None) "job-1" ]};
                  misfit := Some 0%Q; usage_updated := Some true |});
        ("E2", {| job_info :=
                    {[ "forward" := recorded (empty_job None) "job-2" ]};
                  misfit := Some 0%Q; usage_updated := Some true |})];
     it_last_control_group := Some [];
     it_new_control_group := Some ["E1"];
     it_smoothing := None |}.

(** The project in which that record is on file. *)
Definition past_project : Project :=
  with_disk (demo_project MiniBatch MonoMesh)
    {| iteration_tomls := {[ "it0000_model.toml" := past_record ]};
       control_group_toml := Some demo_ledger |}.

(** Salvus-Flow refuses to delete [job-1]; everything else goes through. *)
Definition refusing_env : Collaborators :=
  {| list_events := list_events demo_env;
     find_seismograms := find_seismograms demo_env;
     find_gradient := find_gradient demo_env;
     get_previous_iteration_name := get_previous_iteration_name demo_env;
     get_newest_iteration_name := get_newest_iteration_name demo_env;
     bk_run_async := bk_run_async demo_env;
     bk_get_job := bk_get_job demo_env;
     bk_get_job_array := bk_get_job_array demo_env;
     bk_update_status := bk_update_status demo_env;
     bk_copy_output := bk_copy_output demo_env;
     bk_delete := fun _ h =>
       if String.eqb (h_name h) "job-1"
       then Raise (ExternalError "job-1 cannot be deleted") else Ok tt;
     bk_get_output_files := bk_get_output_files demo_env;
     py_literal := py_literal demo_env |}.

(** Three receivers of [E1], two of which have an adjoint source in the
    file; every simulation object is valid. *)
Definition demo_receivers : list Receiver :=
  [ {| network_code := "CH"; station_code := "ZUR";
       rec_latitude := (4738 # 100)%Q; rec_longitude := (855 # 100)%Q |};
    {| network_code := "CH"; station_code := "DAVOX";
       rec_latitude := (4678 # 100)%Q; rec_longitude := (988 # 100)%Q |};
    {| network_code := "IU"; station_code := "ANMO";
       rec_latitude := (3495 # 100)%Q; rec_longitude := (-10646 # 100)%Q |} ].

Definition demo_senv : SimulationCollaborators :=
  {| get_receivers := fun _ => Ok demo_receivers;
     get_adjoint_source_file := fun event iteration =>
       Ok ("/lasif/ADJOINT_SOURCES/" +:+ iteration +:+ "/" +:+ event
           +:+ "/stf.h5");
     h5_keys := fun _ => Ok ["CH_ZUR"; "IU_ANMO"];
     get_simulation_mesh := fun event => Ok ("/lasif/MESHES/" +:+ event);
     job_output_path := fun h => Ok ("/scratch/run/" +:+ h_name h +:+ "/output");
     validate := fun _ => Ok tt |}.

(** The sources that are built from them in [it0001_model]. *)
Definition demo_sources : list SideSetVectorPoint3DZNE :=
  [ {| src_latitude := (4738 # 100)%Q; src_longitude := (855 # 100)%Q;
       fz := 1%Q; fn := 1%Q; fe := 1%Q; src_side_set_name := "r1";
       source_time_function :=
         {| stf_filename := "/lasif/ADJOINT_SOURCES/it0001_model/E1/stf.h5";
            stf_dataset_name := "/CH_ZUR" |} |};
    {| src_latitude := (3495 # 100)%Q; src_longitude := (-10646 # 100)%Q;
       fz := 1%Q; fn := 1%Q; fe := 1%Q; src_side_set_name := "r1";
       source_time_function :=
         {| stf_filename := "/lasif/ADJOINT_SOURCES/it0001_model/E1/stf.h5";
            stf_dataset_name := "/IU_ANMO" |} |} ].

(** A project that has no ledger file. *)
Definition unledgered_project : Project :=
  with_disk (demo_project MiniBatch MonoMesh)
    {| iteration_tomls := ∅; control_group_toml := None |}.

(** The group [E2] is about to be committed for [it0001_model], which has
    no entry in the ledger. *)
Definition committing_project : Project :=
  let p := demo_project MiniBatch MonoMesh in
  with_attrs p (with_new_control_group (attrs p) ["E2"]).

(** The ledger is created in [it0000_model]; [E1] is committed; the
    project moves on to [it0001_model]. *)
Definition ledger_start_project : Project :=
  let p := unledgered_project in
  with_attrs p (with_iteration (attrs p) "it0000_model" []).

Definition ledger_commit_project : Project :=
  let p :=
    state_after (update_control_group_toml demo_env false true)
      ledger_start_project in
  with_attrs p (with_new_control_group (attrs p) ["E1"]).

Definition ledger_next_project : Project :=
  let p :=
    state_after (update_control_group_toml demo_env true false)
      ledger_commit_project in
  with_attrs p (with_iteration (attrs p) "it0001_model" []).

(** A mono-batch project in the validation pass of [it0001_model]. *)
Definition validation_project : Project :=
  let p := demo_project MonoBatch MonoMesh in
  let p :=
    state_after (create_iteration_toml demo_env "validation_it0001_model") p in
  state_after (get_iteration_attributes demo_env true) p.

(** The record of [it0001_model] was created and loaded, but the ledger
    was not started for it. *)
Definition unstarted_project : Project :=
  let p := demo_project MiniBatch MonoMesh in
  let p := state_after (create_iteration_toml demo_env "it0001_model") p in
  state_after (get_iteration_attributes demo_env false) p.

(** The record of the validation pass of [it0001_model] created while the
    forward job of [E1] is submitted. *)
Definition validation_record_project : Project :=
  state_after (create_iteration_toml demo_env "validation_it0001_model")
    submitted_project.

(** * Properties *)

(** ** Reasoning about the monad *)

Lemma bind_ok {A B} (m : M A) (f : A -> M B) p b p' :
  bind m f p = (Ok b, p') ->
  exists a p1, m p = (Ok a, p1) /\ f a p1 = (Ok b, p').
Proof.
  unfold bind. destruct (m p) as [[a|e] p1]; [eauto | discriminate].
Qed.

Lemma bind_run_ok {A B} (m : M A) (f : A -> M B) p a p1 :
  m p = (Ok a, p1) -> bind m f p = f a p1.
Proof. unfold bind. by intros ->. Qed.

Lemma bind_run_raise {A B} (m : M A) (f : A -> M B) p e p1 :
  m p = (Raise e, p1) -> bind m f p = (Raise e, p1).
Proof. unfold bind. by intros ->. Qed.

Lemma getitem_ok {V} (d : gmap string V) k p v p' :
  getitem d k p = (Ok v, p') -> d !! k = Some v /\ p' = p.
Proof.
  unfold getitem. destruct (d !! k); cbn; intros [= <- <-] || intros [=]; done.
Qed.

Lemma getkey_ok {V} (o : option V) k p v p' :
  getkey o k p = (Ok v, p') -> o = Some v /\ p' = p.
Proof. destruct o; cbn; intros [= <- <-] || intros [=]; done. Qed.

Lemma pd_getitem_ok {V} (d : pydict V) k p v p' :
  pd_getitem d k p = (Ok v, p') -> pd_get d k = Some v /\ p' = p.
Proof.
  unfold pd_getitem.
  destruct (pd_get d k); cbn; intros [= <- <-] || intros [=]; done.
Qed.

Lemma lift_ok {A} (r : result A) p a p' :
  lift r p = (Ok a, p') -> r = Ok a /\ p' = p.
Proof. unfold lift. by intros [= -> ->]. Qed.

Lemma load_control_group_toml_ok p cg p' :
  load_control_group_toml p = (Ok cg, p') ->
  control_group_toml (disk p) = Some cg /\ p' = p.
Proof.
  unfold load_control_group_toml, bind, get.
  destruct (control_group_toml (disk p)); cbn;
    intros [= <- <-] || intros [=]; done.
Qed.

(** Inversion of a successful run, one monadic step at a time. *)
Ltac monad_inv :=
  repeat match goal with
  | H : bind _ _ _ = (Ok _, _) |- _ =>
      apply bind_ok in H; destruct H as (? & ? & ? & H)
  | H : ret _ _ = (Ok _, _) |- _ => injection H as <- <-
  | H : get _ = (Ok _, _) |- _ => injection H as <- <-
  | H : raise _ _ = (Ok _, _) |- _ => discriminate H
  | H : getitem _ _ _ = (Ok _, _) |- _ =>
      apply getitem_ok in H; destruct H as [H ->]
  | H : getkey _ _ _ = (Ok _, _) |- _ =>
      apply getkey_ok in H; destruct H as [H ->]
  | H : pd_getitem _ _ _ = (Ok _, _) |- _ =>
      apply pd_getitem_ok in H; destruct H as [H ->]
  | H : lift _ _ = (Ok _, _) |- _ =>
      apply lift_ok in H; destruct H as [H ->]
  | H : load_control_group_toml _ = (Ok _, _) |- _ =>
      apply load_control_group_toml_ok in H; destruct H as [H ->]
  end.

(** Running a method forward: unfold the monad, then rewrite with what is
    known about the state. *)
Ltac mrun :=
  cbv beta iota zeta delta
    [bind get put ret raise lift getitem getkey pd_getitem modify_attrs
     load_control_group_toml dump_control_group_toml control_group_exists
     path_exists warn read_iteration_toml write_iteration_toml copyfile
     backend_call has_key negb andb orb fst snd bool_in_keys].

(** ** Frame rules *)

Section Frame.
Context (R : relation Project) `{!PreOrder R}.

Lemma preserves_ret {A} (a : A) : preserves R (ret a).
Proof. intros p. reflexivity. Qed.

Lemma preserves_raise {A} e : preserves R (@raise A e).
Proof. intros p. reflexivity. Qed.

Lemma preserves_get : preserves R get.
Proof. intros p. reflexivity. Qed.

Lemma preserves_lift {A} (r : result A) : preserves R (lift r).
Proof. intros p. reflexivity. Qed.

Lemma preserves_getitem {V} (d : gmap string V) k : preserves R (getitem d k).
Proof. intros p. unfold getitem. destruct (d !! k); reflexivity. Qed.

Lemma preserves_getkey {V} (o : option V) k : preserves R (getkey o k).
Proof. intros p. destruct o; reflexivity. Qed.

Lemma preserves_pd_getitem {V} (d : pydict V) k : preserves R (pd_getitem d k).
Proof. intros p. unfold pd_getitem. destruct (pd_get d k); reflexivity. Qed.

Lemma preserves_bind {A B} (m : M A) (f : A -> M B) :
  preserves R m -> (forall a, preserves R (f a)) -> preserves R (bind m f).
Proof.
  intros Hm Hf p. unfold bind. specialize (Hm p).
  destruct (m p) as [[a|e] p1]; cbn in *; [|done].
  etransitivity; [exact Hm | apply Hf].
Qed.

Lemma preserves_for_each {A} (l : list A) (body : A -> M unit) :
  (forall x, preserves R (body x)) -> preserves R (for_each l body).
Proof.
  intros Hb. induction l as [|x l IH]; cbn [for_each].
  - apply preserves_ret.
  - apply preserves_bind; auto.
Qed.

Lemma preserves_fold_m {A S} (l : list A) (body : S -> A -> M S) acc :
  (forall s x, preserves R (body s x)) -> preserves R (fold_m l body acc).
Proof.
  intros Hb. revert acc. induction l as [|x l IH]; intros acc; cbn [fold_m].
  - apply preserves_ret.
  - apply preserves_bind; auto.
Qed.

Lemma preserves_path_exists f : preserves R (path_exists f).
Proof. intros p. reflexivity. Qed.

Lemma preserves_control_group_exists : preserves R control_group_exists.
Proof. intros p. reflexivity. Qed.

Lemma preserves_load_control_group_toml : preserves R load_control_group_toml.
Proof.
  intros p. unfold load_control_group_toml, bind, get.
  destruct (control_group_toml (disk p)); reflexivity.
Qed.

Lemma preserves_read_iteration_toml f : preserves R (read_iteration_toml f).
Proof.
  intros p. unfold read_iteration_toml, bind, get.
  destruct (iteration_tomls (disk p) !! f); reflexivity.
Qed.
End Frame.

(** The steps that read but never write are framed by any preorder. *)
Ltac frame_step :=
  lazymatch goal with
  | |- preserves _ (ret _) => apply preserves_ret
  | |- preserves _ (raise _) => apply preserves_raise
  | |- preserves _ get => apply preserves_get
  | |- preserves _ (lift _) => apply preserves_lift
  | |- preserves _ (getitem _ _) => apply preserves_getitem
  | |- preserves _ (getkey _ _) => apply preserves_getkey
  | |- preserves _ (pd_getitem _ _) => apply preserves_pd_getitem
  | |- preserves _ (path_exists _) => apply preserves_path_exists
  | |- preserves _ control_group_exists =>
      apply preserves_control_group_exists
  | |- preserves _ load_control_group_toml =>
      apply preserves_load_control_group_toml
  | |- preserves _ (read_iteration_toml _) =>
      apply preserves_read_iteration_toml
  | |- preserves _ (for_each _ _) => apply preserves_for_each; [|intros]
  | |- preserves _ (fold_m _ _ _) => apply preserves_fold_m; [|intros]
  | |- preserves _ (bind _ _) => apply preserves_bind; [| |intros]
  | |- preserves _ (if ?b then _ else _) => destruct b
  | |- preserves _ (match ?x with _ => _ end) => destruct x
  end;
  try exact _.

(** [frame by tac]: decompose the method, closing calls of other methods
    with [tac]. *)
Tactic Notation "frame" "by" tactic3(tac) :=
  repeat first [ progress tac | frame_step ].
Tactic Notation "frame" := repeat frame_step.

Lemma preserves_get_old_iteration_info R `{!PreOrder R} iteration :
  preserves R (get_old_iteration_info iteration).
Proof. unfold get_old_iteration_info. frame. Qed.

Lemma preserves_chained_control_group R `{!PreOrder R} env iteration v :
  preserves R (chained_control_group env iteration v).
Proof. unfold chained_control_group. frame. Qed.

Lemma preserves_smoothing_job_of_event R `{!PreOrder R} p event :
  preserves R (smoothing_job_of_event p event).
Proof. unfold smoothing_job_of_event. frame. Qed.

Lemma preserves_smoothing_job_single R `{!PreOrder R} p keys :
  preserves R (smoothing_job_single p keys).
Proof. unfold smoothing_job_single. frame. Qed.

Lemma preserves_saved_event_entry R `{!PreOrder R} p v d event :
  preserves R (saved_event_entry p v d event).
Proof.
  unfold saved_event_entry.
  frame by (apply preserves_smoothing_job_of_event; [exact _]).
Qed.

#[local] Instance same_on_preorder {X} (f : Project -> X) : PreOrder (same_on f).
Proof.
  split; [intros p; reflexivity|].
  intros p1 p2 p3 H12 H23. unfold same_on in *. congruence.
Qed.

#[local] Instance read_only_preorder : PreOrder read_only.
Proof. split; [intros p; reflexivity|]. intros p1 p2 p3 -> ->. reflexivity. Qed.

(** Frames that do not look at the files, the call log or the warnings. *)
Lemma preserves_write_iteration_toml R `{!PreOrder R} f d :
  (forall p dk, R p (with_disk p dk)) ->
  preserves R (write_iteration_toml f d).
Proof. intros HR p. apply HR. Qed.

Lemma preserves_backend_call R `{!PreOrder R} {A} c (reply : _ -> result A) :
  (forall p, R p (with_calls p (calls p ++ [c]))) ->
  preserves R (backend_call c reply).
Proof. intros HR p. apply HR. Qed.

Lemma preserves_update_iteration_toml R `{!PreOrder R} env iteration v :
  (forall p dk, R p (with_disk p dk)) ->
  preserves R (update_iteration_toml env iteration v).
Proof.
  intros HR. unfold update_iteration_toml.
  frame by first [ apply preserves_saved_event_entry; [exact _]
                 | apply preserves_write_iteration_toml; [exact _ | exact HR] ].
Qed.

(** ** Ordered dicts *)

Lemma pd_get_set_eq {V} (d : pydict V) k v : pd_get (pd_set d k v) k = Some v.
Proof.
  induction d as [|[k' v'] d IH]; cbn.
  - by rewrite String.eqb_refl.
  - destruct (String.eqb k' k) eqn:E; cbn; rewrite E; done.
Qed.

Lemma pd_get_set_ne {V} (d : pydict V) k k' v :
  k <> k' -> pd_get (pd_set d k v) k' = pd_get d k'.
Proof.
  intros Hne. induction d as [|[k0 v0] d IH]; cbn.
  - destruct (String.eqb_spec k k'); done.
  - destruct (String.eqb_spec k0 k) as [->|]; cbn.
    + destruct (String.eqb_spec k k'); done.
    + destruct (String.eqb_spec k0 k'); done.
Qed.

Lemma pd_get_fold_set {V} (events : list string) (entry : V) d0 k :
  pd_get (fold_left (fun d e => pd_set d e entry) events d0) k =
  if decide (k ∈ events) then Some entry else pd_get d0 k.
Proof.
  revert d0. induction events as [|e events IH]; intros d0; cbn [fold_left].
  - rewrite decide_False; [done | set_solver].
  - rewrite IH. destruct (decide (k ∈ events)) as [Hin|Hnin].
    + rewrite decide_True; [done | set_solver].
    + destruct (decide (e = k)) as [->|Hne].
      * rewrite pd_get_set_eq. rewrite decide_True; [done | set_solver].
      * rewrite pd_get_set_ne by done.
        rewrite decide_False; [done | by intros [->|?]%elem_of_cons].
Qed.

(** ** Creating an iteration record *)

Lemma backup_existing_run iteration p :
  backup_existing iteration p = (Ok tt, backed_up iteration p).
Proof.
  unfold backup_existing, backed_up, backup_warning. mrun. cbn.
  destruct (iteration_tomls (disk p) !! iteration_toml_path iteration) eqn:E;
    [|done].
  cbn. rewrite E. done.
Qed.

Lemma backed_up_config iteration p : config (backed_up iteration p) = config p.
Proof. unfold backed_up. by destruct (_ !! _). Qed.

Lemma backed_up_control_groups iteration p :
  control_group_toml (disk (backed_up iteration p))
  = control_group_toml (disk p).
Proof. unfold backed_up. by destruct (_ !! _). Qed.

Lemma fresh_it_dict_config p1 p2 iteration v lcg events :
  config p1 = config p2 ->
  fresh_it_dict p1 iteration v lcg events
  = fresh_it_dict p2 iteration v lcg events.
Proof.
  intros H. unfold fresh_it_dict, is_multi_mesh, is_mono_batch. by rewrite H.
Qed.

(** [create_iteration_toml] in one equation: after the backup step the
    method either raises, leaving the files as the backup step left them,
    or writes the fresh record. *)
Lemma create_iteration_toml_run env iteration p :
  let p1 := backed_up iteration p in
  let validation := contains "validation" iteration in
  create_iteration_toml env iteration p =
  match (chained_control_group env iteration validation p1).1 with
  | Raise e => (Raise e, p1)
  | Ok lcg =>
      match list_events env iteration with
      | Raise e => (Raise e, p1)
      | Ok events =>
          (Ok tt,
           with_disk p1
             {| iteration_tomls :=
                  <[iteration_toml_path iteration :=
                      fresh_it_dict p iteration validation lcg events]>
                    (iteration_tomls (disk p1));
                control_group_toml := control_group_toml (disk p1) |})
      end
  end.
Proof.
  intros p1 validation. unfold create_iteration_toml.
  rewrite (bind_run_ok _ _ _ _ _ (backup_existing_run iteration p)).
  fold p1 validation.
  pose proof (preserves_chained_control_group read_only env iteration
                validation p1) as Hro.
  unfold read_only in Hro.
  destruct (chained_control_group env iteration validation p1)
    as [[lcg|e] p2] eqn:Hc; cbn in Hro; subst p2; cbn [fst].
  - rewrite (bind_run_ok _ _ _ _ _ Hc). mrun.
    destruct (list_events env iteration); [|done].
    do 4 f_equal. apply fresh_it_dict_config, backed_up_config.
  - by rewrite (bind_run_raise _ _ _ _ _ Hc).
Qed.

Lemma chained_control_group_ok env iteration validation p lcg p' :
  chained_control_group env iteration validation p = (Ok lcg, p') ->
  if negb (String.eqb iteration "it0000_model") && negb validation then
    exists cg prev grp,
      control_group_toml (disk p) = Some cg /\
      get_previous_iteration_name env = Ok prev /\
      cg !! prev = Some grp /\ grp !! "new" = Some lcg
  else lcg = [].
Proof.
  unfold chained_control_group.
  destruct (negb (String.eqb iteration "it0000_model") && negb validation).
  - intros H. monad_inv. eauto 10.
  - by intros [= <- <-].
Qed.

(** ** The control-group ledger *)

(** What the start-of-iteration call writes, and when it succeeds. *)
Lemma update_control_group_toml_start env p p' :
  update_control_group_toml env false false p = (Ok tt, p') <->
  exists cg prev grp prev_new,
    control_group_toml (disk p) = Some cg /\
    get_previous_iteration_name env = Ok prev /\
    prev <> current_iteration (attrs p) /\
    cg !! prev = Some grp /\
    grp !! "new" = Some prev_new /\
    p' = with_disk p
           {| iteration_tomls := iteration_tomls (disk p);
              control_group_toml :=
                Some (<[current_iteration (attrs p) :=
                          {[ "old" := prev_new; "new" := [] ]}]> cg) |}.
Proof.
  unfold update_control_group_toml. split.
  - intros H. cbn [negb] in H. monad_inv.
    match goal with
    | Hcg : control_group_toml _ = Some ?cg,
      Hprev : get_previous_iteration_name _ = Ok ?prev,
      Hgrp : <[_ := ∅]> _ !! _ = Some ?grp,
      Hnew : _ !! "new" = Some ?prev_new |- _ =>
        exists cg, prev, grp, prev_new;
        destruct (decide (prev = current_iteration (attrs p))) as [->|Hne];
        [ rewrite lookup_insert_eq in Hgrp; injection Hgrp as <-;
          by rewrite lookup_empty in Hnew
        | rewrite lookup_insert_ne in Hgrp by done ]
    end.
    repeat split; try done.
    unfold dump_control_group_toml in H. monad_inv.
    unfold put in H. injection H as <-.
    rewrite insert_insert_eq. reflexivity.
  - intros (cg & prev & grp & prev_new & Hcg & Hprev & Hne & Hgrp & Hnew & ->).
    mrun. rewrite Hcg. mrun. rewrite Hprev. mrun.
    rewrite lookup_insert_ne by done. rewrite Hgrp. mrun. rewrite Hnew. mrun.
    rewrite insert_insert_eq. reflexivity.
Qed.

(** C10.  The start-of-iteration call ([new=False], [first=False]) replaces
    the whole ledger entry of the current iteration: whatever entry the
    iteration had before, and whatever ["new"] group had been committed in
    it, the entry becomes [{"old": <"new" of the previous iteration>,
    "new": []}]; the entries of the other iterations are kept. *)
Theorem start_of_iteration_replaces_ledger_entry env p p' :
  update_control_group_toml env false false p = (Ok tt, p') ->
  exists cg cg' prev grp prev_new,
    control_group_toml (disk p) = Some cg /\
    get_previous_iteration_name env = Ok prev /\
    cg !! prev = Some grp /\ grp !! "new" = Some prev_new /\
    control_group_toml (disk p') = Some cg' /\
    cg' !! current_iteration (attrs p)
      = Some {[ "old" := prev_new; "new" := [] ]} /\
    forall iteration,
      iteration <> current_iteration (attrs p) ->
      cg' !! iteration = cg !! iteration.
Proof.
  intros (cg & prev & grp & prev_new & Hcg & Hprev & Hne & Hgrp & Hnew & ->)
    %update_control_group_toml_start.
  eexists cg, _, prev, grp, prev_new. repeat split; try done.
  - cbn. apply lookup_insert_eq.
  - intros iteration Hit. apply lookup_insert_ne. done.
Qed.

Lemma start_of_iteration_replaces_ledger_entry_witness :
  let p := committed_project in
  let p' := state_after (update_control_group_toml demo_env false false) p in
  update_control_group_toml demo_env false false p = (Ok tt, p') /\
  exists cg cg' prev grp prev_new,
    control_group_toml (disk p) = Some cg /\
    get_previous_iteration_name demo_env = Ok prev /\
    cg !! prev = Some grp /\ grp !! "new" = Some prev_new /\
    control_group_toml (disk p') = Some cg' /\
    cg' !! current_iteration (attrs p)
      = Some {[ "old" := prev_new; "new" := [] ]} /\
    forall iteration,
      iteration <> current_iteration (attrs p) ->
      cg' !! iteration = cg !! iteration.
Proof.
  intros p p'.
  assert (H : update_control_group_toml demo_env false false p = (Ok tt, p'))
    by (vm_compute; reflexivity).
  split; [exact H|].
  exact (start_of_iteration_replaces_ledger_entry demo_env p p' H).
Defined.

Lemma chained_control_group_run env iteration p cg prev grp prev_new :
  iteration <> "it0000_model" ->
  control_group_toml (disk p) = Some cg ->
  get_previous_iteration_name env = Ok prev ->
  cg !! prev = Some grp -> grp !! "new" = Some prev_new ->
  chained_control_group env iteration false p = (Ok prev_new, p).
Proof.
  intros Hit Hcg Hprev Hgrp Hnew. unfold chained_control_group.
  apply String.eqb_neq in Hit. rewrite Hit. mrun.
  by rewrite Hcg, Hprev, Hgrp, Hnew.
Qed.

(** C1.  Control-group chaining.  With the ["new"] group of the previous
    iteration recorded in the ledger, the record of a non-initial,
    non-validation iteration is created, with [last_control_group] equal
    to that group, and the start-of-iteration update of the ledger goes
    through and writes that group as the ["old"] group of the current
    iteration; neither can succeed on any other ledger.  The record of
    [it0000_model] is created with an empty [last_control_group],
    whatever the ledger. *)
Theorem control_group_chaining env p :
  (forall iteration,
     iteration <> "it0000_model" ->
     contains "validation" iteration = false ->
     (forall cg prev grp prev_new events,
        control_group_toml (disk p) = Some cg ->
        get_previous_iteration_name env = Ok prev ->
        cg !! prev = Some grp -> grp !! "new" = Some prev_new ->
        list_events env iteration = Ok events ->
        exists p' d,
          create_iteration_toml env iteration p = (Ok tt, p') /\
          iteration_tomls (disk p') !! iteration_toml_path iteration
            = Some d /\
          it_last_control_group d = Some prev_new) /\
     (forall p',
        create_iteration_toml env iteration p = (Ok tt, p') ->
        exists cg prev grp prev_new d,
          control_group_toml (disk p) = Some cg /\
          get_previous_iteration_name env = Ok prev /\
          cg !! prev = Some grp /\ grp !! "new" = Some prev_new /\
          iteration_tomls (disk p') !! iteration_toml_path iteration
            = Some d /\
          it_last_control_group d = Some prev_new)) /\
  ((forall events,
      list_events env "it0000_model" = Ok events ->
      exists p' d,
        create_iteration_toml env "it0000_model" p = (Ok tt, p') /\
        iteration_tomls (disk p') !! iteration_toml_path "it0000_model"
          = Some d /\
        it_last_control_group d = Some []) /\
   (forall p',
      create_iteration_toml env "it0000_model" p = (Ok tt, p') ->
      exists d,
        iteration_tomls (disk p') !! iteration_toml_path "it0000_model"
          = Some d /\
        it_last_control_group d = Some [])) /\
  ((forall cg prev grp prev_new,
      control_group_toml (disk p) = Some cg ->
      get_previous_iteration_name env = Ok prev ->
      prev <> current_iteration (attrs p) ->
      cg !! prev = Some grp -> grp !! "new" = Some prev_new ->
      exists p' cg' entry,
        update_control_group_toml env false false p = (Ok tt, p') /\
        control_group_toml (disk p') = Some cg' /\
        cg' !! current_iteration (attrs p) = Some entry /\
        entry !! "old" = Some prev_new) /\
   (forall p',
      update_control_group_toml env false false p = (Ok tt, p') ->
      exists cg cg' prev grp prev_new entry,
        control_group_toml (disk p) = Some cg /\
        get_previous_iteration_name env = Ok prev /\
        cg !! prev = Some grp /\ grp !! "new" = Some prev_new /\
        control_group_toml (disk p') = Some cg' /\
        cg' !! current_iteration (attrs p) = Some entry /\
        entry !! "old" = Some prev_new)).
Proof.
  split; [|split].
  - intros iteration Hit Hval. split.
    + intros cg prev grp prev_new events Hcg Hprev Hgrp Hnew Hev.
      rewrite create_iteration_toml_run. cbv zeta. rewrite Hval.
      rewrite (chained_control_group_run env iteration _ cg prev grp
                 prev_new Hit); try done;
        [|by rewrite backed_up_control_groups].
      cbn [fst]. rewrite Hev. eexists _, _. split; [reflexivity|].
      split; [cbn; apply lookup_insert_eq | done].
    + intros p'. rewrite create_iteration_toml_run. cbv zeta. rewrite Hval.
      destruct (chained_control_group env iteration false
                  (backed_up iteration p))
        as [[lcg|e] p1] eqn:Hc; cbn [fst]; [|discriminate].
      apply chained_control_group_ok in Hc.
      apply String.eqb_neq in Hit. rewrite Hit in Hc. cbn in Hc.
      destruct Hc as (cg & prev & grp & Hcg & Hprev & Hgrp & Hnew).
      rewrite backed_up_control_groups in Hcg.
      destruct (list_events env iteration) as [events|e]; [|discriminate].
      intros [= <-]. eexists cg, prev, grp, lcg, _.
      repeat split; try done; [cbn; apply lookup_insert_eq | done].
  - split.
    + intros events Hev. rewrite create_iteration_toml_run. cbv zeta.
      replace (contains "validation" "it0000_model") with false
        by reflexivity.
      replace (chained_control_group env "it0000_model" false
                 (backed_up "it0000_model" p))
        with (@Ok (list string) [], backed_up "it0000_model" p)
        by reflexivity.
      cbn [fst]. rewrite Hev. eexists _, _. split; [reflexivity|].
      split; [cbn; apply lookup_insert_eq | done].
    + intros p'. rewrite create_iteration_toml_run. cbv zeta.
      replace (contains "validation" "it0000_model") with false
        by reflexivity.
      destruct (chained_control_group env "it0000_model" false
                  (backed_up "it0000_model" p))
        as [[lcg|e] p1] eqn:Hc; cbn [fst]; [|discriminate].
      apply chained_control_group_ok in Hc. cbn in Hc. subst lcg.
      destruct (list_events env "it0000_model") as [events|e];
        [|discriminate].
      intros [= <-]. eexists. split; [cbn; apply lookup_insert_eq|]. done.
  - split.
    + intros cg prev grp prev_new Hcg Hprev Hne Hgrp Hnew.
      eexists _, _, _. split.
      { apply update_control_group_toml_start.
        exists cg, prev, grp, prev_new. repeat split; done. }
      split; [reflexivity|]. split; [cbn; apply lookup_insert_eq | done].
    + intros p'
        (cg & prev & grp & prev_new & Hcg & Hprev & Hne & Hgrp & Hnew & ->)
        %update_control_group_toml_start.
      eexists cg, _, prev, grp, prev_new, _.
      repeat split; try done; [cbn; apply lookup_insert_eq | done].
Qed.

Lemma control_group_chaining_witness :
  let p := demo_project MiniBatch MonoMesh in
  (exists p' d,
     create_iteration_toml demo_env "it0001_model" p = (Ok tt, p') /\
     iteration_tomls (disk p') !! iteration_toml_path "it0001_model"
       = Some d /\
     it_last_control_group d = Some ["E1"]) /\
  (exists p' d,
     create_iteration_toml demo_env "it0000_model" p = (Ok tt, p') /\
     iteration_tomls (disk p') !! iteration_toml_path "it0000_model"
       = Some d /\
     it_last_control_group d = Some []) /\
  (exists p' cg' entry,
     update_control_group_toml demo_env false false p = (Ok tt, p') /\
     control_group_toml (disk p') = Some cg' /\
     cg' !! current_iteration (attrs p) = Some entry /\
     entry !! "old" = Some ["E1"]).
Proof.
  intros p.
  destruct (control_group_chaining demo_env p) as (Hnext & Hfirst & Hledger).
  split; [|split].
  - refine (proj1 (Hnext "it0001_model" _ eq_refl) demo_ledger "it0000_model"
              {[ "old" := []; "new" := ["E1"] ]} ["E1"] ["E1"; "E2"]
              eq_refl eq_refl eq_refl eq_refl eq_refl).
    discriminate.
  - exact (proj1 Hfirst ["E1"; "E2"] eq_refl).
  - refine (proj1 Hledger demo_ledger "it0000_model"
              {[ "old" := []; "new" := ["E1"] ]} ["E1"]
              eq_refl eq_refl _ eq_refl eq_refl).
    discriminate.
Defined.

(** ** Backup on overwrite *)

Lemma string_app_length (a b : string) :
  String.length (a +:+ b) = String.length a + String.length b.
Proof.
  induction a as [|c a IH]; [done|].
  change (String c a +:+ b) with (String c (a +:+ b)).
  cbn [String.length]. by rewrite IH.
Qed.

Lemma backup_path_fresh iteration :
  backup_path iteration <> iteration_toml_path iteration.
Proof.
  unfold backup_path. fold (iteration_toml_path iteration).
  intros H. apply (f_equal String.length) in H.
  rewrite string_app_length in H. cbn in H. lia.
Qed.

Lemma backed_up_active iteration p :
  iteration_tomls (disk (backed_up iteration p))
    !! iteration_toml_path iteration
  = iteration_tomls (disk p) !! iteration_toml_path iteration.
Proof.
  unfold backed_up.
  destruct (iteration_tomls (disk p) !! iteration_toml_path iteration) eqn:E;
    [|done].
  cbn. rewrite lookup_insert_ne by apply backup_path_fresh. done.
Qed.

(** C6.  Re-creating an iteration whose record exists: the old record is
    copied unchanged to [backup_<iteration>.toml] and a warning is issued;
    the copy leaves the active file as it was; if creation then raises, the
    active file still holds the old record, and if it returns, the active
    file holds the freshly built record. *)
Theorem create_iteration_toml_backs_up env iteration p old res p' :
  iteration_tomls (disk p) !! iteration_toml_path iteration = Some old ->
  create_iteration_toml env iteration p = (res, p') ->
  let after_copy := state_after (backup_existing iteration) p in
  (iteration_tomls (disk after_copy) !! backup_path iteration = Some old /\
   iteration_tomls (disk after_copy) !! iteration_toml_path iteration
     = Some old) /\
  iteration_tomls (disk p') !! backup_path iteration = Some old /\
  warnings p' = warnings p ++ [backup_warning iteration] /\
  match res with
  | Raise _ =>
      iteration_tomls (disk p') !! iteration_toml_path iteration = Some old
  | Ok _ =>
      exists last_control_group events,
        list_events env iteration = Ok events /\
        iteration_tomls (disk p') !! iteration_toml_path iteration
          = Some (fresh_it_dict p iteration (contains "validation" iteration)
                    last_control_group events)
  end.
Proof.
  intros Hold Hrun after_copy.
  assert (Hcopy : after_copy = backed_up iteration p).
  { unfold after_copy, state_after. by rewrite backup_existing_run. }
  assert (Hbk : iteration_tomls (disk (backed_up iteration p))
                  !! backup_path iteration = Some old).
  { unfold backed_up. rewrite Hold. cbn. apply lookup_insert_eq. }
  assert (Hact : iteration_tomls (disk (backed_up iteration p))
                   !! iteration_toml_path iteration = Some old).
  { by rewrite backed_up_active. }
  assert (Hw : warnings (backed_up iteration p)
               = warnings p ++ [backup_warning iteration]).
  { unfold backed_up. by rewrite Hold. }
  rewrite Hcopy. split; [done|].
  rewrite create_iteration_toml_run in Hrun. cbv zeta in Hrun.
  destruct (chained_control_group env iteration
              (contains "validation" iteration) (backed_up iteration p)).1
    as [lcg|e]; [|by injection Hrun as <- <-].
  destruct (list_events env iteration) as [events|e];
    [|by injection Hrun as <- <-].
  injection Hrun as <- <-. cbn. split; [|split; [done|]].
  - rewrite lookup_insert_ne; [done|].
    intros H. by apply (backup_path_fresh iteration).
  - exists lcg, events. split; [done|]. apply lookup_insert_eq.
Qed.

Lemma create_iteration_toml_backs_up_witness :
  let p := recreated_project in
  let p' := state_after (create_iteration_toml demo_env "it0001_model") p in
  let after_copy := state_after (backup_existing "it0001_model") p in
  iteration_tomls (disk p) !! iteration_toml_path "it0001_model"
    = Some old_record /\
  create_iteration_toml demo_env "it0001_model" p = (Ok tt, p') /\
  (iteration_tomls (disk after_copy) !! backup_path "it0001_model"
     = Some old_record /\
   iteration_tomls (disk after_copy) !! iteration_toml_path "it0001_model"
     = Some old_record) /\
  iteration_tomls (disk p') !! backup_path "it0001_model" = Some old_record /\
  warnings p' = warnings p ++ [backup_warning "it0001_model"] /\
  exists last_control_group events,
    list_events demo_env "it0001_model" = Ok events /\
    iteration_tomls (disk p') !! iteration_toml_path "it0001_model"
      = Some (fresh_it_dict p "it0001_model"
                (contains "validation" "it0001_model")
                last_control_group events).
Proof.
  intros p p' after_copy.
  assert (H1 : iteration_tomls (disk p) !! iteration_toml_path "it0001_model"
               = Some old_record) by (vm_compute; reflexivity).
  assert (H2 : create_iteration_toml demo_env "it0001_model" p = (Ok tt, p'))
    by (vm_compute; reflexivity).
  split; [exact H1|]. split; [exact H2|].
  exact (create_iteration_toml_backs_up demo_env "it0001_model" p old_record
           (Ok tt) p' H1 H2).
Defined.

(** ** Fresh records *)

(** C7, as the code has it.  A non-validation iteration created in
    mini-batch mode has, for every event of the catalog (and for no other
    event), a [job_info] with forward, adjoint and smoothing records that
    are all unsubmitted with empty name and zero reposts, misfit [0.0] and
    [usage_updated] false; its [new_control_group] is empty, and so is the
    [last_control_group] of [it0000_model].  In multi-mesh mode the forward
    and adjoint records carry [interpolated = false]; the smoothing record
    never has an [interpolated] key. *)
Theorem create_iteration_toml_fresh_records env iteration p p' :
  inversion_mode (config p) = MiniBatch ->
  contains "validation" iteration = false ->
  create_iteration_toml env iteration p = (Ok tt, p') ->
  let interp := if is_multi_mesh p then Some false else None in
  exists d events,
    list_events env iteration = Ok events /\
    iteration_tomls (disk p') !! iteration_toml_path iteration = Some d /\
    it_name d = iteration /\
    (forall event, event ∈ events ->
       exists e,
         pd_get (it_events d) event = Some e /\
         job_info e = {[ "forward" := empty_job interp;
                         "adjoint" := empty_job interp;
                         "smoothing" := empty_job None ]} /\
         misfit e = Some 0%Q /\ usage_updated e = Some false) /\
    (forall event, event ∉ events -> pd_get (it_events d) event = None) /\
    it_new_control_group d = Some [] /\
    it_smoothing d = None /\
    (iteration = "it0000_model" -> it_last_control_group d = Some []).
Proof.
  intros Hmode Hval. rewrite create_iteration_toml_run. cbv zeta.
  rewrite Hval.
  destruct (chained_control_group env iteration false (backed_up iteration p))
    as [[lcg|e] p1] eqn:Hc; cbn [fst]; [|discriminate].
  apply chained_control_group_ok in Hc.
  destruct (list_events env iteration) as [events|e]; [|discriminate].
  intros [= <-]. eexists _, events. split; [done|].
  split; [cbn; apply lookup_insert_eq|].
  unfold fresh_it_dict, is_mono_batch. rewrite Hmode. cbn.
  repeat split; try done.
  - intros event Hin. eexists. rewrite pd_get_fold_set.
    rewrite decide_True by done. done.
  - intros event Hnin. rewrite pd_get_fold_set. by rewrite decide_False.
  - intros ->. cbn in Hc. by subst lcg.
Qed.

Lemma create_iteration_toml_fresh_records_witness :
  let p := demo_project MiniBatch MultiMesh in
  let p' := state_after (create_iteration_toml demo_env "it0000_model") p in
  inversion_mode (config p) = MiniBatch /\
  contains "validation" "it0000_model" = false /\
  create_iteration_toml demo_env "it0000_model" p = (Ok tt, p') /\
  exists d events,
    list_events demo_env "it0000_model" = Ok events /\
    iteration_tomls (disk p') !! iteration_toml_path "it0000_model" = Some d /\
    it_name d = "it0000_model" /\
    (forall event, event ∈ events ->
       exists e,
         pd_get (it_events d) event = Some e /\
         job_info e = {[ "forward" := empty_job (Some false);
                         "adjoint" := empty_job (Some false);
                         "smoothing" := empty_job None ]} /\
         misfit e = Some 0%Q /\ usage_updated e = Some false) /\
    (forall event, event ∉ events -> pd_get (it_events d) event = None) /\
    it_new_control_group d = Some [] /\
    it_smoothing d = None /\
    ("it0000_model" = "it0000_model" -> it_last_control_group d = Some []).
Proof.
  intros p p'.
  assert (H : create_iteration_toml demo_env "it0000_model" p = (Ok tt, p'))
    by (vm_compute; reflexivity).
  split; [reflexivity|]. split; [reflexivity|]. split; [exact H|].
  exact (create_iteration_toml_fresh_records demo_env "it0000_model" p p'
           eq_refl eq_refl H).
Defined.

(** C7 as stated fails in multi-mesh mode: the smoothing record created for
    [E1] is the plain empty record, not the empty record with
    [interpolated = false]. *)
Lemma smoothing_record_is_not_interpolated :
  let p := demo_project MiniBatch MultiMesh in
  let p' := state_after (create_iteration_toml demo_env "it0000_model") p in
  outcome (create_iteration_toml demo_env "it0000_model") p = Ok tt /\
  (exists d e,
     iteration_tomls (disk p') !! "it0000_model.toml" = Some d /\
     pd_get (it_events d) "E1" = Some e /\
     job_info e !! "forward" = Some (empty_job (Some false)) /\
     job_info e !! "smoothing" = Some (empty_job None)) /\
  ~ (exists d e,
       iteration_tomls (disk p') !! "it0000_model.toml" = Some d /\
       pd_get (it_events d) "E1" = Some e /\
       job_info e !! "smoothing" = Some (empty_job (Some false))).
Proof.
  intros p p'. split; [vm_compute; reflexivity|]. split.
  - eexists _, _. repeat split; vm_compute; reflexivity.
  - intros (d & e & Hd & He & Hs).
    assert (Hd' : iteration_tomls (disk p') !! "it0000_model.toml"
                  = Some (fresh_it_dict p "it0000_model" false [] ["E1"; "E2"]))
      by (vm_compute; reflexivity).
    rewrite Hd' in Hd. injection Hd as <-.
    vm_compute in He. injection He as <-.
    vm_compute in Hs. discriminate Hs.
Qed.

(** ** Saving the iteration record *)

Lemma bind_read_only_raises {A B} (m : M A) (f : A -> M B) p :
  preserves read_only m ->
  (forall a, exists e, f a p = (Raise e, p)) ->
  exists e, bind m f p = (Raise e, p).
Proof.
  intros Hm Hf. specialize (Hm p). unfold read_only, bind in *.
  destruct (m p) as [[a|e] p1]; cbn in Hm; subst p1; eauto.
Qed.

(** C4, as the code has it.  In mono-batch mode the save of a
    non-validation iteration never reaches the file: the statement
    [it_dict["smoothing"] == self.smoothing_job] reads a key that was not
    set, so the method raises and the project, files included, is left
    exactly as it was. *)
Theorem update_iteration_toml_mono_batch_never_saves
    env iteration validation p :
  inversion_mode (config p) = MonoBatch ->
  resolved_validation p iteration validation = false ->
  exists e,
    update_iteration_toml env iteration validation p = (Raise e, p).
Proof.
  intros Hmode Hval. unfold update_iteration_toml.
  rewrite (bind_run_ok get _ p p p eq_refl). cbv zeta. rewrite Hval.
  unfold is_mono_batch. rewrite Hmode.
  apply bind_read_only_raises; [frame|]. intros exists_.
  destruct exists_; cbn [negb]; [|eexists; reflexivity].
  apply bind_read_only_raises; [frame|]. intros cg_exists.
  apply bind_read_only_raises; [frame|]. intros control_group_dict.
  apply bind_read_only_raises; [frame|]. intros groups.
  apply bind_read_only_raises; [frame|]. intros events.
  apply bind_read_only_raises.
  { frame by (apply preserves_saved_event_entry; [exact _]). }
  intros it_events. eexists. reflexivity.
Qed.

Lemma update_iteration_toml_mono_batch_never_saves_witness :
  inversion_mode (config mono_project) = MonoBatch /\
  resolved_validation mono_project "current" false = false /\
  exists e,
    update_iteration_toml demo_env "current" false mono_project
    = (Raise e, mono_project).
Proof.
  split; [reflexivity|]. split; [reflexivity|].
  exact (update_iteration_toml_mono_batch_never_saves demo_env "current" false
           mono_project eq_refl eq_refl).
Defined.

(** The failing input of C4, evaluated: the in-memory smoothing job is
    submitted under the name [smooth-1]; the save raises
    [KeyError: 'smoothing'] and the file still holds the unsubmitted
    smoothing record written at creation. *)
Lemma mono_batch_smoothing_state_is_not_saved :
  smoothing_job (attrs mono_project)
    = SmoothSingle (set_submitted (set_name (empty_job None) "smooth-1") true)
  /\
  update_iteration_toml demo_env "current" false mono_project
    = (Raise (KeyError "smoothing"), mono_project) /\
  it_smoothing
    <$> (iteration_tomls (disk mono_project) !! "it0001_model.toml")
    = Some (Some (empty_job None)).
Proof. repeat split; vm_compute; reflexivity. Qed.

(** ** Job handles and status queries *)

Lemma get_old_iteration_info_ok iteration p d p' :
  get_old_iteration_info iteration p = (Ok d, p') ->
  iteration_tomls (disk p) !! iteration_toml_path iteration = Some d /\ p' = p.
Proof.
  unfold get_old_iteration_info. mrun.
  destruct (iteration_tomls (disk p) !! iteration_toml_path iteration) eqn:E;
    cbn; [|discriminate].
  rewrite E. by intros [= <- <-].
Qed.

Lemma sapi_get_job_ok env site job_name p h p' :
  sapi_get_job env site job_name p = (Ok h, p') ->
  bk_get_job env (calls p) site job_name = Ok tt /\
  h = {| h_site := site; h_name := job_name; h_array := false |} /\
  p' = with_calls p (calls p ++ [GetJob site job_name]).
Proof.
  unfold sapi_get_job. mrun.
  destruct (bk_get_job env (calls p) site job_name) as [[]|]; [|discriminate].
  by intros [= <- <-].
Qed.

Lemma sapi_get_job_array_ok env site job_name p h p' :
  sapi_get_job_array env site job_name p = (Ok h, p') ->
  bk_get_job_array env (calls p) site job_name = Ok tt /\
  h = {| h_site := site; h_name := job_name; h_array := true |} /\
  p' = with_calls p (calls p ++ [GetJobArray site job_name]).
Proof.
  unfold sapi_get_job_array. mrun.
  destruct (bk_get_job_array env (calls p) site job_name) as [[]|];
    [|discriminate].
  by intros [= <- <-].
Qed.

Lemma smoothing_job_single_ok p keys r p0 p1 :
  smoothing_job_single p keys p0 = (Ok r, p1) ->
  smoothing_job (attrs p) = SmoothSingle r /\ p1 = p0.
Proof.
  unfold smoothing_job_single.
  destruct (smoothing_job (attrs p)) as [m|r0].
  - by destruct (find _ keys).
  - by intros [= <- <-].
Qed.

Lemma smoothing_job_of_event_ok p event r p0 p1 :
  smoothing_job_of_event p event p0 = (Ok r, p1) ->
  (exists m, smoothing_job (attrs p) = SmoothPerEvent m /\ m !! event = Some r)
  /\ p1 = p0.
Proof.
  unfold smoothing_job_of_event.
  destruct (smoothing_job (attrs p)) as [m|r0].
  - intros H. monad_inv. eauto.
  - by destruct (str_in event (job_keys r0)).
Qed.

Lemma get_job_ok env event sim_type iteration p h p' :
  get_job env event sim_type iteration p = (Ok h, p') ->
  exists r,
    stored_job p event sim_type iteration r /\
    h = handle_of p sim_type r /\
    p' = with_calls p (calls p ++ [lookup_call h]).
Proof.
  unfold get_job. intros H.
  apply bind_ok in H. destruct H as (p0 & ? & [= <- <-] & H).
  apply bind_ok in H. destruct H as (job_name & p1 & Hname & H).
  assert (Hres : exists r,
             stored_job p event sim_type iteration r /\
             job_name = Some (name r) /\ p1 = p).
  { fold (is_current p iteration) in Hname.
    destruct (is_current p iteration) eqn:Hcur.
    - destruct (String.eqb_spec sim_type "forward") as [->|Hf].
      { monad_inv. destruct (submitted _) eqn:Hs in Hname; monad_inv.
        eexists; split; [by eapply stored_current_forward|done]. }
      destruct (String.eqb_spec sim_type "adjoint") as [->|Ha].
      { monad_inv. destruct (submitted _) eqn:Hs in Hname; monad_inv.
        eexists; split; [by eapply stored_current_adjoint|done]. }
      destruct (String.eqb_spec sim_type "smoothing") as [->|Hsm];
        [|monad_inv].
      unfold is_mono_batch in Hname.
      destruct (inversion_mode (config p)) eqn:Hmode; monad_inv.
      + match goal with
        | Hj : smoothing_job_of_event _ _ _ = _ |- _ =>
            apply smoothing_job_of_event_ok in Hj;
            destruct Hj as [(m & Hm & Hr) ->]
        end.
        destruct (submitted _) eqn:Hs in Hname; monad_inv.
        eexists; split; [by eapply stored_current_smoothing_mini|done].
      + match goal with
        | Hj : smoothing_job_single _ _ _ = _ |- _ =>
            apply smoothing_job_single_ok in Hj; destruct Hj as [Hj ->]
        end.
        destruct (submitted _) eqn:Hs in Hname; monad_inv.
        eexists; split; [by eapply stored_current_smoothing_mono|done].
    - apply bind_ok in Hname. destruct Hname as (d & p2 & Hd & Hname).
      apply get_old_iteration_info_ok in Hd. destruct Hd as [Hd ->].
      unfold is_mono_batch in Hname.
      destruct (String.eqb_spec sim_type "smoothing") as [->|Hsm].
      + destruct (inversion_mode (config p)) eqn:Hmode; cbn in Hname;
          monad_inv.
        * eexists; split; [eapply stored_old_event; eauto|done].
        * eexists; split; [by eapply stored_old_smoothing_mono|done].
      + cbn in Hname. monad_inv.
        eexists; split; [eapply stored_old_event; eauto|done]. }
  destruct Hres as (r & Hst & -> & ->). exists r. split; [done|].
  unfold handle_of, lookup_call.
  destruct (String.eqb sim_type "smoothing").
  - apply sapi_get_job_array_ok in H. destruct H as (_ & -> & ->). done.
  - apply sapi_get_job_ok in H. destruct H as (_ & -> & ->). done.
Qed.

(** C8.  A status that [get_job_status] returns is never a cached one: the
    method fetches the handle of the stored job from Salvus-Flow and then
    asks it for the status with [force_update=True]; what it returns is
    the answer Salvus-Flow gives to that very query. *)
Theorem get_job_status_is_live env event sim_type iteration p s p' :
  get_job_status env event sim_type iteration p = (Ok s, p') ->
  exists r,
    stored_job p event sim_type iteration r /\
    let h := handle_of p sim_type r in
    calls p' = calls p ++ [lookup_call h; UpdateStatus h true] /\
    bk_update_status env (calls p ++ [lookup_call h]) h true = Ok s.
Proof.
  unfold get_job_status. intros H.
  apply bind_ok in H. destruct H as (h & p1 & Hjob & H).
  apply get_job_ok in Hjob. destruct Hjob as (r & Hst & -> & ->).
  exists r. split; [done|]. cbv zeta. revert H. mrun. cbn [calls with_calls].
  destruct (bk_update_status _ _ _ _) as [s'|] eqn:Hs; [|discriminate].
  intros [= <- <-]. cbn. split; [|done]. by rewrite <- app_assoc.
Qed.

Lemma get_job_status_is_live_witness :
  let p := submitted_project in
  let p' := state_after (get_job_status demo_env "E1" "forward" "current") p in
  get_job_status demo_env "E1" "forward" "current" p = (Ok RUNNING, p') /\
  exists r,
    stored_job p "E1" "forward" "current" r /\
    let h := handle_of p "forward" r in
    calls p' = calls p ++ [lookup_call h; UpdateStatus h true] /\
    bk_update_status demo_env (calls p ++ [lookup_call h]) h true = Ok RUNNING.
Proof.
  intros p p'.
  assert (H : get_job_status demo_env "E1" "forward" "current" p
              = (Ok RUNNING, p')) by (vm_compute; reflexivity).
  split; [exact H|].
  exact (get_job_status_is_live demo_env "E1" "forward" "current" p RUNNING p'
           H).
Defined.

(** ** Frames of the flow methods *)

Lemma python_literal_plain env s : plain s = true -> python_literal env s = Ok s.
Proof. unfold python_literal. by intros ->. Qed.

Lemma plain_app a b : plain (a +:+ b) = plain a && plain b.
Proof.
  induction a as [|c a IH]; [done|].
  change (plain (String c a +:+ b)) with (plain_char c && plain (a +:+ b)).
  rewrite IH. apply andb_assoc.
Qed.

Lemma assign_attribute_forward_run event v p :
  assign_attribute (AttrForwardJob event) v p =
  match forward_job (attrs p) !! event with
  | Some r =>
      (Ok tt,
       with_attrs p (with_forward_job (attrs p)
                       (<[event := assign r v]> (forward_job (attrs p)))))
  | None => (Raise (KeyError event), p)
  end.
Proof.
  unfold assign_attribute. mrun. by destruct (forward_job (attrs p) !! event).
Qed.

Lemma assign_attribute_adjoint_run event v p :
  assign_attribute (AttrAdjointJob event) v p =
  match adjoint_job (attrs p) !! event with
  | Some r =>
      (Ok tt,
       with_attrs p (with_adjoint_job (attrs p)
                       (<[event := assign r v]> (adjoint_job (attrs p)))))
  | None => (Raise (KeyError event), p)
  end.
Proof.
  unfold assign_attribute. mrun. by destruct (adjoint_job (attrs p) !! event).
Qed.

(** The three-level smoothing path never assigns anything. *)
Lemma assign_attribute_smoothing_run event par v p :
  exists e,
    assign_attribute (AttrSmoothingJob event par) v p = (Raise e, p) /\
    ((exists k, e = KeyError k) \/ (exists msg, e = TypeError msg)).
Proof.
  unfold assign_attribute. mrun.
  destruct (smoothing_job (attrs p)) as [m|r].
  - destruct (m !! event) as [r|]; [|eauto 6].
    destruct (str_in par (job_keys r)); eauto 6.
  - destruct (str_in event (job_keys r)); eauto 6.
Qed.

(** [change_attribute] compiles, then assigns. *)
Lemma change_attribute_run env attribute v p :
  change_attribute env attribute v p =
  match read_attribute env attribute with
  | Raise e => (Raise e, p)
  | Ok attribute' =>
      match read_value env v with
      | Raise e => (Raise e, p)
      | Ok v' => assign_attribute attribute' v' p
      end
  end.
Proof.
  unfold change_attribute, read_attribute, read_value. mrun.
  destruct attribute as [event|event|event par]; mrun.
  - destruct (python_literal env event); [|done].
    destruct v as [s|b]; mrun; [|done]. by destruct (python_literal env s).
  - destruct (python_literal env event); [|done].
    destruct v as [s|b]; mrun; [|done]. by destruct (python_literal env s).
  - destruct (python_literal env event); [|done].
    destruct (python_literal env par); [|done].
    destruct v as [s|b]; mrun; [|done]. by destruct (python_literal env s).
Qed.

Lemma change_attribute_smoothing_run env event par v p :
  exists e, change_attribute env (AttrSmoothingJob event par) v p = (Raise e, p).
Proof.
  rewrite change_attribute_run.
  destruct (read_attribute env (AttrSmoothingJob event par)) as [a|e] eqn:Ha;
    [|by eexists].
  destruct (read_value env v) as [v'|e]; [|by eexists].
  assert (exists key par', a = AttrSmoothingJob key par') as (key & par' & ->).
  { cbn in Ha. destruct (python_literal env event); [|done].
    destruct (python_literal env par); [|done]. injection Ha as <-. eauto. }
  destruct (assign_attribute_smoothing_run key par' v' p) as (e & -> & _).
  by eexists.
Qed.

Lemma preserves_assign_attribute R `{!PreOrder R} attribute v :
  (forall p a, R p (with_attrs p a)) ->
  preserves R (assign_attribute attribute v).
Proof.
  intros HR p. destruct attribute as [event|event|event par].
  - rewrite assign_attribute_forward_run.
    destruct (forward_job (attrs p) !! event); [apply HR|reflexivity].
  - rewrite assign_attribute_adjoint_run.
    destruct (adjoint_job (attrs p) !! event); [apply HR|reflexivity].
  - destruct (assign_attribute_smoothing_run event par v p) as (e & -> & _).
    reflexivity.
Qed.

Lemma preserves_change_attribute R `{!PreOrder R} env attribute v :
  (forall p a, R p (with_attrs p a)) ->
  preserves R (change_attribute env attribute v).
Proof.
  intros HR p. rewrite change_attribute_run.
  destruct (read_attribute env attribute); [|reflexivity].
  destruct (read_value env v); [|reflexivity].
  by apply preserves_assign_attribute.
Qed.

(** Looking a job name up ([new=False]) changes nothing but the files. *)
Lemma preserves_get_job_name_lookup R `{!PreOrder R} env event sim_type
    iteration unique_id :
  (forall p dk, R p (with_disk p dk)) ->
  preserves R (_get_job_name env event sim_type false iteration unique_id).
Proof.
  intros HR. unfold _get_job_name.
  frame by first
    [ apply preserves_get_old_iteration_info; [exact _]
    | apply preserves_smoothing_job_single; [exact _]
    | apply preserves_smoothing_job_of_event; [exact _]
    | apply preserves_update_iteration_toml; [exact _ | exact HR] ].
Qed.

Lemma preserves_sapi_get_job R `{!PreOrder R} env site job_name :
  (forall p, R p (with_calls p (calls p ++ [GetJob site job_name]))) ->
  preserves R (sapi_get_job env site job_name).
Proof.
  intros HR. unfold sapi_get_job.
  frame by (apply preserves_backend_call; [exact _ | exact HR]).
Qed.

#[local] Instance only_files_preorder : PreOrder only_files.
Proof.
  split; [done|].
  intros p1 p2 p3 (? & ? & ? & ?) (? & ? & ? & ?).
  unfold only_files. repeat split; congruence.
Qed.

Lemma only_files_with_disk p dk : only_files p (with_disk p dk).
Proof. done. Qed.

#[local] Instance no_status_query_preorder : PreOrder no_status_query.
Proof.
  split.
  - intros p. exists []. by rewrite app_nil_r.
  - intros p1 p2 p3 (l1 & H1 & Hl1) (l2 & H2 & Hl2). exists (l1 ++ l2).
    rewrite H2, H1, <- app_assoc. split; [done|].
    rewrite forallb_app, Hl1, Hl2. done.
Qed.

Lemma no_status_query_with_disk p dk : no_status_query p (with_disk p dk).
Proof. exists []. by rewrite app_nil_r. Qed.

Lemma no_status_query_call p c :
  is_status_query c = false ->
  no_status_query p (with_calls p (calls p ++ [c])).
Proof. intros Hc. exists [c]. cbn. by rewrite Hc. Qed.

(** ** Retrieval *)

Lemma get_job_name_lookup_current_ok env event sim_type unique_id p job p' :
  _get_job_name env event sim_type false "current" unique_id p = (Ok job, p') ->
  only_files p p' /\
  (sim_type = "forward" \/ sim_type = "adjoint" ->
   exists r, jobs_of sim_type p !! event = Some r /\ job = name r).
Proof.
  intros H. split.
  { pose proof (preserves_get_job_name_lookup only_files env event sim_type
                  "current" unique_id only_files_with_disk p) as Hp.
    by rewrite H in Hp. }
  intros Hkind. unfold _get_job_name in H.
  apply bind_ok in H. destruct H as (p0 & ? & [= <- <-] & H).
  replace (String.eqb "current" "current") with true in H by reflexivity.
  cbn [negb] in H. unfold jobs_of.
  destruct Hkind as [-> | ->]; cbn in H; monad_inv; eauto.
Qed.

Lemma update_iteration_toml_only_files env iteration validation p :
  only_files p (update_iteration_toml env iteration validation p).2.
Proof. apply preserves_update_iteration_toml; [exact _|done]. Qed.

(** A lookup of a job name ([new=False]) that returns has saved the
    current iteration, and done nothing else. *)
Lemma get_job_name_lookup_saves env event sim_type iteration unique_id p job
    p' :
  _get_job_name env event sim_type false iteration unique_id p = (Ok job, p') ->
  update_iteration_toml env "current" false p = (Ok tt, p').
Proof.
  intros H. unfold _get_job_name in H.
  apply bind_ok in H. destruct H as (p0 & ? & [= <- <-] & H).
  cbv zeta in H.
  destruct (negb (str_in sim_type ["forward"; "adjoint"; "smoothing"]));
    [discriminate|].
  apply bind_ok in H. destruct H as (job0 & p1 & Hjob & H).
  apply bind_ok in H. destruct H as ([] & p2 & Hsave & H).
  injection H as <- <-.
  assert (Hp1 : p1 = p); [|by subst p1].
  match type of Hjob with
  | ?m p = _ =>
      assert (Hp : preserves read_only m)
        by (frame by first
              [ apply preserves_get_old_iteration_info; [exact _]
              | apply preserves_smoothing_job_single; [exact _]
              | apply preserves_smoothing_job_of_event; [exact _] ]);
      specialize (Hp p); by rewrite Hjob in Hp
  end.
Qed.

(** The calls of [retrieve_outputs], whether it returns or raises: none,
    the fetch of the job, or the fetch and the copy; the copy is issued
    only for a forward or adjoint job, after the save. *)
Lemma retrieve_outputs_calls env event sim_type p :
  let p' := state_after (retrieve_outputs env event sim_type) p in
  let site := site_name (config p) in
  calls p' = calls p \/
  (exists job, calls p' = calls p ++ [GetJob site job]) \/
  (exists job destination,
     calls p' = calls p ++ [GetJob site job;
                            CopyOutput {| h_site := site; h_name := job;
                                          h_array := false |}
                              (dirname destination) true] /\
     (sim_type = "forward" \/ sim_type = "adjoint") /\
     outcome (update_iteration_toml env "current" false) p = Ok tt).
Proof.
  intros p' site. unfold p', state_after, retrieve_outputs.
  destruct (_get_job_name env event sim_type false "current" EmptyString p)
    as [[job|e] p2] eqn:Hname.
  2: { rewrite (bind_run_raise _ _ _ _ _ Hname). left.
       pose proof (preserves_get_job_name_lookup only_files env event
                     sim_type "current" EmptyString only_files_with_disk p)
         as Hp.
       rewrite Hname in Hp. by destruct Hp as (_ & _ & Hl & _). }
  rewrite (bind_run_ok _ _ _ _ _ Hname).
  pose proof (get_job_name_lookup_saves _ _ _ _ _ _ _ _ Hname) as Hsave.
  destruct (update_iteration_toml_only_files env "current" false p)
    as (Hcfg & _ & Hcalls & _).
  rewrite Hsave in Hcfg, Hcalls. cbn [snd] in Hcfg, Hcalls.
  rewrite (bind_run_ok get _ p2 p2 p2 eq_refl). rewrite Hcfg. fold site.
  destruct (sapi_get_job env site job p2) as [[h|e] p4] eqn:Hjob.
  2: { rewrite (bind_run_raise _ _ _ _ _ Hjob). right; left. exists job.
       revert Hjob. unfold sapi_get_job, backend_call, bind.
       destruct (bk_get_job env (calls p2) site job) as [[]|e'];
         intros [= <- <-]; cbn; by rewrite Hcalls. }
  rewrite (bind_run_ok _ _ _ _ _ Hjob).
  apply sapi_get_job_ok in Hjob. destruct Hjob as (_ & -> & ->).
  set (p4 := with_calls p2 (calls p2 ++ [GetJob site job])).
  assert (Hno : calls p4 = calls p ++ [GetJob site job])
    by (cbn; by rewrite Hcalls).
  match goal with
  | |- context [bind ?m _ p4] =>
      assert (Hro : preserves read_only m) by frame;
      specialize (Hro p4);
      destruct (m p4) as [[destination|e] p5] eqn:Hdest;
      cbn [snd] in Hro; unfold read_only in Hro; subst p5
  end.
  2: { rewrite (bind_run_raise _ _ _ _ _ Hdest). right; left. by exists job. }
  rewrite (bind_run_ok _ _ _ _ _ Hdest).
  right; right. exists job, destination. unfold backend_call. cbn [snd].
  split; [cbn; by rewrite Hcalls, <- app_assoc|].
  split.
  - destruct (String.eqb_spec sim_type "forward"); [by left|].
    destruct (String.eqb_spec sim_type "adjoint"); [by right|].
    discriminate Hdest.
  - unfold outcome. by rewrite Hsave.
Qed.

(** C3, as the code has it.  [retrieve_outputs] never asks for the status
    of the job: its result does not depend on what a status query would
    answer and it issues no status query.  It leaves every in-memory job
    record, the [retrieved] flags included, as it was.  It copies outputs
    only for a forward or adjoint job and only after the save of the
    current iteration has gone through; for any other simulation type it
    raises.  When it returns, the looking up of the job name has saved the
    current iteration, which is all that happened to the files, and the
    calls it made are the fetch of the job under the stored name and one
    [copy_output] into the directory of the destination. *)
Theorem retrieve_outputs_does_not_check_status env event sim_type p :
  let run := retrieve_outputs env event sim_type in
  let p' := state_after run p in
  (forall answer,
     retrieve_outputs (with_status env answer) event sim_type p = run p) /\
  attrs p' = attrs p /\
  (exists issued,
     calls p' = calls p ++ issued /\
     (forall h force, UpdateStatus h force ∉ issued) /\
     (forall h destination allow,
        CopyOutput h destination allow ∈ issued ->
        (sim_type = "forward" \/ sim_type = "adjoint") /\
        outcome (update_iteration_toml env "current" false) p = Ok tt)) /\
  (sim_type <> "forward" -> sim_type <> "adjoint" ->
   exists e, outcome run p = Raise e) /\
  (outcome run p = Ok tt ->
   (sim_type = "forward" \/ sim_type = "adjoint") /\
   update_iteration_toml env "current" false p
   = (Ok tt, with_disk p (disk p')) /\
   exists r destination,
     jobs_of sim_type p !! event = Some r /\
     destination_of env p event sim_type = Ok destination /\
     let h := {| h_site := site_name (config p); h_name := name r;
                 h_array := false |} in
     calls p' = calls p ++ [GetJob (site_name (config p)) (name r);
                            CopyOutput h (dirname destination) true]).
Proof.
  intros run p'. split; [reflexivity|]. split; [|split; [|split]].
  - assert (H : preserves (same_on attrs) (retrieve_outputs env event sim_type)).
    { unfold retrieve_outputs.
      frame by first
        [ apply preserves_get_job_name_lookup; [exact _ | done]
        | apply preserves_sapi_get_job; [exact _ | done]
        | apply preserves_backend_call; [exact _ | done] ]. }
    apply H.
  - destruct (retrieve_outputs_calls env event sim_type p)
      as [H | [(job & H) | (job & dest & H & Hkind & Hsave)]];
      fold run p' in H.
    + exists []. rewrite app_nil_r. split; [done|].
      split; [intros h force | intros h d allow];
        by intros ?%not_elem_of_nil.
    + eexists. split; [exact H|].
      split; [intros h force | intros h d allow];
        by intros [=]%list_elem_of_singleton.
    + eexists. split; [exact H|]. split.
      * intros h force [[=]|[=]%list_elem_of_singleton]%elem_of_cons.
      * by intros h d allow _.
  - intros Hf Ha. unfold outcome, run, retrieve_outputs.
    destruct (_get_job_name env event sim_type false "current" EmptyString p)
      as [[job|e] p2] eqn:Hname.
    2: { rewrite (bind_run_raise _ _ _ _ _ Hname). by eexists. }
    rewrite (bind_run_ok _ _ _ _ _ Hname).
    rewrite (bind_run_ok get _ p2 p2 p2 eq_refl).
    apply String.eqb_neq in Hf, Ha. rewrite Hf, Ha.
    unfold bind at 1.
    destruct (sapi_get_job env (site_name (config p2)) job p2)
      as [[h|e] p4]; by eexists.
  - unfold outcome, p', run, state_after.
    destruct (retrieve_outputs env event sim_type p) as [res p1] eqn:Hrun.
    cbn [fst snd]. intros ->. unfold retrieve_outputs in Hrun.
    apply bind_ok in Hrun. destruct Hrun as (job & p2 & Hname & Hrun).
    pose proof (get_job_name_lookup_saves _ _ _ _ _ _ _ _ Hname) as Hsave.
    apply get_job_name_lookup_current_ok in Hname.
    destruct Hname as [(Hcfg & Hattrs & Hcalls & Hwarn) Hrec].
    apply bind_ok in Hrun. destruct Hrun as (p3 & ? & [= <- <-] & Hrun).
    apply bind_ok in Hrun. destruct Hrun as (h & p4 & Hjob & Hrun).
    apply sapi_get_job_ok in Hjob. destruct Hjob as (_ & -> & ->).
    apply bind_ok in Hrun. destruct Hrun as (dest & p5 & Hdest & Hrun).
    assert (Hkind : sim_type = "forward" \/ sim_type = "adjoint").
    { destruct (String.eqb_spec sim_type "forward"); [by left|].
      destruct (String.eqb_spec sim_type "adjoint"); [by right|].
      discriminate Hdest. }
    split; [exact Hkind|].
    destruct (Hrec Hkind) as (r & Hr & ->).
    assert (Hd : destination_of env p event sim_type = Ok dest /\
                 p5 = with_calls p2 (calls p2
                        ++ [GetJob (site_name (config p2)) (name r)])).
    { unfold destination_of. rewrite <- Hattrs.
      destruct Hkind as [-> | ->]; cbn in Hdest;
        apply lift_ok in Hdest; by destruct Hdest. }
    destruct Hd as [Hd ->].
    unfold backend_call in Hrun. cbn [calls with_calls config] in Hrun.
    destruct (bk_copy_output _ _ _ _ _) as [[]|]; [|discriminate].
    injection Hrun as <-. split.
    { rewrite Hsave. f_equal. destruct p2 as [c2 a2 d2 w2 l2].
      destruct p as [c a d w l]. cbn in *. by subst. }
    exists r, dest. split; [exact Hr|]. split; [exact Hd|].
    cbn. rewrite Hcfg, Hcalls, <- app_assoc. done.
Qed.

Lemma retrieve_outputs_does_not_check_status_witness :
  let p := submitted_project in
  let p' := state_after (retrieve_outputs demo_env "E1" "forward") p in
  outcome (retrieve_outputs demo_env "E1" "forward") p = Ok tt /\
  update_iteration_toml demo_env "current" false p
  = (Ok tt, with_disk p (disk p')) /\
  (exists r destination,
     jobs_of "forward" p !! "E1" = Some r /\
     destination_of demo_env p "E1" "forward" = Ok destination /\
     let h := {| h_site := site_name (config p); h_name := name r;
                 h_array := false |} in
     calls p' = calls p ++ [GetJob (site_name (config p)) (name r);
                            CopyOutput h (dirname destination) true]) /\
  (exists e, outcome (retrieve_outputs demo_env "E1" "smoothing") p = Raise e) /\
  (forall h destination allow,
     CopyOutput h destination allow
     ∉ calls (state_after (retrieve_outputs demo_env "E1" "smoothing") p)).
Proof.
  intros p p'.
  assert (H : outcome (retrieve_outputs demo_env "E1" "forward") p = Ok tt)
    by (vm_compute; reflexivity).
  split; [exact H|].
  pose proof (retrieve_outputs_does_not_check_status demo_env "E1" "forward" p)
    as (_ & _ & _ & _ & Hok).
  split; [exact (proj1 (proj2 (Hok H)))|].
  split; [exact (proj2 (proj2 (Hok H)))|].
  pose proof (retrieve_outputs_does_not_check_status demo_env "E1" "smoothing"
                p) as (_ & _ & (issued & Hcalls & _ & Hcopy) & Hraise & _).
  split.
  - apply Hraise; discriminate.
  - intros h destination allow. cbv zeta in Hcalls. rewrite Hcalls.
    intros [Hin|Hin]%elem_of_app.
    + revert Hin. vm_compute. intros Hin.
      apply list_elem_of_singleton in Hin. discriminate Hin.
    + destruct (Hcopy h destination allow Hin) as [[Hk|Hk] _];
        discriminate Hk.
Defined.

(** C3 as stated fails: the forward job of [E1] is reported as running,
    yet [retrieve_outputs] returns normally, has issued the copy of the
    outputs, and the [retrieved] flag of the job is still false. *)
Lemma retrieval_succeeds_while_job_is_running :
  let p := submitted_project in
  let p' := state_after (retrieve_outputs demo_env "E1" "forward") p in
  outcome (get_job_status demo_env "E1" "forward" "current") p = Ok RUNNING /\
  outcome (retrieve_outputs demo_env "E1" "forward") p = Ok tt /\
  last (calls p')
    = Some (CopyOutput
              {| h_site := "daint"; h_name := "job-abc"; h_array := false |}
              "/lasif/SYNTHETICS/it0001_model/E1" true) /\
  retrieved <$> (forward_job (attrs p') !! "E1") = Some false.
Proof. repeat split; vm_compute; reflexivity. Qed.

(** ** Submission *)

Lemma with_jobs_jobs_of sim_type p m :
  sim_type = "forward" \/ sim_type = "adjoint" ->
  jobs_of sim_type (with_jobs sim_type p m) = m.
Proof. by intros [-> | ->]. Qed.

Lemma record_submission_run env event sim_type job_name p :
  sim_type = "forward" \/ sim_type = "adjoint" ->
  record_submission env event sim_type job_name p =
  match python_literal env event with
  | Raise e => (Raise e, p)
  | Ok key =>
      match python_literal env job_name with
      | Raise e => (Raise e, p)
      | Ok v =>
          match jobs_of sim_type p !! key with
          | Some r =>
              (Ok tt,
               with_jobs sim_type p
                 (<[key := recorded r v]> (jobs_of sim_type p)))
          | None => (Raise (KeyError key), p)
          end
      end
  end.
Proof.
  intros Hkind. unfold record_submission, jobs_of, with_jobs.
  destruct Hkind as [-> | ->]; cbn [String.eqb Ascii.eqb Bool.eqb];
    unfold bind; rewrite change_attribute_run; cbn [read_attribute read_value];
    (destruct (python_literal env event) as [key|e] eqn:Hkey; [|done]);
    (destruct (python_literal env job_name) as [v|e]; [|done]).
  - rewrite assign_attribute_forward_run.
    destruct (forward_job (attrs p) !! key) as [r|]; [|done].
    rewrite change_attribute_run. cbn [read_attribute read_value].
    rewrite Hkey, assign_attribute_forward_run.
    cbn [attrs with_attrs forward_job with_forward_job].
    rewrite lookup_insert_eq, insert_insert_eq. reflexivity.
  - rewrite assign_attribute_adjoint_run.
    destruct (adjoint_job (attrs p) !! key) as [r|]; [|done].
    rewrite change_attribute_run. cbn [read_attribute read_value].
    rewrite Hkey, assign_attribute_adjoint_run.
    cbn [attrs with_attrs adjoint_job with_adjoint_job].
    rewrite lookup_insert_eq, insert_insert_eq. reflexivity.
Qed.


(** [submit_job] step by step: the submission, the two assignments, the
    save. *)
Lemma submit_job_run env event sim sim_type site wall_time_arg ranks p :
  submit_job env event sim sim_type site wall_time_arg ranks p =
  let wt := submit_wall_time p sim_type in
  let p1 := with_calls p (calls p ++ [RunAsync site sim ranks wt]) in
  match bk_run_async env (calls p) site sim ranks wt with
  | Raise e => (Raise e, p1)
  | Ok job_name =>
      match record_submission env event sim_type job_name p1 with
      | (Raise e, q) => (Raise e, q)
      | (Ok _, q) => update_iteration_toml env "current" false q
      end
  end.
Proof.
  unfold submit_job, sapi_run_async, backend_call.
  rewrite (bind_run_ok get _ p p p eq_refl).
  fold (submit_wall_time p sim_type). cbv zeta. unfold bind at 1.
  destruct (bk_run_async env (calls p) site sim ranks
              (submit_wall_time p sim_type)) as [job_name|e]; [|done].
  fold (record_submission env event sim_type job_name). unfold bind.
  by destruct (record_submission env event sim_type job_name _) as [[[]|e] q].
Qed.

Lemma submit_job_calls env event sim sim_type site wall_time_arg ranks p :
  calls (state_after (submit_job env event sim sim_type site wall_time_arg
                        ranks) p)
  = calls p ++ [RunAsync site sim ranks (submit_wall_time p sim_type)].
Proof.
  unfold state_after. rewrite submit_job_run. cbv zeta.
  set (p1 := with_calls p _).
  destruct (bk_run_async _ _ _ _ _ _) as [job_name|e]; [|done].
  assert (Hq : preserves (same_on calls)
                 (record_submission env event sim_type job_name)).
  { unfold record_submission.
    frame by (apply preserves_change_attribute; [exact _ | done]). }
  specialize (Hq p1).
  destruct (record_submission env event sim_type job_name p1) as [[[]|e] q];
    cbn in Hq; [|exact Hq].
  destruct (update_iteration_toml_only_files env "current" false q)
    as (_ & _ & Hl & _).
  by rewrite Hl, Hq.
Qed.

(** What a call of [submit_job] leaves behind, whether it returns or
    raises: the submission is in the log, and memory is as it was unless
    Salvus-Flow accepted the job, Python read the event and the name, and
    the job dict has a record under the key read: then that record has
    the name read and [submitted = True]. *)
Lemma submit_job_memory env event sim sim_type site wall_time_arg ranks p :
  sim_type = "forward" \/ sim_type = "adjoint" ->
  let p' :=
    state_after (submit_job env event sim sim_type site wall_time_arg ranks) p
  in
  let wt := submit_wall_time p sim_type in
  config p' = config p /\
  calls p' = calls p ++ [RunAsync site sim ranks wt] /\
  match bk_run_async env (calls p) site sim ranks wt with
  | Raise _ => attrs p' = attrs p
  | Ok job_name =>
      match python_literal env event, python_literal env job_name with
      | Ok key, Ok v =>
          jobs_of sim_type p' = submitted_as (jobs_of sim_type p) key v /\
          (forall other, other <> sim_type ->
             other = "forward" \/ other = "adjoint" ->
             jobs_of other p' = jobs_of other p)
      | _, _ => attrs p' = attrs p
      end
  end.
Proof.
  intros Hkind p' wt. unfold p', state_after. rewrite submit_job_run.
  cbv zeta. fold wt.
  destruct (bk_run_async env (calls p) site sim ranks wt) as [job_name|e];
    [|done].
  rewrite (record_submission_run _ _ _ _ _ Hkind).
  destruct (python_literal env event) as [key|e]; [|done].
  destruct (python_literal env job_name) as [v|e]; [|done].
  set (p1 := with_calls p (calls p ++ [RunAsync site sim ranks wt])).
  unfold submitted_as.
  change (jobs_of sim_type p1) with (jobs_of sim_type p).
  destruct (jobs_of sim_type p !! key) as [r|] eqn:Hr.
  - set (q := with_jobs sim_type p1 _).
    destruct (update_iteration_toml_only_files env "current" false q)
      as (Hc & Ha & Hl & _).
    split; [by rewrite Hc|]. split; [by rewrite Hl|].
    unfold jobs_of at 1 3. rewrite Ha. split.
    + fold (jobs_of sim_type q). by apply with_jobs_jobs_of.
    + intros other Hne [-> | ->]; destruct Hkind as [-> | ->]; done.
  - cbn. split; [done|]. split; [done|]. split; [done|]. done.
Qed.

Lemma submit_job_records env event sim sim_type site wall_time_arg ranks p
    key r job_name v :
  sim_type = "forward" \/ sim_type = "adjoint" ->
  python_literal env event = Ok key ->
  jobs_of sim_type p !! key = Some r ->
  bk_run_async env (calls p) site sim ranks (submit_wall_time p sim_type)
    = Ok job_name ->
  python_literal env job_name = Ok v ->
  let p' :=
    state_after (submit_job env event sim sim_type site wall_time_arg ranks) p
  in
  jobs_of sim_type p' !! key = Some (recorded r v).
Proof.
  intros Hkind Hkey Hr Hbk Hv p'.
  destruct (submit_job_memory env event sim sim_type site wall_time_arg ranks
              p Hkind) as (_ & _ & Hjobs).
  fold p' in Hjobs. rewrite Hbk, Hkey, Hv in Hjobs.
  destruct Hjobs as [-> _]. unfold submitted_as. rewrite Hr.
  apply lookup_insert_eq.
Qed.

(** C5, as the code has it.  [submit_job] does not look at the [submitted]
    flag: every call issues one submission to Salvus-Flow.  When that is
    accepted for a forward or adjoint job whose record is already marked
    submitted, the name is pasted into an assignment statement: the record
    gets the name that Python reads from it (the name itself when it is
    plain) while the other fields, [reposts] included, stay as they are;
    and when the statement does not compile, the call raises that
    exception and memory is as it was.  The record is the one under the key
    that Python reads from the event. *)
Theorem submit_job_resubmits env event sim sim_type site wall_time_arg ranks p :
  let run := submit_job env event sim sim_type site wall_time_arg ranks in
  let p' := state_after run p in
  let wt := submit_wall_time p sim_type in
  calls p' = calls p ++ [RunAsync site sim ranks wt] /\
  forall key r job_name,
    sim_type = "forward" \/ sim_type = "adjoint" ->
    python_literal env event = Ok key ->
    jobs_of sim_type p !! key = Some r ->
    submitted r = true ->
    bk_run_async env (calls p) site sim ranks wt = Ok job_name ->
    (plain event = true -> key = event) /\
    (plain job_name = true -> python_literal env job_name = Ok job_name) /\
    match python_literal env job_name with
    | Ok v => jobs_of sim_type p' !! key = Some (set_name r v)
    | Raise e => outcome run p = Raise e /\ attrs p' = attrs p
    end.
Proof.
  intros run p' wt. split; [apply submit_job_calls|].
  intros key r job_name Hkind Hkey Hr Hsub Hbk.
  split.
  { intros Hplain. rewrite (python_literal_plain _ _ Hplain) in Hkey.
    by injection Hkey. }
  split; [apply python_literal_plain|].
  destruct (python_literal env job_name) as [v|e] eqn:Hv.
  - replace (set_name r v) with (recorded r v).
    + by eapply submit_job_records.
    + unfold recorded, set_submitted, set_name. cbn. by rewrite <- Hsub.
  - unfold p', run, outcome, state_after. rewrite submit_job_run. cbv zeta.
    fold wt. rewrite Hbk, (record_submission_run _ _ _ _ _ Hkind), Hkey, Hv.
    done.
Qed.

Lemma submit_job_resubmits_witness :
  let p := submitted_project in
  let again :=
    submit_job demo_env "E1" second_simulation "forward" "daint" 3600 1024 in
  let r := recorded (empty_job None) "job-abc" in
  (python_literal demo_env "E1" = Ok "E1" /\
   jobs_of "forward" p !! "E1" = Some r /\ submitted r = true /\
   bk_run_async demo_env (calls p) "daint" second_simulation 1024
     (submit_wall_time p "forward") = Ok "job-def") /\
  calls (state_after again p)
    = calls p ++ [RunAsync "daint" second_simulation 1024
                    (submit_wall_time p "forward")] /\
  jobs_of "forward" (state_after again p) !! "E1" = Some (set_name r "job-def").
Proof.
  intros p again r.
  assert (H1 : jobs_of "forward" p !! "E1" = Some r) by (vm_compute; reflexivity).
  assert (H2 : bk_run_async demo_env (calls p) "daint" second_simulation 1024
                 (submit_wall_time p "forward") = Ok "job-def")
    by (vm_compute; reflexivity).
  split; [by repeat split|].
  pose proof (submit_job_resubmits demo_env "E1" second_simulation "forward"
                "daint" 3600 1024 p) as [Hc Hr].
  split; [exact Hc|].
  exact (proj2 (proj2 (Hr "E1" r "job-def" (or_introl eq_refl) eq_refl H1
                         eq_refl H2))).
Defined.

(** C5 as stated fails: the forward job of [E1] is marked submitted under
    the name [job-abc]; a second [submit_job] returns normally, has
    issued a second submission, and the record now names [job-def] with
    [reposts] still zero. *)
Lemma second_submission_is_issued :
  let p := submitted_project in
  let again :=
    submit_job demo_env "E1" second_simulation "forward" "daint" 3600 1024 in
  forward_job (attrs p) !! "E1" = Some (recorded (empty_job None) "job-abc") /\
  outcome again p = Ok tt /\
  calls (state_after again p)
    = [RunAsync "daint" (Simulation "forward E1") 1024 3600;
       RunAsync "daint" second_simulation 1024 3600] /\
  forward_job (attrs (state_after again p)) !! "E1"
    = Some (recorded (empty_job None) "job-def").
Proof. repeat split; vm_compute; reflexivity. Qed.

(** ** Names and submitted flags over time *)


Lemma jobs_kept_refl m : jobs_kept m m.
Proof. intros event r Hr. exists r. by split. Qed.

Lemma jobs_kept_trans m1 m2 m3 :
  jobs_kept m1 m2 -> jobs_kept m2 m3 -> jobs_kept m1 m3.
Proof.
  intros H12 H23 event r Hr.
  destruct (H12 event r Hr) as (r2 & Hr2 & [Hs2 Hn2]).
  destruct (H23 event r2 Hr2) as (r3 & Hr3 & [Hs3 Hn3]).
  exists r3. split; [done|]. split; auto.
Qed.


#[local] Instance records_kept_preorder : PreOrder records_kept.
Proof.
  split.
  - intros p. split; apply jobs_kept_refl.
  - intros p1 p2 p3 [Hf12 Ha12] [Hf23 Ha23]. split; by eapply jobs_kept_trans.
Qed.







(** Frames of the methods that only read the records and talk to
    Salvus-Flow. *)
Section BlindFrames.
Context (R : relation Project) `{!PreOrder R}.
Hypothesis R_disk : forall p dk, R p (with_disk p dk).
Hypothesis R_calls : forall p c, R p (with_calls p c).
Variable env : Collaborators.

Lemma preserves_any_backend_call {A} c (reply : _ -> result A) :
  preserves R (backend_call c reply).
Proof. intros p. apply R_calls. Qed.

Ltac blind :=
  frame by first
    [ apply preserves_get_old_iteration_info; [exact _]
    | apply preserves_smoothing_job_single; [exact _]
    | apply preserves_smoothing_job_of_event; [exact _]
    | apply preserves_update_iteration_toml; [exact _ | exact R_disk]
    | apply preserves_get_job_name_lookup; [exact _ | exact R_disk]
    | apply preserves_any_backend_call ].

Lemma preserves_get_job event sim_type iteration :
  preserves R (get_job env event sim_type iteration).
Proof. unfold get_job, sapi_get_job, sapi_get_job_array. blind. Qed.

Lemma preserves_get_job_status event sim_type iteration :
  preserves R (get_job_status env event sim_type iteration).
Proof.
  unfold get_job_status.
  frame by first [ apply preserves_get_job | apply preserves_any_backend_call ].
Qed.

Lemma preserves_get_job_file_paths event sim_type :
  preserves R (get_job_file_paths env event sim_type).
Proof. unfold get_job_file_paths, sapi_get_job. blind. Qed.


Lemma preserves_delete_stored_wavefields iteration sim_type :
  preserves R (delete_stored_wavefields env iteration sim_type).
Proof.
  unfold delete_stored_wavefields.
  frame by first
    [ apply preserves_get_old_iteration_info; [exact _]
    | unfold delete_one, sapi_get_job; blind ].
Qed.

Lemma preserves_submit_smoothing_job event sim par :
  preserves R (submit_smoothing_job env event sim par).
Proof.
  intros p. unfold submit_smoothing_job, sapi_run_async, backend_call.
  rewrite (bind_run_ok get _ p p p eq_refl). unfold bind at 1.
  destruct (bk_run_async _ _ _ _ _ _); [|apply R_calls].
  unfold bind.
  destruct (change_attribute_smoothing_run env event par (NameIs a)
              (with_calls p (calls p ++ [RunAsync
                 (smoothing_site_name (config p)) sim
                 (smoothing_ranks (config p))
                 (smoothing_wall_time (config p))]))) as [e ->].
  apply R_calls.
Qed.
End BlindFrames.















(** The equivalence of C2 is kept by every call that does not generate a
    name. *)
#[local] Instance consistency_kept_preorder : PreOrder consistency_kept.
Proof.
  split.
  - intros p H. exact H.
  - intros p1 p2 p3 H12 H23 H1. by apply H23, H12.
Qed.











(** ** Bulk deletion *)

Lemma delete_one_round env iter_info sim_type event p :
  let site := site_name (config p) in
  exists p',
    config p' = config p /\
    match delete_round env site iter_info sim_type (calls p) event with
    | None =>
        delete_one env iter_info sim_type event p = (Ok tt, p') /\
        calls p' = calls p ++ delete_calls site iter_info sim_type event
    | Some (e, issued) =>
        delete_one env iter_info sim_type event p = (Raise e, p') /\
        calls p' = calls p ++ issued /\
        issued `prefix_of` delete_calls site iter_info sim_type event
    end.
Proof.
  intros site. unfold delete_one, delete_round, delete_calls, sapi_get_job.
  mrun. fold site.
  destruct (pd_get (it_events iter_info) event) as [e|].
  2: { exists p. split; [done|]. split; [done|].
       split; [by rewrite app_nil_r | by exists []]. }
  destruct (job_info e !! sim_type) as [r|].
  2: { exists p. split; [done|]. split; [done|].
       split; [by rewrite app_nil_r | by exists []]. }
  cbn [calls with_calls config]. fold site.
  destruct (bk_get_job env (calls p) site (name r)) as [[]|err].
  2: { eexists. split; [|split; [reflexivity|]]; [done|].
       split; [done | by eexists [_]]. }
  destruct (bk_delete env _ _) as [[]|err].
  - eexists. split; [|split; [reflexivity|]]; [done|].
    cbn. by rewrite <- app_assoc.
  - eexists. split; [|split; [reflexivity|]]; [done|].
    split; [cbn; by rewrite <- app_assoc | by exists []].
Qed.

Lemma delete_loop_rounds env iter_info sim_type events p res p' :
  for_each events (delete_one env iter_info sim_type) p = (res, p') ->
  let site := site_name (config p) in
  let calls_for := delete_calls site iter_info sim_type in
  let round done_ :=
    delete_round env site iter_info sim_type
      (calls p ++ flat_map calls_for done_) in
  match res with
  | Ok _ =>
      calls p' = calls p ++ flat_map calls_for events /\
      forall done_ event rest,
        events = done_ ++ event :: rest -> round done_ event = None
  | Raise e =>
      exists done_ failed rest issued,
        events = done_ ++ failed :: rest /\
        (forall d1 event d2,
           done_ = d1 ++ event :: d2 -> round d1 event = None) /\
        round done_ failed = Some (e, issued) /\
        issued `prefix_of` calls_for failed /\
        calls p' = calls p ++ flat_map calls_for done_ ++ issued
  end.
Proof.
  revert p. induction events as [|event events IH]; intros p; cbn [for_each].
  - intros [= <- <-]. cbv zeta. split; [by rewrite app_nil_r|].
    intros done_ event rest H. by destruct done_.
  - cbv zeta. unfold bind.
    destruct (delete_one_round env iter_info sim_type event p)
      as (p1 & Hc & Hround). cbv zeta in Hround.
    destruct (delete_round env (site_name (config p)) iter_info sim_type
                (calls p) event) as [[e issued]|] eqn:Hr.
    + destruct Hround as (-> & Hcalls & Hpre). intros [= <- <-].
      exists [], event, events, issued. cbn [flat_map app].
      rewrite app_nil_r. split; [done|]. split; [|done].
      intros d1 ev d2 H. by destruct d1.
    + destruct Hround as (-> & Hcalls). intros H. apply IH in H.
      cbv zeta in H. rewrite Hc, Hcalls in H.
      destruct res as [[]|e].
      * destruct H as [H Hall]. split.
        { rewrite H. cbn [flat_map]. by rewrite <- app_assoc. }
        intros done_ ev rest Hev. destruct done_ as [|d done_].
        { injection Hev as <- <-. cbn [flat_map]. by rewrite app_nil_r. }
        injection Hev as <- ->. cbn [flat_map]. rewrite app_assoc.
        by eapply Hall.
      * destruct H as (done_ & failed & rest & issued & -> & Hall & Hf & Hp
                       & H).
        exists (event :: done_), failed, rest, issued.
        split; [done|]. split; [|split; [|split; [done|]]].
        { intros d1 ev d2 Hev. destruct d1 as [|d d1].
          - injection Hev as <- _. cbn [flat_map]. by rewrite app_nil_r.
          - injection Hev as <- ->. cbn [flat_map]. rewrite app_assoc.
            by eapply Hall. }
        { cbn [flat_map]. by rewrite app_assoc. }
        rewrite H. cbn [flat_map]. by rewrite <- !app_assoc.
Qed.

(** C9, as the code has it.  [delete_stored_wavefields] walks the events
    of the iteration record in order and, for each, fetches the stored
    job and deletes it.  It has no handler and logs nothing: the first
    event whose record is missing, or whose job Salvus-Flow does not fetch
    or does not delete, makes the method raise that very exception, with
    the calls made so far and none for the events that come after.  It
    returns only when every job has been fetched and deleted. *)
Theorem delete_stored_wavefields_stops_at_first_failure
    env iteration sim_type p iter_info res p' :
  iteration_tomls (disk p) !! iteration_toml_path iteration = Some iter_info ->
  delete_stored_wavefields env iteration sim_type p = (res, p') ->
  let events := pd_keys (it_events iter_info) in
  let site := site_name (config p) in
  let calls_for := delete_calls site iter_info sim_type in
  let round done_ :=
    delete_round env site iter_info sim_type
      (calls p ++ flat_map calls_for done_) in
  match res with
  | Ok _ =>
      calls p' = calls p ++ flat_map calls_for events /\
      forall done_ event rest,
        events = done_ ++ event :: rest -> round done_ event = None
  | Raise e =>
      exists done_ failed rest issued,
        events = done_ ++ failed :: rest /\
        (forall d1 event d2,
           done_ = d1 ++ event :: d2 -> round d1 event = None) /\
        round done_ failed = Some (e, issued) /\
        issued `prefix_of` calls_for failed /\
        calls p' = calls p ++ flat_map calls_for done_ ++ issued
  end.
Proof.
  intros Hfile. unfold delete_stored_wavefields, get_old_iteration_info.
  mrun. rewrite Hfile. cbv beta iota. rewrite Hfile. cbv beta iota.
  intros H. by apply delete_loop_rounds in H.
Qed.

Lemma delete_stored_wavefields_stops_at_first_failure_witness :
  let p := past_project in
  let run := delete_stored_wavefields refusing_env "it0000_model" "forward" in
  let site := site_name (config p) in
  let calls_for := delete_calls site past_record "forward" in
  let round done_ :=
    delete_round refusing_env site past_record "forward"
      (calls p ++ flat_map calls_for done_) in
  let e := ExternalError "job-1 cannot be deleted" in
  (iteration_tomls (disk p) !! iteration_toml_path "it0000_model"
     = Some past_record /\
   run p = (Raise e, state_after run p)) /\
  exists done_ failed rest issued,
    pd_keys (it_events past_record) = done_ ++ failed :: rest /\
    (forall d1 event d2,
       done_ = d1 ++ event :: d2 -> round d1 event = None) /\
    round done_ failed = Some (e, issued) /\
    issued `prefix_of` calls_for failed /\
    calls (state_after run p) = calls p ++ flat_map calls_for done_ ++ issued.
Proof.
  intros p run site calls_for round e.
  assert (H1 : iteration_tomls (disk p) !! iteration_toml_path "it0000_model"
               = Some past_record) by (vm_compute; reflexivity).
  assert (H2 : run p = (Raise e, state_after run p))
    by (vm_compute; reflexivity).
  split; [by split|].
  exact (delete_stored_wavefields_stops_at_first_failure refusing_env
           "it0000_model" "forward" p past_record _ _ H1 H2).
Defined.

(** C9 as stated fails: the deletion of [job-1] is refused, the method
    raises, and the deletion of [job-2] is never asked for -- although the
    same site deletes [job-2] when asked. *)
Lemma failed_deletion_aborts_the_rest :
  let p := past_project in
  let run := delete_stored_wavefields refusing_env "it0000_model" "forward" in
  let job_2 := {| h_site := "daint"; h_name := "job-2"; h_array := false |} in
  outcome run p = Raise (ExternalError "job-1 cannot be deleted") /\
  calls (state_after run p)
    = [GetJob "daint" "job-1";
       DeleteJob {| h_site := "daint"; h_name := "job-1"; h_array := false |}]
  /\
  (DeleteJob job_2 ∉ calls (state_after run p)) /\
  bk_delete refusing_env (calls (state_after run p)) job_2 = Ok tt.
Proof.
  intros p run job_2.
  assert (Hcalls : calls (state_after run p)
            = [GetJob "daint" "job-1";
               DeleteJob {| h_site := "daint"; h_name := "job-1";
                            h_array := false |}])
    by (vm_compute; reflexivity).
  split; [vm_compute; reflexivity|]. split; [exact Hcalls|].
  split; [|reflexivity].
  rewrite Hcalls. intros Hin.
  apply elem_of_cons in Hin as [Hin|Hin]; [discriminate Hin|].
  apply elem_of_cons in Hin as [Hin|Hin]; [discriminate Hin|].
  by apply elem_of_nil in Hin.
Qed.

(** * Further properties *)

(** ** The arrangement of parameters *)

Lemma arrange_params_cases parameters arranged :
  arrange_params parameters = Ok arranged ->
  list_to_set arranged = (list_to_set parameters : gset string) /\
  arrange_params arranged = Ok arranged /\
  NoDup arranged.
Proof.
  unfold arrange_params. cbv zeta.
  repeat case_bool_decide; intros [= <-];
    (split; [|split; [by vm_compute | by apply (bool_decide_unpack _)]]);
    match goal with H : list_to_set parameters = _ |- _ => rewrite H end;
    by apply (bool_decide_unpack _).
Qed.

(** X1.  An accepted list of parameters is arranged into a list without
    repetitions that has exactly the parameters given. *)
Theorem arrange_params_same_parameters parameters arranged :
  arrange_params parameters = Ok arranged ->
  NoDup arranged /\ forall x, x ∈ arranged <-> x ∈ parameters.
Proof.
  intros (Hset & _ & Hnd)%arrange_params_cases. split; [exact Hnd|].
  intros x. rewrite <- (elem_of_list_to_set (C := gset string) x arranged).
  rewrite Hset. apply elem_of_list_to_set.
Qed.

Lemma arrange_params_same_parameters_witness :
  arrange_params ["RHO"; "VS"; "VP"; "VS"] = Ok ["RHO"; "VP"; "VS"] /\
  NoDup ["RHO"; "VP"; "VS"] /\
  forall x, x ∈ ["RHO"; "VP"; "VS"] <-> x ∈ ["RHO"; "VS"; "VP"; "VS"].
Proof.
  assert (H : arrange_params ["RHO"; "VS"; "VP"; "VS"]
              = Ok ["RHO"; "VP"; "VS"]) by (vm_compute; reflexivity).
  split; [exact H|].
  exact (arrange_params_same_parameters _ _ H).
Defined.

(** X2.  The arrangement depends on the parameters given only as a set:
    two lists with the same elements, in any order and with any
    repetitions, are arranged alike (or rejected alike). *)
Theorem arrange_params_order_insensitive parameters1 parameters2 :
  (forall x, x ∈ parameters1 <-> x ∈ parameters2) ->
  arrange_params parameters1 = arrange_params parameters2.
Proof.
  intros H. unfold arrange_params.
  replace (list_to_set parameters2 : gset string)
    with (list_to_set parameters1 : gset string); [done|].
  apply set_eq. intros x. rewrite !elem_of_list_to_set. apply H.
Qed.

Lemma arrange_params_order_insensitive_witness :
  (forall x, x ∈ ["VS"; "VP"] <-> x ∈ ["VP"; "VS"; "VP"]) /\
  arrange_params ["VS"; "VP"] = arrange_params ["VP"; "VS"; "VP"].
Proof.
  assert (H : forall x, x ∈ ["VS"; "VP"] <-> x ∈ ["VP"; "VS"; "VP"]).
  { intros x. rewrite !elem_of_cons, !elem_of_nil. tauto. }
  split; [exact H|].
  exact (arrange_params_order_insensitive _ _ H).
Defined.

(** X3.  Arranging is idempotent: an arranged list is accepted and is its
    own arrangement. *)
Theorem arrange_params_idempotent parameters arranged :
  arrange_params parameters = Ok arranged ->
  arrange_params arranged = Ok arranged.
Proof. by intros (_ & H & _)%arrange_params_cases. Qed.

Lemma arrange_params_idempotent_witness :
  arrange_params ["RHO"; "VSH"; "VSV"; "VPH"; "VPV"]
    = Ok ["VPV"; "VPH"; "VSV"; "VSH"; "RHO"] /\
  arrange_params ["VPV"; "VPH"; "VSV"; "VSH"; "RHO"]
    = Ok ["VPV"; "VPH"; "VSV"; "VSH"; "RHO"].
Proof.
  assert (H : arrange_params ["RHO"; "VSH"; "VSV"; "VPH"; "VPV"]
              = Ok ["VPV"; "VPH"; "VSV"; "VSH"; "RHO"])
    by (vm_compute; reflexivity).
  split; [exact H|].
  exact (arrange_params_idempotent _ _ H).
Defined.

(** ** Adjoint sources and the adjoint simulation *)

Lemma str_in_spec x l : str_in x l = true <-> x ∈ l.
Proof.
  unfold str_in. rewrite existsb_exists, list_elem_of_In. split.
  - intros (y & Hy & ->%String.eqb_eq). done.
  - intros H. exists x. split; [done|]. apply String.eqb_refl.
Qed.

(** X4.  Adjoint sources are built only for the receivers that have an
    adjoint source in the file, and for every such receiver: each source
    sits at the position of a receiver whose [network_station] key is in
    the file and reads the data set of that key from the adjoint file, and
    every receiver with a key in the file gets such a source.  The
    project is left unchanged. *)
Theorem adjoint_sources_match_the_file senv event_name p sources p' :
  get_adjoint_source_object senv event_name p = (Ok sources, p') ->
  p' = p /\
  exists receivers adjoint_filename adjoint_recs,
    get_receivers senv event_name = Ok receivers /\
    get_adjoint_source_file senv event_name (current_iteration (attrs p))
      = Ok adjoint_filename /\
    h5_keys senv adjoint_filename = Ok adjoint_recs /\
    length sources <= length receivers /\
    (forall s, s ∈ sources ->
       exists rec,
         rec ∈ receivers /\ station_key rec ∈ adjoint_recs /\
         src_latitude s = rec_latitude rec /\
         src_longitude s = rec_longitude rec /\
         source_time_function s
           = {| stf_filename := adjoint_filename;
                stf_dataset_name := "/" +:+ station_key rec |}) /\
    (forall rec, rec ∈ receivers -> station_key rec ∈ adjoint_recs ->
       exists s,
         s ∈ sources /\
         stf_dataset_name (source_time_function s)
           = "/" +:+ station_key rec).
Proof.
  unfold get_adjoint_source_object. intros H. monad_inv.
  split; [done|].
  match goal with
  | H1 : get_receivers _ _ = Ok ?rs, H2 : get_adjoint_source_file _ _ _ = Ok ?f,
    H3 : h5_keys _ _ = Ok ?ks |- _ => exists rs, f, ks
  end.
  repeat split; try done.
  - rewrite length_map. apply List.filter_length_le.
  - intros s (rec & -> & Hrec)%list_elem_of_fmap.
    apply list_elem_of_In, filter_In in Hrec as [Hrec Hkey].
    exists rec. rewrite <- str_in_spec, list_elem_of_In. done.
  - intros rec Hrec Hkey. eexists. split.
    + apply list_elem_of_fmap. exists rec. split; [reflexivity|].
      apply list_elem_of_In, filter_In. rewrite <- list_elem_of_In.
      by rewrite str_in_spec.
    + reflexivity.
Qed.

Lemma adjoint_sources_match_the_file_witness :
  let p := loaded_project in
  get_adjoint_source_object demo_senv "E1" p = (Ok demo_sources, p) /\
  p = p /\
  exists receivers adjoint_filename adjoint_recs,
    get_receivers demo_senv "E1" = Ok receivers /\
    get_adjoint_source_file demo_senv "E1" (current_iteration (attrs p))
      = Ok adjoint_filename /\
    h5_keys demo_senv adjoint_filename = Ok adjoint_recs /\
    length demo_sources <= length receivers /\
    (forall s, s ∈ demo_sources ->
       exists rec,
         rec ∈ receivers /\ station_key rec ∈ adjoint_recs /\
         src_latitude s = rec_latitude rec /\
         src_longitude s = rec_longitude rec /\
         source_time_function s
           = {| stf_filename := adjoint_filename;
                stf_dataset_name := "/" +:+ station_key rec |}) /\
    (forall rec, rec ∈ receivers -> station_key rec ∈ adjoint_recs ->
       exists s,
         s ∈ demo_sources /\
         stf_dataset_name (source_time_function s)
           = "/" +:+ station_key rec).
Proof.
  intros p.
  assert (H : get_adjoint_source_object demo_senv "E1" p = (Ok demo_sources, p))
    by (vm_compute; reflexivity).
  split; [exact H|].
  exact (adjoint_sources_match_the_file demo_senv "E1" p demo_sources p H).
Defined.

Lemma arranged_parameterization given arranged :
  arrange_params given = Ok arranged ->
  (str_in "VPV" arranged = true /\ "VPV" ∈ given) \/
  (str_in "VPV" arranged = false /\ str_in "VP" arranged = true /\
   "VPV" ∉ given).
Proof.
  unfold arrange_params. cbv zeta.
  assert (Hin : forall s : gset string,
            list_to_set given = s ->
            ("VPV" ∈ given <-> "VPV" ∈ s)).
  { intros s <-. by rewrite elem_of_list_to_set. }
  repeat case_bool_decide; intros [= <-];
    match goal with
    | H : list_to_set given = _ |- _ => apply Hin in H; rewrite H
    end;
    first [ left; split; [reflexivity|]; by apply (bool_decide_unpack _)
          | right; split; [reflexivity|]; split; [reflexivity|];
            by apply (bool_decide_unpack _) ].
Qed.

(** X5.  With inversion parameters that [arrange_params] accepted, the
    adjoint simulation always gets a parameterization: when LASIF has the
    mesh, the event has a forward record, Salvus-Flow knows the forward
    job and its output path, and the simulation validates, the method
    returns a simulation whose parameterization is [tti] if [VPV] is among
    the parameters and [rho-vp-vs] otherwise, whose forward meta file is
    [meta.json] in the output of the forward job, and whose point sources
    are the adjoint sources passed in.  It does not look at the
    [submitted] flag of the forward job. *)
Theorem adjoint_simulation_is_parameterized
    env senv given arranged event adj_src p mesh r path :
  arrange_params given = Ok arranged ->
  get_simulation_mesh senv event = Ok mesh ->
  forward_job (attrs p) !! event = Some r ->
  bk_get_job env (calls p) (site_name (config p)) (name r) = Ok tt ->
  let job := {| h_site := site_name (config p); h_name := name r;
                h_array := false |} in
  job_output_path senv job = Ok path ->
  (forall w, validate senv w = Ok tt) ->
  exists w,
    construct_adjoint_simulation env senv arranged event adj_src p
    = (Ok w, with_calls p (calls p ++ [GetJob (site_name (config p))
                                          (name r)])) /\
    parameterization w
      = (if bool_decide ("VPV" ∈ given) then "tti" else "rho-vp-vs") /\
    forward_meta_json_filename w = "REMOTE:" +:+ path_join path "meta.json" /\
    output_filename w = "gradient.h5" /\
    aw_mesh w = mesh /\
    point_source w = adj_src.
Proof.
  intros Harr Hmesh Hr Hjob job Hpath Hval.
  unfold construct_adjoint_simulation, sapi_get_job. mrun.
  rewrite Hmesh, Hr. cbv beta iota. rewrite Hjob. cbv beta iota.
  fold job. rewrite Hpath. cbv beta iota.
  destruct (arranged_parameterization given arranged Harr)
    as [[-> Hin] | (-> & -> & Hnin)]; cbv beta iota; rewrite Hval; cbv beta iota;
    eexists; (split; [reflexivity|]); cbn.
  - by rewrite bool_decide_eq_true_2.
  - by rewrite bool_decide_eq_false_2.
Qed.

Lemma adjoint_simulation_is_parameterized_witness :
  let p := submitted_project in
  let r := recorded (empty_job None) "job-abc" in
  let job := {| h_site := "daint"; h_name := "job-abc"; h_array := false |} in
  (arrange_params ["VS"; "VP"; "RHO"] = Ok ["RHO"; "VP"; "VS"] /\
   forward_job (attrs p) !! "E1" = Some r) /\
  exists w,
    construct_adjoint_simulation demo_env demo_senv ["RHO"; "VP"; "VS"] "E1"
      demo_sources p
    = (Ok w, with_calls p (calls p ++ [GetJob (site_name (config p))
                                          (name r)])) /\
    parameterization w
      = (if bool_decide ("VPV" ∈ ["VS"; "VP"; "RHO"]) then "tti"
         else "rho-vp-vs") /\
    forward_meta_json_filename w
      = "REMOTE:" +:+ path_join "/scratch/run/job-abc/output" "meta.json" /\
    output_filename w = "gradient.h5" /\
    aw_mesh w = "/lasif/MESHES/E1" /\
    point_source w = demo_sources.
Proof.
  intros p r job.
  assert (H1 : arrange_params ["VS"; "VP"; "RHO"] = Ok ["RHO"; "VP"; "VS"])
    by (vm_compute; reflexivity).
  assert (H2 : forward_job (attrs p) !! "E1" = Some r)
    by (vm_compute; reflexivity).
  split; [by split|].
  exact (adjoint_simulation_is_parameterized demo_env demo_senv
           ["VS"; "VP"; "RHO"] ["RHO"; "VP"; "VS"] "E1" demo_sources p
           "/lasif/MESHES/E1" r "/scratch/run/job-abc/output"
           H1 eq_refl H2 eq_refl eq_refl (fun _ => eq_refl)).
Defined.

(** ** Failing without a trace *)

Lemma atomic_ret {A} (a : A) : atomic (ret a).
Proof. intros p e p' [=]. Qed.

Lemma atomic_raise {A} e : atomic (@raise A e).
Proof. by intros p e' p' [= _ <-]. Qed.

Lemma atomic_read_only {A} (m : M A) : preserves read_only m -> atomic m.
Proof. intros Hm p e p' H. specialize (Hm p). by rewrite H in Hm. Qed.

Lemma atomic_bind {A B} (m : M A) (f : A -> M B) :
  preserves read_only m -> (forall a, atomic (f a)) -> atomic (bind m f).
Proof.
  intros Hm Hf p e p'. unfold bind. specialize (Hm p). unfold read_only in Hm.
  destruct (m p) as [[a|e'] p1]; cbn in Hm; subst p1.
  - apply Hf.
  - by intros [= _ <-].
Qed.

Lemma atomic_dump_control_group_toml cg : atomic (dump_control_group_toml cg).
Proof. intros p e p' [=]. Qed.

Lemma atomic_write_iteration_toml f d : atomic (write_iteration_toml f d).
Proof. intros p e p' [=]. Qed.

Lemma update_control_group_toml_atomic env new first :
  atomic (update_control_group_toml env new first).
Proof.
  unfold update_control_group_toml.
  apply atomic_bind; [frame|]. intros p.
  destruct first; [apply atomic_dump_control_group_toml|].
  apply atomic_bind; [frame|]. intros cg.
  apply atomic_bind; [frame|]. intros cg1.
  apply atomic_bind; [frame|]. intros cg2.
  apply atomic_dump_control_group_toml.
Qed.

(** ** More on the control-group ledger *)

(** X6.  [update_control_group_toml] is all or nothing: whenever it raises,
    the ledger and everything else are as they were.  Without a ledger
    file it raises [FileNotFoundError] unless [first] is true, and the
    start-of-iteration call raises [KeyError] when the previous iteration
    has no entry in the ledger. *)
Theorem update_control_group_toml_fails_cleanly env new first p :
  (forall e p',
     update_control_group_toml env new first p = (Raise e, p') -> p' = p) /\
  (control_group_toml (disk p) = None -> first = false ->
   update_control_group_toml env new first p
   = (Raise (FileNotFoundError "control_groups.toml"), p)) /\
  (forall cg prev,
     control_group_toml (disk p) = Some cg ->
     get_previous_iteration_name env = Ok prev ->
     prev <> current_iteration (attrs p) -> cg !! prev = None ->
     new = false -> first = false ->
     update_control_group_toml env new first p = (Raise (KeyError prev), p)).
Proof.
  split; [|split].
  - intros e p'. apply update_control_group_toml_atomic.
  - intros Hnone ->. unfold update_control_group_toml. mrun. by rewrite Hnone.
  - intros cg prev Hcg Hprev Hne Hnone -> ->.
    unfold update_control_group_toml. mrun. rewrite Hcg. mrun. rewrite Hprev.
    mrun. rewrite lookup_insert_ne by done. by rewrite Hnone.
Qed.

Lemma update_control_group_toml_fails_cleanly_witness :
  let p := unledgered_project in
  (control_group_toml (disk p) = None /\
   update_control_group_toml demo_env true false p
   = (Raise (FileNotFoundError "control_groups.toml"), p)) /\
  (let p := loaded_project in
   exists cg,
     control_group_toml (disk p) = Some cg /\
     cg !! "it0007_model" = None /\
     update_control_group_toml
       (with_previous demo_env (Ok "it0007_model")) false false p
     = (Raise (KeyError "it0007_model"), p)).
Proof.
  intros p. split.
  - split; [reflexivity|].
    exact (proj1 (proj2 (update_control_group_toml_fails_cleanly demo_env true
                           false p)) eq_refl eq_refl).
  - intros q. eexists. split; [reflexivity|]. split; [reflexivity|].
    refine (proj2 (proj2 (update_control_group_toml_fails_cleanly
                            (with_previous demo_env (Ok "it0007_model")) false
                            false q)) _ "it0007_model" eq_refl eq_refl _ _
              eq_refl eq_refl).
    + discriminate.
    + reflexivity.
Defined.

Lemma update_control_group_toml_commit env p p' :
  update_control_group_toml env true false p = (Ok tt, p') <->
  exists cg,
    control_group_toml (disk p) = Some cg /\
    p' = with_disk p
           {| iteration_tomls := iteration_tomls (disk p);
              control_group_toml :=
                Some (<[current_iteration (attrs p) :=
                          <["new" := new_control_group (attrs p)]>
                            (default ∅ (cg !! current_iteration (attrs p)))]>
                        cg) |}.
Proof.
  unfold update_control_group_toml. mrun. split.
  - destruct (control_group_toml (disk p)) as [cg|] eqn:Hcg; [|discriminate].
    cbv beta iota.
    destruct (cg !! current_iteration (attrs p)) as [entry|] eqn:He;
      cbv beta iota.
    + rewrite He. intros [= <-]. exists cg. split; [done|]. by rewrite He.
    + rewrite lookup_insert_eq. intros [= <-]. exists cg. split; [done|].
      by rewrite He, insert_insert_eq.
  - intros (cg & Hcg & ->). rewrite Hcg. cbv beta iota.
    destruct (cg !! current_iteration (attrs p)) as [entry|] eqn:He;
      cbv beta iota.
    + by rewrite ?He.
    + by rewrite lookup_insert_eq, ?He, insert_insert_eq.
Qed.

(** X7.  Committing a control group ([new=True]) needs nothing but the
    ledger file: it records the in-memory [new_control_group] as the
    ["new"] group of the current iteration, keeps the ["old"] group of
    that iteration if it has one, keeps the entries of all other
    iterations, and touches nothing else.  For an iteration that has no
    entry yet it creates one that has a ["new"] group but no ["old"]
    one. *)
Theorem commit_records_new_control_group env p cg :
  control_group_toml (disk p) = Some cg ->
  let current := current_iteration (attrs p) in
  exists p' cg' entry,
    update_control_group_toml env true false p = (Ok tt, p') /\
    control_group_toml (disk p') = Some cg' /\
    cg' !! current = Some entry /\
    entry !! "new" = Some (new_control_group (attrs p)) /\
    entry !! "old" = (cg !! current) ≫= (fun old_entry => old_entry !! "old") /\
    (forall iteration, iteration <> current -> cg' !! iteration = cg !! iteration)
    /\
    iteration_tomls (disk p') = iteration_tomls (disk p) /\
    attrs p' = attrs p /\ calls p' = calls p.
Proof.
  intros Hcg current. eexists _, _, _. split.
  { apply update_control_group_toml_commit. exists cg. split; [exact Hcg|].
    reflexivity. }
  cbn. split; [reflexivity|]. split; [apply lookup_insert_eq|].
  split; [apply lookup_insert_eq|]. split.
  { rewrite lookup_insert_ne by done.
    fold current. by destruct (cg !! current). }
  split; [|done]. intros iteration Hne. by rewrite lookup_insert_ne.
Qed.

Lemma commit_records_new_control_group_witness :
  let p := committing_project in
  control_group_toml (disk p) = Some demo_ledger /\
  exists p' cg' entry,
    update_control_group_toml demo_env true false p = (Ok tt, p') /\
    control_group_toml (disk p') = Some cg' /\
    cg' !! "it0001_model" = Some entry /\
    entry !! "new" = Some ["E2"] /\
    entry !! "old"
      = (demo_ledger !! "it0001_model") ≫= (fun old_entry => old_entry !! "old")
    /\
    (forall iteration, iteration <> "it0001_model" ->
       cg' !! iteration = demo_ledger !! iteration) /\
    iteration_tomls (disk p') = iteration_tomls (disk p) /\
    attrs p' = attrs p /\ calls p' = calls p.
Proof.
  intros p. split; [reflexivity|].
  exact (commit_records_new_control_group demo_env p demo_ledger eq_refl).
Defined.

Lemma update_control_group_toml_first env new p :
  update_control_group_toml env new true p
  = (Ok tt,
     with_disk p
       {| iteration_tomls := iteration_tomls (disk p);
          control_group_toml :=
            Some {[ current_iteration (attrs p) :=
                      {[ "old" := []; "new" := [] ]} ]} |}).
Proof. reflexivity. Qed.

(** X8.  The three calls of the ledger compose into a chain.  After the
    ledger is created in one iteration ([first=True]), a control group is
    committed for that iteration ([new=True]) and the next iteration is
    started ([new=False]), the ledger holds exactly two entries: the first
    iteration with an empty ["old"] group and the committed group as
    ["new"], and the next iteration with the committed group as ["old"]
    and an empty ["new"] group. *)
Theorem ledger_chains_committed_group env new0 group p0 p1 p2 :
  let first_iteration := current_iteration (attrs p0) in
  disk p1 = disk (state_after (update_control_group_toml env new0 true) p0) ->
  current_iteration (attrs p1) = first_iteration ->
  new_control_group (attrs p1) = group ->
  disk p2 = disk (state_after (update_control_group_toml env true false) p1) ->
  current_iteration (attrs p2) <> first_iteration ->
  get_previous_iteration_name env = Ok first_iteration ->
  outcome (update_control_group_toml env false false) p2 = Ok tt /\
  control_group_toml
    (disk (state_after (update_control_group_toml env false false) p2))
  = Some (<[current_iteration (attrs p2) := {[ "old" := group; "new" := [] ]}]>
            {[ first_iteration := {[ "old" := []; "new" := group ]} ]}).
Proof.
  intros it0 Hd1 Hc1 Hg Hd2 Hc2 Hprev.
  unfold state_after in Hd1. rewrite update_control_group_toml_first in Hd1.
  cbn in Hd1.
  assert (Hcommit : exists p', update_control_group_toml env true false p1
                               = (Ok tt, p')).
  { eexists. apply update_control_group_toml_commit. eexists.
    split; [by rewrite Hd1|reflexivity]. }
  destruct Hcommit as [p1' Hcommit]. unfold state_after in Hd2.
  rewrite Hcommit in Hd2. cbn in Hd2.
  apply update_control_group_toml_commit in Hcommit
    as (cg1 & Hcg1 & ->). rewrite Hd1 in Hcg1. cbn in Hcg1.
  injection Hcg1 as <-. cbn in Hd2. rewrite Hc1, Hg in Hd2. fold it0 in Hd2.
  rewrite lookup_singleton_eq in Hd2. cbn in Hd2.
  rewrite insert_singleton_eq in Hd2.
  assert (Hstart : update_control_group_toml env false false p2
            = (Ok tt,
               with_disk p2
                 {| iteration_tomls := iteration_tomls (disk p2);
                    control_group_toml :=
                      Some (<[current_iteration (attrs p2) :=
                                {[ "old" := group; "new" := [] ]}]>
                              {[ it0 := {[ "old" := []; "new" := group ]} ]})
                 |})).
  { apply update_control_group_toml_start.
    eexists _, it0, _, group. split; [by rewrite Hd2|].
    split; [exact Hprev|]. split; [done|].
    split; [apply lookup_singleton_eq|]. split; [reflexivity|]. reflexivity. }
  unfold outcome, state_after. rewrite Hstart. done.
Qed.

Lemma ledger_chains_committed_group_witness :
  outcome (update_control_group_toml demo_env false false) ledger_next_project
    = Ok tt /\
  control_group_toml
    (disk (state_after (update_control_group_toml demo_env false false)
             ledger_next_project))
  = Some (<["it0001_model" := {[ "old" := ["E1"]; "new" := [] ]}]>
            {[ "it0000_model" := {[ "old" := []; "new" := ["E1"] ]} ]}).
Proof.
  refine (ledger_chains_committed_group demo_env false ["E1"]
            ledger_start_project ledger_commit_project ledger_next_project
            eq_refl eq_refl eq_refl eq_refl _ eq_refl).
  discriminate.
Defined.

(** ** More on saving the iteration record *)

Lemma saved_event_entry_ok p validation d event p0 d' p1 :
  saved_event_entry p validation d event p0 = (Ok d', p1) ->
  p1 = p0 /\
  exists entry, saved_as p validation event entry /\ d' = pd_set d event entry.
Proof.
  unfold saved_event_entry, saved_as. intros H.
  apply bind_ok in H as (f & q & Hf & H). apply getitem_ok in Hf as [Hf ->].
  destruct validation; cbn [negb] in H.
  - destruct (inversion_mode (config p)); monad_inv; (split; [done|]);
      eexists; (split; [exists f; split; [done|reflexivity] | reflexivity]).
  - apply bind_ok in H as (jobs1 & q & Hj1 & H).
    apply bind_ok in Hj1 as (a & q1 & Ha & Hj1).
    apply getitem_ok in Ha as [Ha ->]. injection Hj1 as <- <-.
    destruct (inversion_mode (config p)) eqn:Hmode.
    + apply bind_ok in H as (jobs2 & q & Hj2 & H).
      apply bind_ok in Hj2 as (s & q1 & Hs & Hj2).
      apply smoothing_job_of_event_ok in Hs as [(per_event & Hpe & Hs) ->].
      injection Hj2 as <- <-. monad_inv. split; [done|].
      eexists. split; [|reflexivity].
      exists f. split; [done|]. eexists a, _, _. repeat split; try done.
      exists per_event, s. repeat split; try done.
    + monad_inv. split; [done|]. eexists. split; [|reflexivity].
      exists f. split; [done|]. eexists a, _, _. repeat split; done.
Qed.

Lemma saved_events_ok p validation events d0 p0 d p1 :
  fold_m events (saved_event_entry p validation) d0 p0 = (Ok d, p1) ->
  p1 = p0 /\
  (forall event, event ∈ events ->
     exists entry, saved_as p validation event entry /\
                   pd_get d event = Some entry) /\
  (forall event, event ∉ events -> pd_get d event = pd_get d0 event).
Proof.
  revert d0. induction events as [|e events IH]; intros d0; cbn [fold_m].
  - intros [= <- <-]. split; [done|]. split; [|done].
    intros event Hin. by apply elem_of_nil in Hin.
  - intros H. apply bind_ok in H as (d1 & q & H1 & H).
    apply saved_event_entry_ok in H1 as [-> (entry & Hentry & ->)].
    apply IH in H as (-> & Hin & Hnin). split; [done|]. split.
    + intros event Hevent. destruct (decide (event ∈ events)) as [Hi|Hn].
      * by apply Hin.
      * apply elem_of_cons in Hevent as [-> | Hevent]; [|done].
        exists entry. split; [done|]. rewrite Hnin by done.
        apply pd_get_set_eq.
    + intros event Hevent. apply not_elem_of_cons in Hevent as [Hne Hevent].
      rewrite Hnin by done. by apply pd_get_set_ne.
Qed.

(** What a save that returns has done. *)
Lemma update_iteration_toml_ok env iteration validation p p' :
  update_iteration_toml env iteration validation p = (Ok tt, p') ->
  let name := resolved_iteration p iteration validation in
  let val := resolved_validation p iteration validation in
  is_Some (iteration_tomls (disk p) !! iteration_toml_path name) /\
  (is_mono_batch p && negb val = false) /\
  exists events d,
    list_events env name = Ok events /\
    p' = with_disk p
           {| iteration_tomls :=
                <[iteration_toml_path name := d]> (iteration_tomls (disk p));
              control_group_toml := control_group_toml (disk p) |} /\
    it_name d = name /\ it_smoothing d = None /\
    (forall event, event ∈ events ->
       exists entry, saved_as p val event entry /\
                     pd_get (it_events d) event = Some entry) /\
    (forall event, event ∉ events -> pd_get (it_events d) event = None) /\
    (if val then
       it_last_control_group d = None /\ it_new_control_group d = None
     else
       exists entry,
         ledger_entry p name = Some entry /\
         it_last_control_group d = entry !! "old" /\
         it_new_control_group d = entry !! "new" /\
         is_Some (entry !! "old") /\ is_Some (entry !! "new")).
Proof.
  intros H name val. unfold update_iteration_toml in H.
  apply bind_ok in H as (p0 & q & [= <- <-] & H). cbv zeta in H.
  fold name val in H.
  apply bind_ok in H as (exists_ & q & Hex & H).
  unfold path_exists in Hex. cbn in Hex. injection Hex as <- <-.
  unfold has_key in H.
  destruct (iteration_tomls (disk p) !! iteration_toml_path name) as [old|]
    eqn:Hfile; cbn [negb] in H; [|discriminate].
  split; [by eexists|].
  apply bind_ok in H as (cg_exists & q & Hcg & H).
  unfold control_group_exists in Hcg. cbn in Hcg. injection Hcg as <- <-.
  apply bind_ok in H as (cgd & q & Hcgd & H).
  assert (Hentry : val = false -> ledger_entry p name = Some cgd /\ q = p).
  { intros Hv. rewrite Hv in Hcgd. unfold ledger_entry.
    destruct (control_group_toml (disk p)) as [cg|] eqn:Hl; cbn in Hcgd.
    - apply bind_ok in Hcgd as (cg' & q' & Hload & Hget).
      apply load_control_group_toml_ok in Hload as [Hload ->].
      apply getitem_ok in Hget as [Hget ->]. by simplify_eq.
    - by injection Hcgd as <- <-. }
  assert (Hq : q = p).
  { destruct val; [|by apply Hentry].
    rewrite andb_false_r in Hcgd. by injection Hcgd as _ <-. }
  subst q.
  apply bind_ok in H as (groups & q & Hgroups & H).
  assert (Hg : q = p /\
    if val then groups = (None, None)
    else exists entry, ledger_entry p name = Some entry /\
                       groups = (entry !! "old", entry !! "new") /\
                       is_Some (entry !! "old") /\ is_Some (entry !! "new")).
  { destruct val; cbn [negb] in Hgroups.
    - by injection Hgroups as <- <-.
    - destruct (Hentry eq_refl) as [He _]. monad_inv. split; [done|].
      exists cgd. split; [done|]. split; [congruence|]. by split; eexists. }
  destruct Hg as [-> Hg].
  apply bind_ok in H as (events & q & Hev & H).
  apply lift_ok in Hev as [Hev ->].
  apply bind_ok in H as (it_events & q & Hfold & H).
  apply saved_events_ok in Hfold as (-> & Hin & Hnin).
  apply bind_ok in H as ([] & q & Hmono & H).
  assert (Hm : is_mono_batch p && negb val = false /\ q = p).
  { destruct (is_mono_batch p && negb val); [|by injection Hmono as <-].
    cbn in Hmono. discriminate Hmono. }
  destruct Hm as [Hm ->]. split; [exact Hm|].
  unfold write_iteration_toml in H. cbn in H. injection H as <-.
  eexists events, _. split; [done|]. split; [reflexivity|]. cbn.
  repeat split; try done.
  destruct val.
  - by subst groups.
  - destruct Hg as (entry & He & -> & Ho & Hn). by exists entry.
Qed.

Lemma update_iteration_toml_atomic env iteration validation :
  atomic (update_iteration_toml env iteration validation).
Proof.
  unfold update_iteration_toml.
  apply atomic_bind; [frame|]. intros p. cbv zeta.
  apply atomic_bind; [frame|]. intros exists_.
  destruct (negb exists_); [apply atomic_raise|].
  apply atomic_bind; [frame|]. intros cg_exists.
  apply atomic_bind; [frame|]. intros cgd.
  apply atomic_bind; [frame|]. intros groups.
  apply atomic_bind; [frame|]. intros events.
  apply atomic_bind.
  { frame by (apply preserves_saved_event_entry; [exact _]). }
  intros it_events.
  apply atomic_bind; [frame|]. intros _.
  apply atomic_write_iteration_toml.
Qed.

(** X9.  A save never creates a record and is all or nothing: when
    [update_iteration_toml] raises, nothing has changed; when it returns,
    the file of the iteration existed before and is the only thing that
    changed; and when that file does not exist it raises
    [InversionsonError]. *)
Theorem update_iteration_toml_rewrites_one_file
    env iteration validation p res p' :
  update_iteration_toml env iteration validation p = (res, p') ->
  let file :=
    iteration_toml_path (resolved_iteration p iteration validation) in
  (iteration_tomls (disk p) !! file = None ->
   exists msg, res = Raise (InversionsonError msg)) /\
  match res with
  | Raise _ => p' = p
  | Ok _ =>
      is_Some (iteration_tomls (disk p) !! file) /\
      exists d,
        p' = with_disk p
               {| iteration_tomls := <[file := d]> (iteration_tomls (disk p));
                  control_group_toml := control_group_toml (disk p) |}
  end.
Proof.
  intros H file. split.
  - intros Hnone. revert H. unfold update_iteration_toml. mrun.
    fold file. rewrite Hnone. intros [= <- _]. by eexists.
  - destruct res as [[]|e].
    + apply update_iteration_toml_ok in H
        as (Hfile & _ & events & d & _ & -> & _). split; [exact Hfile|].
      by exists d.
    + by apply update_iteration_toml_atomic in H.
Qed.

Lemma update_iteration_toml_rewrites_one_file_witness :
  let p := loaded_project in
  let p' := state_after (update_iteration_toml demo_env "current" false) p in
  update_iteration_toml demo_env "current" false p = (Ok tt, p') /\
  let file := iteration_toml_path (resolved_iteration p "current" false) in
  (iteration_tomls (disk p) !! file = None ->
   exists msg, Ok tt = Raise (InversionsonError msg)) /\
  is_Some (iteration_tomls (disk p) !! file) /\
  exists d,
    p' = with_disk p
           {| iteration_tomls := <[file := d]> (iteration_tomls (disk p));
              control_group_toml := control_group_toml (disk p) |}.
Proof.
  intros p p'.
  assert (H : update_iteration_toml demo_env "current" false p = (Ok tt, p'))
    by (vm_compute; reflexivity).
  split; [exact H|].
  exact (update_iteration_toml_rewrites_one_file demo_env "current" false p
           (Ok tt) p' H).
Defined.

(** X10.  In mini-batch mode a save of a non-validation iteration that
    returns has written the in-memory state: for every event of the
    catalog the forward, adjoint and smoothing records, the misfit and the
    [usage_updated] flag held in memory, and for no other event.  The two
    control groups are not taken from memory but from the ledger entry of
    the iteration (empty groups if there is no ledger file), and no
    top-level smoothing record is written. *)
Theorem save_writes_memory_and_ledger env iteration validation p p' :
  inversion_mode (config p) = MiniBatch ->
  resolved_validation p iteration validation = false ->
  update_iteration_toml env iteration validation p = (Ok tt, p') ->
  let name := resolved_iteration p iteration validation in
  exists events d ledger,
    list_events env name = Ok events /\
    iteration_tomls (disk p') !! iteration_toml_path name = Some d /\
    it_name d = name /\ it_smoothing d = None /\
    ledger_entry p name = Some ledger /\
    it_last_control_group d = ledger !! "old" /\
    it_new_control_group d = ledger !! "new" /\
    (forall event, event ∈ events ->
       exists f a s m u per_event,
         forward_job (attrs p) !! event = Some f /\
         adjoint_job (attrs p) !! event = Some a /\
         smoothing_job (attrs p) = SmoothPerEvent per_event /\
         per_event !! event = Some s /\
         misfits (attrs p) !! event = Some m /\
         updated (attrs p) !! event = Some u /\
         pd_get (it_events d) event
           = Some {| job_info := {[ "forward" := f; "adjoint" := a;
                                    "smoothing" := s ]};
                     misfit := Some m; usage_updated := Some u |}) /\
    (forall event, event ∉ events -> pd_get (it_events d) event = None).
Proof.
  intros Hmode Hval H name.
  apply update_iteration_toml_ok in H
    as (_ & _ & events & d & Hev & -> & Hname & Hsm & Hin & Hnin & Hgroups).
  fold name in Hev, Hname, Hin, Hnin, Hgroups |- *.
  rewrite Hval in Hin, Hgroups.
  destruct Hgroups as (ledger & Hl & Hold & Hnew & _ & _).
  exists events, d, ledger. split; [done|].
  split; [cbn; apply lookup_insert_eq|]. repeat split; try done.
  intros event Hevent.
  destruct (Hin event Hevent) as (entry & (f & Hf & a & m & u & Ha & Hm & Hu & He)
                                    & Hget).
  rewrite Hmode in He. destruct He as (per_event & s & Hpe & Hs & ->).
  by exists f, a, s, m, u, per_event.
Qed.

Lemma save_writes_memory_and_ledger_witness :
  let p := submitted_project in
  let p' := state_after (update_iteration_toml demo_env "current" false) p in
  (inversion_mode (config p) = MiniBatch /\
   resolved_validation p "current" false = false /\
   update_iteration_toml demo_env "current" false p = (Ok tt, p')) /\
  let name := resolved_iteration p "current" false in
  exists events d ledger,
    list_events demo_env name = Ok events /\
    iteration_tomls (disk p') !! iteration_toml_path name = Some d /\
    it_name d = name /\ it_smoothing d = None /\
    ledger_entry p name = Some ledger /\
    it_last_control_group d = ledger !! "old" /\
    it_new_control_group d = ledger !! "new" /\
    (forall event, event ∈ events ->
       exists f a s m u per_event,
         forward_job (attrs p) !! event = Some f /\
         adjoint_job (attrs p) !! event = Some a /\
         smoothing_job (attrs p) = SmoothPerEvent per_event /\
         per_event !! event = Some s /\
         misfits (attrs p) !! event = Some m /\
         updated (attrs p) !! event = Some u /\
         pd_get (it_events d) event
           = Some {| job_info := {[ "forward" := f; "adjoint" := a;
                                    "smoothing" := s ]};
                     misfit := Some m; usage_updated := Some u |}) /\
    (forall event, event ∉ events -> pd_get (it_events d) event = None).
Proof.
  intros p p'.
  assert (H : update_iteration_toml demo_env "current" false p = (Ok tt, p'))
    by (vm_compute; reflexivity).
  split; [by repeat split|].
  exact (save_writes_memory_and_ledger demo_env "current" false p p'
           eq_refl eq_refl H).
Defined.

Lemma resolved_iteration_validation p iteration validation :
  resolved_validation p iteration validation = true ->
  contains "validation" (resolved_iteration p iteration validation) = true.
Proof.
  unfold resolved_iteration. intros Hv. rewrite Hv. cbn [andb].
  clear Hv.
  set (it := if String.eqb iteration "current"
             then current_iteration (attrs p) else iteration).
  destruct (contains "validation" it) eqn:Hc; cbn [negb]; [exact Hc|].
  reflexivity.
Qed.

(** X11.  A validation iteration is saved in either inversion mode, under
    a name that contains [validation] (the prefix [validation_] is added
    when [validation=True] is passed with a plain iteration name): the
    record written has, for every event of the catalog, the forward
    record held in memory and nothing else -- no adjoint or smoothing
    record, no misfit, no control groups. *)
Theorem validation_save_writes_forward_jobs env iteration validation p p' :
  resolved_validation p iteration validation = true ->
  update_iteration_toml env iteration validation p = (Ok tt, p') ->
  let name := resolved_iteration p iteration validation in
  contains "validation" name = true /\
  exists events d,
    list_events env name = Ok events /\
    iteration_tomls (disk p') !! iteration_toml_path name = Some d /\
    it_name d = name /\
    it_last_control_group d = None /\ it_new_control_group d = None /\
    it_smoothing d = None /\
    (forall event, event ∈ events ->
       exists f,
         forward_job (attrs p) !! event = Some f /\
         pd_get (it_events d) event
           = Some {| job_info := {[ "forward" := f ]}; misfit := None;
                     usage_updated := None |}) /\
    (forall event, event ∉ events -> pd_get (it_events d) event = None).
Proof.
  intros Hval H name. split; [by apply resolved_iteration_validation|].
  apply update_iteration_toml_ok in H
    as (_ & _ & events & d & Hev & -> & Hname & Hsm & Hin & Hnin & Hgroups).
  fold name in Hev, Hname, Hin, Hnin, Hgroups |- *.
  rewrite Hval in Hin, Hgroups. destruct Hgroups as [Hold Hnew].
  exists events, d. split; [done|].
  split; [cbn; apply lookup_insert_eq|]. repeat split; try done.
  intros event Hevent.
  destruct (Hin event Hevent) as (entry & (f & Hf & ->) & Hget).
  by exists f.
Qed.

Lemma validation_save_writes_forward_jobs_witness :
  let p := validation_project in
  let p' := state_after (update_iteration_toml demo_env "current" false) p in
  (inversion_mode (config p) = MonoBatch /\
   resolved_validation p "current" false = true /\
   update_iteration_toml demo_env "current" false p = (Ok tt, p')) /\
  let name := resolved_iteration p "current" false in
  contains "validation" name = true /\
  exists events d,
    list_events demo_env name = Ok events /\
    iteration_tomls (disk p') !! iteration_toml_path name = Some d /\
    it_name d = name /\
    it_last_control_group d = None /\ it_new_control_group d = None /\
    it_smoothing d = None /\
    (forall event, event ∈ events ->
       exists f,
         forward_job (attrs p) !! event = Some f /\
         pd_get (it_events d) event
           = Some {| job_info := {[ "forward" := f ]}; misfit := None;
                     usage_updated := None |}) /\
    (forall event, event ∉ events -> pd_get (it_events d) event = None).
Proof.
  intros p p'.
  assert (H : update_iteration_toml demo_env "current" false p = (Ok tt, p'))
    by (vm_compute; reflexivity).
  split; [by repeat split|].
  exact (validation_save_writes_forward_jobs demo_env "current" false p p'
           eq_refl H).
Defined.

(** X12.  A non-validation iteration cannot be saved before its ledger
    entry exists: with a ledger file that has no entry for the iteration,
    the save raises [KeyError] with the iteration name and changes
    nothing. *)
Theorem save_needs_the_ledger_entry env iteration validation p cg old :
  resolved_validation p iteration validation = false ->
  let name := resolved_iteration p iteration validation in
  iteration_tomls (disk p) !! iteration_toml_path name = Some old ->
  control_group_toml (disk p) = Some cg ->
  cg !! name = None ->
  update_iteration_toml env iteration validation p = (Raise (KeyError name), p).
Proof.
  intros Hval name Hfile Hcg Hnone. unfold update_iteration_toml. mrun.
  fold name. rewrite Hval, Hfile. cbv beta iota. rewrite Hcg. cbv beta iota.
  rewrite Hcg. cbv beta iota. by rewrite Hnone.
Qed.

Lemma save_needs_the_ledger_entry_witness :
  let p := unstarted_project in
  exists old,
    (resolved_validation p "current" false = false /\
     iteration_tomls (disk p) !! iteration_toml_path "it0001_model" = Some old
     /\
     control_group_toml (disk p) = Some demo_ledger /\
     demo_ledger !! "it0001_model" = None) /\
    update_iteration_toml demo_env "current" false p
    = (Raise (KeyError "it0001_model"), p).
Proof.
  intros p. eexists.
  assert (H : iteration_tomls (disk p) !! iteration_toml_path "it0001_model"
              = Some (fresh_it_dict p "it0001_model" false ["E1"]
                        ["E1"; "E2"])) by (vm_compute; reflexivity).
  split; [by repeat split|].
  exact (save_needs_the_ledger_entry demo_env "current" false p demo_ledger _
           eq_refl H eq_refl eq_refl).
Defined.

(** ** Loading the iteration record *)

Lemma lookup_step {V} (F : string -> option V) (m m' : gmap string V)
    k ks v :
  F k = Some v ->
  (forall e, m' !! e = if decide (e ∈ ks) then F e else <[k := v]> m !! e) ->
  forall e, m' !! e = if decide (e ∈ k :: ks) then F e else m !! e.
Proof.
  intros HF H e. rewrite H. destruct (decide (e ∈ ks)) as [Hin|Hnin].
  - rewrite decide_True; [done | by right].
  - destruct (decide (e = k)) as [->|Hne].
    + rewrite lookup_insert_eq, decide_True; [done | by left].
    + rewrite lookup_insert_ne by done.
      rewrite decide_False; [done | by intros [?|?]%elem_of_cons].
Qed.

Lemma load_event_run d event p x :
  pd_get (it_events d) event = Some x ->
  complete_entry (inversion_mode (config p)) x ->
  exists a1,
    load_event d event p = (Ok tt, with_attrs p a1) /\
    current_iteration a1 = current_iteration (attrs p) /\
    events_in_iteration a1 = events_in_iteration (attrs p) /\
    old_control_group a1 = old_control_group (attrs p) /\
    new_control_group a1 = new_control_group (attrs p) /\
    (exists v, job_info x !! "forward" = Some v /\
               forward_job a1 = <[event := v]> (forward_job (attrs p))) /\
    (exists v, job_info x !! "adjoint" = Some v /\
               adjoint_job a1 = <[event := v]> (adjoint_job (attrs p))) /\
    (exists v, misfit x = Some v /\
               misfits a1 = <[event := v]> (misfits (attrs p))) /\
    (exists v, usage_updated x = Some v /\
               updated a1 = <[event := v]> (updated (attrs p))) /\
    match inversion_mode (config p) with
    | MiniBatch =>
        exists v, job_info x !! "smoothing" = Some v /\
                  smoothing_job a1
                  = smoothing_insert (smoothing_job (attrs p)) event v
    | MonoBatch => smoothing_job a1 = smoothing_job (attrs p)
    end.
Proof.
  intros Hx ([u Hu] & [m Hm] & [aj Haj] & [fj Hfj] & Hsm).
  unfold load_event. mrun. rewrite Hx. cbv beta iota.
  rewrite Hu. cbv beta iota. rewrite Hm. cbv beta iota.
  rewrite Haj. cbv beta iota. cbn [config with_attrs].
  destruct (inversion_mode (config p)) eqn:Hmode.
  - destruct (Hsm eq_refl) as [sj Hsj]. rewrite Hsj. cbv beta iota.
    rewrite Hfj. cbv beta iota.
    eexists. split; [reflexivity|]. cbn. repeat split; eauto.
  - cbv beta iota. rewrite Hfj. cbv beta iota.
    eexists. split; [reflexivity|]. cbn. repeat split; eauto.
Qed.

Lemma load_loop d ks p :
  (forall k, k ∈ ks ->
     exists x, pd_get (it_events d) k = Some x /\
               complete_entry (inversion_mode (config p)) x) ->
  exists a',
    for_each ks (load_event d) p = (Ok tt, with_attrs p a') /\
    loaded_from d (inversion_mode (config p)) ks (attrs p) a'.
Proof.
  revert p. induction ks as [|k ks IH]; intros p Hks; cbn [for_each].
  - exists (attrs p). split; [by destruct p|].
    unfold loaded_from. repeat split; try done.
    destruct (inversion_mode (config p)); [|done]. intros m Hm. by exists m.
  - destruct (Hks k) as (x & Hx & Hcx); [by left|].
    destruct (load_event_run d k p x Hx Hcx)
      as (a1 & Hrun & Hc & He & Ho & Hn & (fj & Hfj & Hf) & (aj & Haj & Ha)
          & (m & Hm & Hmi) & (u & Hu & Hup) & Hs).
    destruct (IH (with_attrs p a1)) as (a' & Hloop & Hl).
    { intros k' Hk'. apply Hks. by right. }
    exists a'. split.
    { unfold bind. rewrite Hrun. exact Hloop. }
    cbn [config with_attrs attrs] in Hl.
    destruct Hl as (Hc' & He' & Ho' & Hn' & Hf' & Ha' & Hmi' & Hup' & Hs').
    unfold loaded_from. repeat split; try congruence.
    + apply (lookup_step
               (fun e => pd_get (it_events d) e ≫= (fun x => job_info x !! "forward"))
               _ _ k ks fj); [by rewrite Hx|]. by rewrite <- Hf.
    + apply (lookup_step
               (fun e => pd_get (it_events d) e ≫= (fun x => job_info x !! "adjoint"))
               _ _ k ks aj); [by rewrite Hx|]. by rewrite <- Ha.
    + apply (lookup_step (fun e => pd_get (it_events d) e ≫= misfit)
               _ _ k ks m); [by rewrite Hx|]. by rewrite <- Hmi.
    + apply (lookup_step (fun e => pd_get (it_events d) e ≫= usage_updated)
               _ _ k ks u); [by rewrite Hx|]. by rewrite <- Hup.
    + destruct (inversion_mode (config p)); [|congruence].
      intros m0 Hm0. destruct Hs as (sj & Hsj & Hs).
      rewrite Hm0 in Hs. cbn in Hs.
      destruct (Hs' _ Hs) as (m' & Hm' & Hlook). exists m'. split; [done|].
      by apply (lookup_step
                  (fun e => pd_get (it_events d) e
                            ≫= (fun x => job_info x !! "smoothing"))
                  _ _ k ks sj); [rewrite Hx|].
Qed.

Lemma pd_get_keys {V} (d : pydict V) k :
  k ∈ pd_keys d <-> is_Some (pd_get d k).
Proof.
  unfold pd_keys. induction d as [|[k' v] d IH]; cbn.
  - split; [by intros ?%elem_of_nil | by intros [? [=]]].
  - rewrite elem_of_cons. destruct (String.eqb_spec k' k) as [->|Hne].
    + split; [eauto | by left].
    + rewrite <- IH. split; [by intros [->|?] | by right].
Qed.

Lemma pd_get_not_key {V} (d : pydict V) k :
  k ∉ pd_keys d -> pd_get d k = None.
Proof.
  intros Hk. destruct (pd_get d k) eqn:E; [|done].
  exfalso. apply Hk, pd_get_keys. eauto.
Qed.

Lemma get_iteration_attributes_ok env p it d old new :
  get_newest_iteration_name env = Ok it ->
  iteration_tomls (disk p) !! iteration_toml_path it = Some d ->
  it_last_control_group d = Some old ->
  it_new_control_group d = Some new ->
  (forall k x, pd_get (it_events d) k = Some x ->
     complete_entry (inversion_mode (config p)) x) ->
  (inversion_mode (config p) = MonoBatch -> is_Some (it_smoothing d)) ->
  exists a',
    get_iteration_attributes env false p = (Ok tt, with_attrs p a') /\
    current_iteration a' = it_name d /\
    events_in_iteration a' = pd_keys (it_events d) /\
    old_control_group a' = old /\
    new_control_group a' = new /\
    (forall e, forward_job a' !! e
               = pd_get (it_events d) e ≫= (fun x => job_info x !! "forward")) /\
    (forall e, adjoint_job a' !! e
               = pd_get (it_events d) e ≫= (fun x => job_info x !! "adjoint")) /\
    (forall e, misfits a' !! e = pd_get (it_events d) e ≫= misfit) /\
    (forall e, updated a' !! e = pd_get (it_events d) e ≫= usage_updated) /\
    match inversion_mode (config p) with
    | MiniBatch =>
        exists m,
          smoothing_job a' = SmoothPerEvent m /\
          forall e, m !! e
                    = pd_get (it_events d) e
                      ≫= (fun x => job_info x !! "smoothing")
    | MonoBatch =>
        exists s, it_smoothing d = Some s /\ smoothing_job a' = SmoothSingle s
    end.
Proof.
  intros Hnew Hfile Hold Hngrp Hentries Hsm.
  unfold get_iteration_attributes.
  rewrite (bind_run_ok _ _ p it p) by (unfold lift; by rewrite Hnew).
  cbn [negb]. cbv zeta.
  rewrite (bind_run_ok _ _ p true p)
    by (unfold path_exists, bind, get, ret, has_key; by rewrite Hfile).
  cbn [negb].
  rewrite (bind_run_ok _ _ p d p)
    by (unfold read_iteration_toml, bind, get; by rewrite Hfile).
  set (a0 := with_iteration (attrs p) (it_name d) (pd_keys (it_events d))).
  rewrite (bind_run_ok _ _ p tt (with_attrs p a0)) by reflexivity.
  set (a1 := with_updated
               (with_misfits
                  (with_smoothing_job
                     (with_adjoint_job
                        (with_new_control_group
                           (with_old_control_group a0 old) new) ∅)
                     (SmoothPerEvent ∅)) ∅) ∅).
  rewrite (bind_run_ok _ _ (with_attrs p a0) tt (with_attrs p a1))
    by (rewrite Hold, Hngrp; reflexivity).
  set (a2 := with_forward_job a1 ∅).
  rewrite (bind_run_ok _ _ (with_attrs p a1) tt (with_attrs p a2))
    by reflexivity.
  destruct (load_loop d (pd_keys (it_events d)) (with_attrs p a2))
    as (a3 & Hloop & Hl).
  { intros k [x Hx]%pd_get_keys. exists x. split; [done|].
    exact (Hentries k x Hx). }
  change (with_attrs (with_attrs p a2) a3) with (with_attrs p a3) in Hloop.
  cbn [config with_attrs attrs] in Hl.
  unfold load_event in Hloop.
  rewrite (bind_run_ok _ _ _ _ _ Hloop).
  rewrite (bind_run_ok _ _ (with_attrs p a3) (with_attrs p a3)
             (with_attrs p a3)) by reflexivity.
  unfold is_mono_batch. cbn [config with_attrs andb negb].
  destruct Hl as (Hc & He & Ho & Hn & Hf & Ha & Hmi & Hup & Hs).
  assert (Hlook : forall {V} (F : EventEntry -> option V) (m : gmap string V),
            (forall e, m !! e
                       = if decide (e ∈ pd_keys (it_events d))
                         then pd_get (it_events d) e ≫= F
                         else (∅ : gmap string V) !! e) ->
            forall e, m !! e = pd_get (it_events d) e ≫= F).
  { intros V F m H e. rewrite H.
    destruct (decide (e ∈ pd_keys (it_events d))) as [|Hk]; [done|].
    by rewrite lookup_empty, (pd_get_not_key _ _ Hk). }
  destruct (inversion_mode (config p)) eqn:Hmode.
  - exists a3. split; [reflexivity|].
    repeat split; try done.
    + apply (Hlook _ (fun x => job_info x !! "forward")), Hf.
    + apply (Hlook _ (fun x => job_info x !! "adjoint")), Ha.
    + apply (Hlook _ misfit), Hmi.
    + apply (Hlook _ usage_updated), Hup.
    + destruct (Hs ∅ eq_refl) as (m & Hm & Hml). exists m. split; [done|].
      apply (Hlook _ (fun x => job_info x !! "smoothing")), Hml.
  - destruct (Hsm eq_refl) as [s Hsd]. rewrite Hsd.
    exists (with_smoothing_job a3 (SmoothSingle s)). split; [reflexivity|].
    cbn. repeat split; try done.
    + apply (Hlook _ (fun x => job_info x !! "forward")), Hf.
    + apply (Hlook _ (fun x => job_info x !! "adjoint")), Ha.
    + apply (Hlook _ misfit), Hmi.
    + apply (Hlook _ usage_updated), Hup.
    + eauto.
Qed.

(** X13. A record that was just created loads as an untouched iteration:
    when [create_iteration_toml] returns for a non-validation iteration
    that the optimiser reports as the newest one,
    [get_iteration_attributes] succeeds on the result and changes the
    in-memory attributes only; memory then names the iteration, holds
    exactly the events of the catalog, an empty new control group, for each
    event the never-submitted forward and adjoint records, misfit 0 and
    usage_updated false, nothing for any other event, and the
    never-submitted smoothing record (per event in mini-batch mode, a single
    one in mono-batch mode). *)
Theorem created_record_loads_untouched env iteration p p1 :
  contains "validation" iteration = false ->
  get_newest_iteration_name env = Ok iteration ->
  create_iteration_toml env iteration p = (Ok tt, p1) ->
  let interp := if is_multi_mesh p then Some false else None in
  exists events a',
    list_events env iteration = Ok events /\
    get_iteration_attributes env false p1 = (Ok tt, with_attrs p1 a') /\
    current_iteration a' = iteration /\
    (forall e, e ∈ events_in_iteration a' <-> e ∈ events) /\
    new_control_group a' = [] /\
    (forall e, e ∈ events ->
       forward_job a' !! e = Some (empty_job interp) /\
       adjoint_job a' !! e = Some (empty_job interp) /\
       misfits a' !! e = Some 0%Q /\
       updated a' !! e = Some false) /\
    (forall e, e ∉ events ->
       forward_job a' !! e = None /\ adjoint_job a' !! e = None /\
       misfits a' !! e = None /\ updated a' !! e = None) /\
    match inversion_mode (config p) with
    | MiniBatch =>
        exists m,
          smoothing_job a' = SmoothPerEvent m /\
          forall e, m !! e
                    = if decide (e ∈ events) then Some (empty_job None)
                      else None
    | MonoBatch => smoothing_job a' = SmoothSingle (empty_job None)
    end.
Proof.
  intros Hval Hnewest. rewrite create_iteration_toml_run. cbv zeta.
  rewrite Hval.
  destruct (chained_control_group env iteration false (backed_up iteration p))
    as [[lcg|e] p2]; cbn [fst]; [|discriminate].
  destruct (list_events env iteration) as [events|e]; [|discriminate].
  intros [= <-]. exists events.
  set (d := fresh_it_dict p iteration false lcg events).
  set (p1 := with_disk _ _).
  assert (Hconfig : config p1 = config p) by apply backed_up_config.
  assert (Hget : forall k,
            pd_get (it_events d) k
            = if decide (k ∈ events)
              then Some {| job_info :=
                             created_jobs false (inversion_mode (config p))
                               (empty_job
                                  (if is_multi_mesh p then Some false
                                   else None))
                               (empty_job
                                  (if is_multi_mesh p then Some false
                                   else None))
                               (empty_job None);
                           misfit := Some 0%Q;
                           usage_updated := Some false |}
              else None).
  { intros k. unfold d, fresh_it_dict. cbn [it_events negb].
    by rewrite pd_get_fold_set. }
  destruct (get_iteration_attributes_ok env p1 iteration d lcg [])
    as (a' & Hrun & Hc & He & _ & Hn & Hf & Ha & Hmi & Hup & Hs);
    try done.
  { cbn. apply lookup_insert_eq. }
  { intros k x. rewrite Hget, Hconfig. destruct (decide (k ∈ events)); [|done].
    intros [= <-]. unfold complete_entry. cbn.
    destruct (inversion_mode (config p)); cbn; repeat split; eauto.
    all: done. }
  { rewrite Hconfig. intros Hmono. unfold d, fresh_it_dict, is_mono_batch.
    rewrite Hmono. cbn. eauto. }
  exists a'. split; [done|]. split; [done|]. split; [done|].
  split.
  { intros e. rewrite He, pd_get_keys, Hget.
    destruct (decide (e ∈ events)); split; try done;
      solve [eauto | by intros [? [=]]]. }
  split; [done|].
  split.
  { intros e Hin. rewrite Hf, Ha, Hmi, Hup, Hget, decide_True by done. cbn.
    destruct (inversion_mode (config p)); done. }
  split.
  { intros e Hnin. by rewrite Hf, Ha, Hmi, Hup, Hget, decide_False. }
  rewrite Hconfig in Hs. destruct (inversion_mode (config p)) eqn:Hmode.
  - destruct Hs as (m & Hm & Hml). exists m. split; [done|].
    intros e. rewrite Hml, Hget. by destruct (decide (e ∈ events)).
  - destruct Hs as (s & Hsd & Hs). rewrite Hs. f_equal.
    unfold d, fresh_it_dict, is_mono_batch in Hsd. rewrite Hmode in Hsd.
    cbn in Hsd. by injection Hsd as <-.
Qed.

Lemma created_record_loads_untouched_witness :
  exists events a',
    list_events demo_env "it0001_model" = Ok events /\
    get_iteration_attributes demo_env false
      (state_after (create_iteration_toml demo_env "it0001_model")
         (demo_project MonoBatch MultiMesh))
    = (Ok tt,
       with_attrs
         (state_after (create_iteration_toml demo_env "it0001_model")
            (demo_project MonoBatch MultiMesh)) a') /\
    current_iteration a' = "it0001_model" /\
    (forall e, e ∈ events_in_iteration a' <-> e ∈ events) /\
    new_control_group a' = [] /\
    (forall e, e ∈ events ->
       forward_job a' !! e = Some (empty_job (Some false)) /\
       adjoint_job a' !! e = Some (empty_job (Some false)) /\
       misfits a' !! e = Some 0%Q /\
       updated a' !! e = Some false) /\
    (forall e, e ∉ events ->
       forward_job a' !! e = None /\ adjoint_job a' !! e = None /\
       misfits a' !! e = None /\ updated a' !! e = None) /\
    smoothing_job a' = SmoothSingle (empty_job None).
Proof.
  apply (created_record_loads_untouched demo_env "it0001_model"
           (demo_project MonoBatch MultiMesh)); reflexivity.
Defined.

(** X14. Saving and loading is a round trip on the events of the catalog:
    when [update_iteration_toml] returns for a non-validation iteration
    that the optimiser reports as the newest one,
    [get_iteration_attributes] succeeds on the result and changes the
    in-memory attributes only; for every event of the catalog the forward,
    adjoint and smoothing records, the misfit and the usage_updated flag
    are those that were in memory before the save; the records of events
    that the catalog does not list are gone; and the control groups are
    those of the ledger entry of the iteration, whatever memory held. *)
Theorem saved_record_loads_back env iteration validation p p1 :
  resolved_validation p iteration validation = false ->
  get_newest_iteration_name env
  = Ok (resolved_iteration p iteration validation) ->
  update_iteration_toml env iteration validation p = (Ok tt, p1) ->
  let name := resolved_iteration p iteration validation in
  exists events a' ledger m',
    list_events env name = Ok events /\
    get_iteration_attributes env false p1 = (Ok tt, with_attrs p1 a') /\
    current_iteration a' = name /\
    (forall e, e ∈ events_in_iteration a' <-> e ∈ events) /\
    ledger_entry p name = Some ledger /\
    ledger !! "old" = Some (old_control_group a') /\
    ledger !! "new" = Some (new_control_group a') /\
    smoothing_job a' = SmoothPerEvent m' /\
    (forall e, e ∈ events ->
       is_Some (forward_job a' !! e) /\
       forward_job a' !! e = forward_job (attrs p) !! e /\
       adjoint_job a' !! e = adjoint_job (attrs p) !! e /\
       misfits a' !! e = misfits (attrs p) !! e /\
       updated a' !! e = updated (attrs p) !! e /\
       exists m, smoothing_job (attrs p) = SmoothPerEvent m /\
                 m' !! e = m !! e) /\
    (forall e, e ∉ events ->
       forward_job a' !! e = None /\ adjoint_job a' !! e = None /\
       misfits a' !! e = None /\ updated a' !! e = None /\
       m' !! e = None).
Proof.
  intros Hval Hnewest Hsave name.
  destruct (update_iteration_toml_ok env iteration validation p p1 Hsave)
    as (_ & Hmono & events & d & Hev & -> & Hname & _ & Hin & Hout & Hcg).
  fold name in Hev, Hname, Hin, Hout, Hcg, Hnewest |- *.
  rewrite Hval in Hmono, Hin, Hcg.
  assert (Hmode : inversion_mode (config p) = MiniBatch).
  { unfold is_mono_batch in Hmono.
    by destruct (inversion_mode (config p)). }
  destruct Hcg as (ledger & Hledger & Hold & Hngrp & [old Ho] & [new Hn]).
  set (p1 := with_disk p _).
  destruct (get_iteration_attributes_ok env p1 name d old new)
    as (a' & Hrun & Hc & He & Hoc & Hnc & Hf & Ha & Hmi & Hup & Hs);
    try done.
  { cbn. apply lookup_insert_eq. }
  { by rewrite Hold. }
  { by rewrite Hngrp. }
  { intros k x Hx. cbn [p1 config with_disk]. rewrite Hmode.
    destruct (decide (k ∈ events)) as [Hk|Hk].
    - destruct (Hin k Hk) as (entry & Hsaved & Hentry).
      rewrite Hentry in Hx. injection Hx as <-.
      destruct Hsaved as (f & _ & a & m & u & _ & _ & _ & Hs).
      rewrite Hmode in Hs. destruct Hs as (pe & s & _ & _ & ->).
      unfold complete_entry. cbn. repeat split; eauto.
    - by rewrite (Hout k Hk) in Hx. }
  { cbn [p1 config with_disk]. by rewrite Hmode. }
  cbn [p1 config with_disk] in Hs. rewrite Hmode in Hs.
  destruct Hs as (m' & Hm' & Hml).
  exists events, a', ledger, m'.
  split; [done|]. split; [done|]. split; [congruence|].
  split.
  { intros e. rewrite He, pd_get_keys.
    destruct (decide (e ∈ events)) as [Hk|Hk].
    - destruct (Hin e Hk) as (entry & _ & ->). split; eauto.
    - rewrite (Hout e Hk). split; [by intros [? [=]] | done]. }
  split; [done|]. split; [congruence|]. split; [congruence|].
  split; [done|]. split.
  - intros e Hk. destruct (Hin e Hk) as (entry & Hsaved & Hentry).
    destruct Hsaved as (f & Hfj & a & m & u & Haj & Hmj & Huj & Hs).
    rewrite Hmode in Hs. destruct Hs as (pe & s & Hpe & Hse & ->).
    rewrite Hf, Ha, Hmi, Hup, Hml, Hentry. cbn.
    rewrite Hfj, Haj, Hmj, Huj.
    repeat split; eauto.
  - intros e Hk. by rewrite Hf, Ha, Hmi, Hup, Hml, (Hout e Hk).
Qed.

Lemma saved_record_loads_back_witness :
  let p := submitted_project in
  let p1 := state_after (update_iteration_toml demo_env "current" false) p in
  (resolved_validation p "current" false = false /\
   get_newest_iteration_name demo_env
   = Ok (resolved_iteration p "current" false) /\
   update_iteration_toml demo_env "current" false p = (Ok tt, p1)) /\
  let name := resolved_iteration p "current" false in
  exists events a' ledger m',
    list_events demo_env name = Ok events /\
    get_iteration_attributes demo_env false p1 = (Ok tt, with_attrs p1 a') /\
    current_iteration a' = name /\
    (forall e, e ∈ events_in_iteration a' <-> e ∈ events) /\
    ledger_entry p name = Some ledger /\
    ledger !! "old" = Some (old_control_group a') /\
    ledger !! "new" = Some (new_control_group a') /\
    smoothing_job a' = SmoothPerEvent m' /\
    (forall e, e ∈ events ->
       is_Some (forward_job a' !! e) /\
       forward_job a' !! e = forward_job (attrs p) !! e /\
       adjoint_job a' !! e = adjoint_job (attrs p) !! e /\
       misfits a' !! e = misfits (attrs p) !! e /\
       updated a' !! e = updated (attrs p) !! e /\
       exists m, smoothing_job (attrs p) = SmoothPerEvent m /\
                 m' !! e = m !! e) /\
    (forall e, e ∉ events ->
       forward_job a' !! e = None /\ adjoint_job a' !! e = None /\
       misfits a' !! e = None /\ updated a' !! e = None /\
       m' !! e = None).
Proof.
  intros p p1.
  assert (H : update_iteration_toml demo_env "current" false p = (Ok tt, p1))
    by (vm_compute; reflexivity).
  split; [by repeat split|].
  exact (saved_record_loads_back demo_env "current" false p p1
           eq_refl eq_refl H).
Defined.

(** ** The flow component: lookups, submissions and what is saved *)

(** X15. A job of the current iteration has to be marked submitted before
    Salvus-Flow is asked about it: when memory holds the record of the job
    and its [submitted] flag is false, [get_job] raises an
    [InversionsonError] without any call to Salvus-Flow and without
    changing anything, and so does [get_job_status]. *)
Theorem get_job_requires_submission env event sim_type iteration p r :
  is_current p iteration = true ->
  current_record p event sim_type = Some r ->
  submitted r = false ->
  exists msg,
    get_job env event sim_type iteration p
    = (Raise (InversionsonError msg), p) /\
    get_job_status env event sim_type iteration p
    = (Raise (InversionsonError msg), p).
Proof.
  intros Hcur Hrec Hsub. unfold is_current in Hcur.
  assert (H : exists msg,
            get_job env event sim_type iteration p
            = (Raise (InversionsonError msg), p)).
  { unfold get_job, current_record in *.
    rewrite (bind_run_ok get _ p p p eq_refl), Hcur. mrun.
    destruct (String.eqb sim_type "forward").
    { rewrite Hrec. cbv beta iota. rewrite Hsub. by eexists. }
    destruct (String.eqb sim_type "adjoint").
    { rewrite Hrec. cbv beta iota. rewrite Hsub. by eexists. }
    destruct (String.eqb sim_type "smoothing"); [|done].
    unfold is_mono_batch, smoothing_job_single, smoothing_job_of_event.
    destruct (inversion_mode (config p)), (smoothing_job (attrs p));
      try done; mrun.
    - rewrite Hrec. cbv beta iota. rewrite Hsub. by eexists.
    - injection Hrec as ->. rewrite Hsub. by eexists. }
  destruct H as [msg H]. exists msg. split; [done|].
  unfold get_job_status. by rewrite (bind_run_raise _ _ _ _ _ H).
Qed.

Lemma get_job_requires_submission_witness :
  exists msg,
    get_job demo_env "E1" "forward" "current" loaded_project
    = (Raise (InversionsonError msg), loaded_project) /\
    get_job_status demo_env "E1" "forward" "current" loaded_project
    = (Raise (InversionsonError msg), loaded_project).
Proof.
  apply (get_job_requires_submission demo_env "E1" "forward" "current"
           loaded_project (empty_job None)); reflexivity.
Defined.

(** X16. The methods that ask Salvus-Flow about stored jobs, or delete
    them there, keep no trace of it locally: whatever they return or raise,
    [get_job], [get_job_status], [get_job_file_paths],
    [delete_stored_wavefields] and [submit_smoothing_job] leave the
    configuration, every in-memory attribute, every file and the warnings
    as they were; the calls to Salvus-Flow are all that is added. *)
Theorem remote_queries_change_nothing_locally
    env event sim_type iteration sim par :
  preserves (same_on local_state) (get_job env event sim_type iteration) /\
  preserves (same_on local_state)
    (get_job_status env event sim_type iteration) /\
  preserves (same_on local_state) (get_job_file_paths env event sim_type) /\
  preserves (same_on local_state)
    (delete_stored_wavefields env iteration sim_type) /\
  preserves (same_on local_state) (submit_smoothing_job env event sim par).
Proof.
  assert (Hc : forall p c, same_on local_state p (with_calls p c)) by done.
  split; [apply preserves_get_job; [exact _ | exact Hc]|].
  split; [apply preserves_get_job_status; [exact _ | exact Hc]|].
  split; [apply preserves_get_job_file_paths; [exact _ | exact Hc]|].
  split; [apply preserves_delete_stored_wavefields; [exact _ | exact Hc]|].
  apply preserves_submit_smoothing_job; exact Hc.
Qed.

(** X17. [submit_smoothing_job] submits and then loses the job: with the
    smoothing records in the shape in which [get_iteration_attributes]
    loads them, every call issues one submission to the smoothing site
    with the configured ranks and wall time and then raises, whether
    Salvus-Flow accepted the job or not.  When it accepted, the exception
    is that of compiling the assignment of the job name if Python does not
    read the event, the parameter or the name pasted into it (it reads
    them when they are plain), and otherwise the [KeyError] or [TypeError]
    of the assignment, which addresses a parameter level that a job record
    does not have. *)
Theorem submit_smoothing_job_always_raises env event sim par p :
  let site := smoothing_site_name (config p) in
  let ranks := smoothing_ranks (config p) in
  let wt := smoothing_wall_time (config p) in
  exists e,
    submit_smoothing_job env event sim par p
    = (Raise e, with_calls p (calls p ++ [RunAsync site sim ranks wt])) /\
    forall job_name,
      bk_run_async env (calls p) site sim ranks wt = Ok job_name ->
      match read_attribute env (AttrSmoothingJob event par) with
      | Raise e' => e = e'
      | Ok _ =>
          match python_literal env job_name with
          | Raise e' => e = e'
          | Ok _ =>
              (exists k, e = KeyError k) \/ (exists msg, e = TypeError msg)
          end
      end.
Proof.
  intros site ranks wt.
  unfold submit_smoothing_job, sapi_run_async, backend_call.
  rewrite (bind_run_ok get _ p p p eq_refl). fold site ranks wt.
  unfold bind at 1.
  destruct (bk_run_async env (calls p) site sim ranks wt) as [job_name|e].
  2: { exists e. split; [done|]. by intros ? [=]. }
  set (p1 := with_calls p _). unfold bind.
  rewrite change_attribute_run.
  destruct (read_attribute env (AttrSmoothingJob event par)) as [a|e] eqn:Ha.
  2: { exists e. split; [done|]. by intros ? [= <-]. }
  assert (exists key par', a = AttrSmoothingJob key par') as (key & par' & ->).
  { cbn in Ha. destruct (python_literal env event); [|done].
    destruct (python_literal env par); [|done]. injection Ha as <-. eauto. }
  cbn [read_value].
  destruct (python_literal env job_name) as [v|e] eqn:Hv.
  2: { exists e. split; [done|]. intros ? [= <-]. by rewrite Hv. }
  destruct (assign_attribute_smoothing_run key par' (NameIs v) p1)
    as (e & -> & He).
  exists e. split; [done|]. intros ? [= <-]. by rewrite Hv.
Qed.

Lemma submit_smoothing_job_always_raises_witness :
  let p := loaded_project in
  let sim := Simulation "smoothing E1" in
  exists e,
    submit_smoothing_job demo_env "E1" sim "VSV" p
    = (Raise e,
       with_calls p
         (calls p ++ [RunAsync (smoothing_site_name (config p)) sim
                        (smoothing_ranks (config p))
                        (smoothing_wall_time (config p))])) /\
    ((exists k, e = KeyError k) \/ (exists msg, e = TypeError msg)).
Proof.
  intros p sim.
  destruct (submit_smoothing_job_always_raises demo_env "E1" sim "VSV" p)
    as (e & Hrun & He).
  exists e. split; [exact Hrun|]. exact (He "job-abc" eq_refl).
Defined.

(** X18. [get_job_file_paths] does not look at the [submitted] flag: when
    it returns, the simulation type is forward or adjoint, memory holds a
    record for the event, and the files are what Salvus-Flow answers for
    the job fetched under the name of that record from the simulation
    site, be the job submitted or not; the two calls are all that
    changes. *)
Theorem get_job_file_paths_reads_stored_name env event sim_type p files p' :
  get_job_file_paths env event sim_type p = (Ok files, p') ->
  (sim_type = "forward" \/ sim_type = "adjoint") /\
  exists r,
    jobs_of sim_type p !! event = Some r /\
    let site := site_name (config p) in
    let h := {| h_site := site; h_name := name r; h_array := false |} in
    p' = with_calls p (calls p ++ [GetJob site (name r); GetOutputFiles h]) /\
    bk_get_output_files env (calls p ++ [GetJob site (name r)]) h = Ok files.
Proof.
  unfold get_job_file_paths. intros H.
  apply bind_ok in H. destruct H as (p0 & ? & [= <- <-] & H).
  apply bind_ok in H. destruct H as (job_name & p1 & Hname & H).
  assert (Hr : (sim_type = "forward" \/ sim_type = "adjoint") /\
               exists r, jobs_of sim_type p !! event = Some r /\
                         job_name = name r /\ p1 = p).
  { unfold jobs_of.
    destruct (String.eqb_spec sim_type "forward") as [->|Hf].
    { monad_inv. cbn. eauto 6. }
    destruct (String.eqb_spec sim_type "adjoint") as [->|Ha];
      monad_inv. cbn. eauto 6. }
  destruct Hr as (Hkind & r & Hrec & -> & ->).
  split; [done|]. exists r. split; [done|]. cbv zeta.
  apply bind_ok in H. destruct H as (h & p2 & Hjob & H).
  apply sapi_get_job_ok in Hjob. destruct Hjob as (_ & -> & ->).
  revert H. unfold backend_call. cbn [calls with_calls].
  intros [= H <-]. split; [|done]. cbn. by rewrite <- app_assoc.
Qed.

Lemma get_job_file_paths_reads_stored_name_witness :
  let p := loaded_project in
  let p' := state_after (get_job_file_paths demo_env "E1" "forward") p in
  get_job_file_paths demo_env "E1" "forward" p = (Ok [], p') /\
  ("forward" = "forward" \/ "forward" = "adjoint") /\
  exists r,
    jobs_of "forward" p !! "E1" = Some r /\
    let site := site_name (config p) in
    let h := {| h_site := site; h_name := name r; h_array := false |} in
    p' = with_calls p (calls p ++ [GetJob site (name r); GetOutputFiles h]) /\
    bk_get_output_files demo_env (calls p ++ [GetJob site (name r)]) h
    = Ok [].
Proof.
  intros p p'.
  assert (H : get_job_file_paths demo_env "E1" "forward" p = (Ok [], p'))
    by (vm_compute; reflexivity).
  split; [exact H|].
  exact (get_job_file_paths_reads_stored_name demo_env "E1" "forward" p []
           p' H).
Defined.

Lemma submit_job_ok env event sim sim_type site wall_time_arg ranks p p' :
  sim_type = "forward" \/ sim_type = "adjoint" ->
  submit_job env event sim sim_type site wall_time_arg ranks p = (Ok tt, p') ->
  exists key r job_name v p2,
    python_literal env event = Ok key /\
    jobs_of sim_type p !! key = Some r /\
    bk_run_async env (calls p) site sim ranks (submit_wall_time p sim_type)
      = Ok job_name /\
    python_literal env job_name = Ok v /\
    config p2 = config p /\
    current_iteration (attrs p2) = current_iteration (attrs p) /\
    jobs_of sim_type p2 !! key = Some (recorded r v) /\
    update_iteration_toml env "current" false p2 = (Ok tt, p').
Proof.
  intros Hkind. rewrite submit_job_run. cbv zeta.
  destruct (bk_run_async env (calls p) site sim ranks
              (submit_wall_time p sim_type)) as [job_name|e] eqn:Hbk;
    [|done].
  rewrite (record_submission_run _ _ _ _ _ Hkind).
  destruct (python_literal env event) as [key|e] eqn:Hkey; [|done].
  destruct (python_literal env job_name) as [v|e] eqn:Hv; [|done].
  set (p1 := with_calls p _).
  change (jobs_of sim_type p1) with (jobs_of sim_type p).
  destruct (jobs_of sim_type p !! key) as [r|] eqn:Hr; [|done].
  intros Hsave. exists key, r, job_name, v. eexists.
  split; [done|]. split; [done|]. split; [done|]. split; [done|].
  refine (conj _ (conj _ (conj _ Hsave))).
  - done.
  - by destruct Hkind as [-> | ->].
  - rewrite (with_jobs_jobs_of _ _ _ Hkind). apply lookup_insert_eq.
Qed.

(** X19. An accepted submission is on file when [submit_job] returns: for
    a forward or adjoint job of a non-validation iteration, a call that
    returns has found a record in memory under the key that Python reads
    from the event (the event itself when it is plain), Salvus-Flow has
    accepted the job, and memory as well as the file of the current
    iteration hold that record with the name that Python reads from the
    job name (the name itself when it is plain) and [submitted] true (the
    file for every key that the catalog lists). *)
Theorem accepted_submission_is_on_file
    env event sim sim_type site wall_time_arg ranks p p' :
  sim_type = "forward" \/ sim_type = "adjoint" ->
  contains "validation" (current_iteration (attrs p)) = false ->
  submit_job env event sim sim_type site wall_time_arg ranks p = (Ok tt, p') ->
  let file := iteration_toml_path (current_iteration (attrs p)) in
  exists key r job_name v events d,
    python_literal env event = Ok key /\
    jobs_of sim_type p !! key = Some r /\
    bk_run_async env (calls p) site sim ranks (submit_wall_time p sim_type)
      = Ok job_name /\
    python_literal env job_name = Ok v /\
    jobs_of sim_type p' !! key = Some (recorded r v) /\
    list_events env (current_iteration (attrs p)) = Ok events /\
    iteration_tomls (disk p') !! file = Some d /\
    (key ∈ events ->
       exists e, pd_get (it_events d) key = Some e /\
                 job_info e !! sim_type = Some (recorded r v)).
Proof.
  intros Hkind Hval H file.
  destruct (submit_job_ok _ _ _ _ _ _ _ _ _ Hkind H)
    as (key & r & job_name & v & p2 & Hkey & Hr & Hbk & Hv & Hcfg & Hcur
        & Hr2 & Hsave).
  destruct (update_iteration_toml_ok env "current" false p2 p' Hsave)
    as (_ & Hmono & events & d & Hev & -> & _ & _ & Hin & _ & _).
  assert (Hvl : resolved_validation p2 "current" false = false).
  { unfold resolved_validation. cbn. by rewrite Hcur, Hval. }
  assert (Hn : resolved_iteration p2 "current" false
               = current_iteration (attrs p)).
  { unfold resolved_iteration. rewrite Hvl. cbn. by rewrite Hcur. }
  rewrite Hvl in Hmono, Hin. rewrite Hn in Hev |- *.
  exists key, r, job_name, v, events, d.
  split; [done|]. split; [done|]. split; [done|]. split; [done|].
  split; [done|]. split; [done|].
  split; [cbn; apply lookup_insert_eq|].
  intros Hevent. destruct (Hin key Hevent) as (entry & Hsaved & Hentry).
  exists entry. split; [done|].
  destruct Hsaved as (f & Hf & a & m & u & Ha & _ & _ & Hs).
  assert (Hmode : inversion_mode (config p2) = MiniBatch).
  { unfold is_mono_batch in Hmono.
    by destruct (inversion_mode (config p2)). }
  rewrite Hmode in Hs. destruct Hs as (pe & s & _ & _ & ->).
  unfold jobs_of in Hr2. cbn [job_info].
  destruct Hkind as [-> | ->]; cbn in Hr2.
  - rewrite Hf in Hr2. injection Hr2 as ->. done.
  - rewrite Ha in Hr2. injection Hr2 as ->. done.
Qed.

Lemma accepted_submission_is_on_file_witness :
  let p := loaded_project in
  let p' := submitted_project in
  let file := iteration_toml_path (current_iteration (attrs p)) in
  (("forward" = "forward" \/ "forward" = "adjoint") /\
   contains "validation" (current_iteration (attrs p)) = false /\
   submit_job demo_env "E1" (Simulation "forward E1") "forward" "daint"
     3600 1024 p = (Ok tt, p')) /\
  exists key r job_name v events d,
    python_literal demo_env "E1" = Ok key /\
    jobs_of "forward" p !! key = Some r /\
    bk_run_async demo_env (calls p) "daint" (Simulation "forward E1") 1024
      (submit_wall_time p "forward") = Ok job_name /\
    python_literal demo_env job_name = Ok v /\
    jobs_of "forward" p' !! key = Some (recorded r v) /\
    list_events demo_env (current_iteration (attrs p)) = Ok events /\
    iteration_tomls (disk p') !! file = Some d /\
    (key ∈ events ->
       exists e, pd_get (it_events d) key = Some e /\
                 job_info e !! "forward" = Some (recorded r v)).
Proof.
  intros p p' file.
  assert (H : submit_job demo_env "E1" (Simulation "forward E1") "forward"
                "daint" 3600 1024 p = (Ok tt, p'))
    by (vm_compute; reflexivity).
  split; [split; [by left | split; [reflexivity | exact H]]|].
  exact (accepted_submission_is_on_file demo_env "E1"
           (Simulation "forward E1") "forward" "daint" 3600 1024 p p'
           (or_introl eq_refl) eq_refl H).
Defined.

(** X20. A job that Salvus-Flow accepted is lost when the assignment of
    its name fails: [submit_job] submits first, so when the statement that
    assigns the name does not compile (Python does not read the event or
    the name pasted into it), or when the forward or adjoint dict has no
    record under the key read from the event, the call raises that
    exception or [KeyError] with the submission made and nothing else
    changed; the name of the job is kept nowhere. *)
Theorem submission_for_unknown_event_is_lost
    env event sim sim_type site wall_time_arg ranks p job_name :
  sim_type = "forward" \/ sim_type = "adjoint" ->
  bk_run_async env (calls p) site sim ranks (submit_wall_time p sim_type)
    = Ok job_name ->
  let run := submit_job env event sim sim_type site wall_time_arg ranks in
  let p1 :=
    with_calls p
      (calls p ++ [RunAsync site sim ranks (submit_wall_time p sim_type)]) in
  match python_literal env event with
  | Raise e => run p = (Raise e, p1)
  | Ok key =>
      match python_literal env job_name with
      | Raise e => run p = (Raise e, p1)
      | Ok _ =>
          jobs_of sim_type p !! key = None ->
          run p = (Raise (KeyError key), p1)
      end
  end.
Proof.
  intros Hkind Hbk run p1. unfold run. rewrite submit_job_run. cbv zeta.
  rewrite Hbk, (record_submission_run _ _ _ _ _ Hkind). fold p1.
  destruct (python_literal env event) as [key|e]; [|done].
  destruct (python_literal env job_name) as [v|e]; [|done].
  change (jobs_of sim_type p1) with (jobs_of sim_type p).
  by intros ->.
Qed.

Lemma submission_for_unknown_event_is_lost_witness :
  let p := loaded_project in
  submit_job demo_env "E9" (Simulation "forward E9") "forward" "daint"
    3600 1024 p
  = (Raise (KeyError "E9"),
     with_calls p
       (calls p ++ [RunAsync "daint" (Simulation "forward E9") 1024
                      (submit_wall_time p "forward")])).
Proof.
  intros p.
  exact (submission_for_unknown_event_is_lost demo_env "E9"
           (Simulation "forward E9") "forward" "daint" 3600 1024 p "job-abc"
           (or_introl eq_refl) eq_refl eq_refl).
Defined.

Lemma save_blocked_in_mono_batch env p res p' :
  inversion_mode (config p) = MonoBatch ->
  contains "validation" (current_iteration (attrs p)) = false ->
  update_iteration_toml env "current" false p = (res, p') ->
  exists e, res = Raise e.
Proof.
  intros Hmode Hval H. destruct res as [[]|e]; [|by eexists].
  destruct (update_iteration_toml_ok env "current" false p p' H)
    as (_ & Hmono & _).
  unfold resolved_validation, is_mono_batch in Hmono. cbn in Hmono.
  by rewrite Hval, Hmode in Hmono.
Qed.

Lemma save_key_blocked p p1 :
  same_on save_key p p1 ->
  inversion_mode (config p) = MonoBatch ->
  contains "validation" (current_iteration (attrs p)) = false ->
  inversion_mode (config p1) = MonoBatch /\
  contains "validation" (current_iteration (attrs p1)) = false.
Proof.
  unfold same_on, save_key. intros [= H1 H2] Hm Hv. by rewrite H1, H2.
Qed.

Lemma change_attribute_keeps_save_key env attribute v :
  preserves (same_on save_key) (change_attribute env attribute v).
Proof.
  intros p. rewrite change_attribute_run.
  destruct (read_attribute env attribute) as [a|]; [|done].
  destruct (read_value env v) as [v'|]; [|done].
  destruct a as [event|event|event par].
  - rewrite assign_attribute_forward_run.
    by destruct (forward_job (attrs p) !! event).
  - rewrite assign_attribute_adjoint_run.
    by destruct (adjoint_job (attrs p) !! event).
  - by destruct (assign_attribute_smoothing_run event par v' p)
      as (e & -> & _).
Qed.

Lemma get_job_name_blocked env event sim_type iteration unique_id p :
  inversion_mode (config p) = MonoBatch ->
  contains "validation" (current_iteration (attrs p)) = false ->
  exists e,
    outcome (_get_job_name env event sim_type false iteration unique_id) p
    = Raise e.
Proof.
  intros Hmode Hval. unfold outcome.
  destruct (_get_job_name env event sim_type false iteration unique_id p)
    as [[job|e] p'] eqn:H; [exfalso | by eexists].
  unfold _get_job_name in H.
  apply bind_ok in H. destruct H as (p0 & ? & [= <- <-] & H).
  cbv zeta in H.
  destruct (negb (str_in sim_type ["forward"; "adjoint"; "smoothing"]));
    [discriminate|].
  apply bind_ok in H. destruct H as (job0 & p1 & Hjob & H).
  apply bind_ok in H. destruct H as ([] & p2 & Hsave & _).
  assert (Hkey : same_on save_key p p1).
  { match type of Hjob with
    | ?m p = _ =>
        assert (Hp : preserves (same_on save_key) m)
          by (frame by first
                [ apply preserves_get_old_iteration_info; [exact _]
                | apply preserves_smoothing_job_single; [exact _]
                | apply preserves_smoothing_job_of_event; [exact _] ]);
        specialize (Hp p); by rewrite Hjob in Hp
    end. }
  destruct (save_key_blocked p p1 Hkey Hmode Hval) as [Hm1 Hv1].
  by destruct (save_blocked_in_mono_batch env p1 _ _ Hm1 Hv1 Hsave).
Qed.

(** X21. In mono-batch mode nothing that saves the current iteration can
    return: since [update_iteration_toml] raises for every non-validation
    iteration of a mono-batch inversion, so do the three methods of the
    flow component that end with it: while the current iteration is not a
    validation iteration, [get_job_name], [retrieve_outputs] and
    [submit_job] raise on every input. *)
Theorem mono_batch_blocks_saving_methods env p :
  inversion_mode (config p) = MonoBatch ->
  contains "validation" (current_iteration (attrs p)) = false ->
  (forall event sim_type iteration,
     exists e,
       outcome (get_job_name env event sim_type iteration) p = Raise e) /\
  (forall event sim_type,
     exists e, outcome (retrieve_outputs env event sim_type) p = Raise e) /\
  (forall event sim sim_type site wall_time_arg ranks,
     exists e,
       outcome (submit_job env event sim sim_type site wall_time_arg ranks) p
       = Raise e).
Proof.
  intros Hmode Hval. split; [|split].
  - intros event sim_type iteration. unfold get_job_name.
    by apply get_job_name_blocked.
  - intros event sim_type. unfold outcome, retrieve_outputs.
    destruct (get_job_name_blocked env event sim_type "current" EmptyString
                p Hmode Hval) as [e He].
    unfold outcome in He.
    destruct (_get_job_name env event sim_type false "current" EmptyString p)
      as [r p1] eqn:H. cbn in He. subst r.
    rewrite (bind_run_raise _ _ _ _ _ H). by eexists.
  - intros event sim sim_type site wall_time_arg ranks. unfold outcome.
    destruct (submit_job env event sim sim_type site wall_time_arg ranks p)
      as [[[]|e] p'] eqn:H; [exfalso | by eexists].
    unfold submit_job in H.
    apply bind_ok in H. destruct H as (p0 & ? & [= <- <-] & H).
    apply bind_ok in H. destruct H as (job_name & p1 & Hrun & H).
    apply bind_ok in H. destruct H as ([] & p2 & Hattr & Hsave).
    assert (Hkey : same_on save_key p p2).
    { etrans.
      - match type of Hrun with
        | ?m p = _ =>
            assert (Hp : preserves (same_on save_key) m)
              by (unfold sapi_run_async;
                  apply preserves_backend_call; [exact _ | done]);
            specialize (Hp p); rewrite Hrun in Hp; exact Hp
        end.
      - match type of Hattr with
        | ?m p1 = _ =>
            assert (Hp : preserves (same_on save_key) m);
            [|specialize (Hp p1); rewrite Hattr in Hp; exact Hp]
        end.
        frame by apply change_attribute_keeps_save_key. }
    destruct (save_key_blocked p p2 Hkey Hmode Hval) as [Hm2 Hv2].
    by destruct (save_blocked_in_mono_batch env p2 _ _ Hm2 Hv2 Hsave).
Qed.

Lemma mono_batch_blocks_saving_methods_witness :
  (forall event sim_type iteration,
     exists e,
       outcome (get_job_name demo_env event sim_type iteration) mono_project
       = Raise e) /\
  (forall event sim_type,
     exists e,
       outcome (retrieve_outputs demo_env event sim_type) mono_project
       = Raise e) /\
  (forall event sim sim_type site wall_time_arg ranks,
     exists e,
       outcome
         (submit_job demo_env event sim sim_type site wall_time_arg ranks)
         mono_project
       = Raise e).
Proof.
  apply (mono_batch_blocks_saving_methods demo_env mono_project);
    reflexivity.
Defined.

(** ** Loading a validation record *)

Lemma load_forward_loop d ks p :
  (forall k, k ∈ ks ->
     exists x, pd_get (it_events d) k = Some x /\
               is_Some (job_info x !! "forward")) ->
  exists fw,
    for_each ks (load_forward d) p
    = (Ok tt, with_attrs p (with_forward_job (attrs p) fw)) /\
    forall e, fw !! e =
      if decide (e ∈ ks)
      then pd_get (it_events d) e ≫= (fun x => job_info x !! "forward")
      else forward_job (attrs p) !! e.
Proof.
  revert p. induction ks as [|k ks IH]; intros p Hks; cbn [for_each].
  - exists (forward_job (attrs p)). split; [by destruct p as [? []]|].
    intros e. rewrite decide_False; [done | apply not_elem_of_nil].
  - destruct (Hks k) as (x & Hx & [fj Hfj]); [by left|].
    set (p1 := with_attrs p
                 (with_forward_job (attrs p)
                    (<[k := fj]> (forward_job (attrs p))))).
    assert (Hrun : load_forward d k p = (Ok tt, p1)).
    { unfold load_forward. mrun. rewrite Hx. cbv beta iota.
      by rewrite Hfj. }
    destruct (IH p1) as (fw & Hloop & Hfw).
    { intros k' Hk'. apply Hks. by right. }
    exists fw. split.
    { unfold bind. rewrite Hrun. exact Hloop. }
    apply (lookup_step
             (fun e => pd_get (it_events d) e
                       ≫= (fun x => job_info x !! "forward"))
             _ _ k ks fj); [by rewrite Hx | exact Hfw].
Qed.

(** X22. Loading a validation record replaces the forward jobs only: when
    the record of the validation iteration of the newest iteration is on
    file and each of its events has a forward record,
    [get_iteration_attributes] with [validation=True] returns; memory then
    names the iteration of the record, lists its events and holds their
    forward records and no other forward record, while the adjoint and
    smoothing records, the misfits, the usage flags and both control groups
    are still those that memory held before the call. *)
Theorem validation_load_replaces_forward_jobs_only env p it d :
  get_newest_iteration_name env = Ok it ->
  iteration_tomls (disk p) !! iteration_toml_path ("validation_" +:+ it)
  = Some d ->
  (forall k x, pd_get (it_events d) k = Some x ->
     is_Some (job_info x !! "forward")) ->
  exists a',
    get_iteration_attributes env true p = (Ok tt, with_attrs p a') /\
    current_iteration a' = it_name d /\
    events_in_iteration a' = pd_keys (it_events d) /\
    (forall e, forward_job a' !! e
               = pd_get (it_events d) e ≫= (fun x => job_info x !! "forward")) /\
    adjoint_job a' = adjoint_job (attrs p) /\
    smoothing_job a' = smoothing_job (attrs p) /\
    misfits a' = misfits (attrs p) /\
    updated a' = updated (attrs p) /\
    old_control_group a' = old_control_group (attrs p) /\
    new_control_group a' = new_control_group (attrs p).
Proof.
  intros Hnew Hfile Hentries.
  unfold get_iteration_attributes.
  rewrite (bind_run_ok _ _ p it p) by (unfold lift; by rewrite Hnew).
  cbn [negb]. cbv zeta.
  rewrite (bind_run_ok _ _ p true p)
    by (unfold path_exists, bind, get, ret, has_key; by rewrite Hfile).
  cbn [negb].
  rewrite (bind_run_ok _ _ p d p)
    by (unfold read_iteration_toml, bind, get; by rewrite Hfile).
  set (a0 := with_iteration (attrs p) (it_name d) (pd_keys (it_events d))).
  rewrite (bind_run_ok _ _ p tt (with_attrs p a0)) by reflexivity.
  rewrite (bind_run_ok _ _ (with_attrs p a0) tt (with_attrs p a0))
    by reflexivity.
  set (a2 := with_forward_job a0 ∅).
  rewrite (bind_run_ok _ _ (with_attrs p a0) tt (with_attrs p a2))
    by reflexivity.
  destruct (load_forward_loop d (pd_keys (it_events d)) (with_attrs p a2))
    as (fw & Hloop & Hfw).
  { intros k [x Hx]%pd_get_keys. exists x. split; [done|].
    exact (Hentries k x Hx). }
  unfold load_forward in Hloop.
  rewrite (bind_run_ok _ _ _ _ _ Hloop).
  cbn [attrs with_attrs].
  exists (with_forward_job a2 fw). split.
  { unfold bind, get, is_mono_batch. cbn [negb andb].
    by rewrite andb_false_r. }
  cbn. repeat split; try done.
  intros e. rewrite Hfw. cbn.
  destruct (decide (e ∈ pd_keys (it_events d))) as [|Hk]; [done|].
  by rewrite lookup_empty, (pd_get_not_key _ _ Hk).
Qed.

Lemma validation_load_replaces_forward_jobs_only_witness :
  let p := validation_record_project in
  let d := fresh_it_dict p "validation_it0001_model" true [] ["E1"; "E2"] in
  exists a',
    get_iteration_attributes demo_env true p = (Ok tt, with_attrs p a') /\
    current_iteration a' = it_name d /\
    events_in_iteration a' = pd_keys (it_events d) /\
    (forall e, forward_job a' !! e
               = pd_get (it_events d) e ≫= (fun x => job_info x !! "forward")) /\
    adjoint_job a' = adjoint_job (attrs p) /\
    smoothing_job a' = smoothing_job (attrs p) /\
    misfits a' = misfits (attrs p) /\
    updated a' = updated (attrs p) /\
    old_control_group a' = old_control_group (attrs p) /\
    new_control_group a' = new_control_group (attrs p).
Proof.
  intros p d.
  assert (H1 : get_newest_iteration_name demo_env = Ok "it0001_model")
    by reflexivity.
  assert (H2 : iteration_tomls (disk p)
                 !! iteration_toml_path ("validation_" +:+ "it0001_model")
               = Some d) by (vm_compute; reflexivity).
  assert (H3 : forall k x, pd_get (it_events d) k = Some x ->
                 is_Some (job_info x !! "forward")).
  { clear H2. clearbody p. intros k x. unfold d, fresh_it_dict.
    cbn [it_events]. rewrite pd_get_fold_set.
    destruct (decide (k ∈ ["E1"; "E2"])); [|done].
    intros [= <-]. cbn [job_info created_jobs].
    destruct (inversion_mode (config p)); cbn; eauto. }
  exact (validation_load_replaces_forward_jobs_only demo_env p
           "it0001_model" d H1 H2 H3).
Defined.
